(** * madonctl: command dispatch, result trimming and posting

    A shallow embedding of the [cmd] package of madonctl (root.go,
    suggestions.go, toot.go with the timeline and status commands) and of
    the part of cobra's command execution these files rely on.  Go
    functions become functions into a small process monad that records the
    observable events of a run (API requests, lines written to the
    standard streams) and can stop the process ([os.Exit]) or panic. *)

From Stdlib Require Import String Ascii List ZArith Lia Bool DecimalString DecimalZ.
From Stdlib Require Import OrdersEx Sorted.
From Stdlib Require DecimalFacts DecimalPos DecimalN.
Import ListNotations.
Open Scope string_scope.
Open Scope list_scope.
Open Scope Z_scope.

(** String concatenation, Go's [+] on strings. *)
Infix "+++" := String.append (right associativity, at level 60).

(** ** Go values *)

(** A Go [error]: [None] is [nil], [Some msg] an error whose [Error()] is
    [msg]. *)
Definition error := option string.

Definition isErr (e : error) : bool :=
  match e with Some _ => true | None => false end.

(** [uint] and [int] on the 64-bit targets madonctl is built for. *)
Definition uintSize : Z := 64.
Definition maxInt : Z := 2 ^ (uintSize - 1) - 1.
Definition maxUint : Z := 2 ^ uintSize - 1.

(** The conversion [int(u)] of a [uint]: the bits are kept, so values
    above [maxInt] come out negative. *)
Definition int_of_uint (u : Z) : Z :=
  if u <=? maxInt then u else u - 2 ^ uintSize.

(** [len(l)] as an [int]. *)
Definition len {A : Type} (l : list A) : Z := Z.of_nat (length l).

(** The slice expression [l[:hi]] for a [uint] index: the first [hi]
    elements, and a run-time panic ([None]) when [hi] is out of range.
    (The slices sliced here come straight from the API client; their
    capacity never reaches [maxInt], and the guard in front of the
    expression only lets an index through that is below the length or
    above [maxInt].) *)
Definition sliceTo {A : Type} (l : list A) (hi : Z) : option (list A) :=
  if hi <=? len l then Some (firstn (Z.to_nat hi) l) else None.

(** The trimming every listing command applies to its result:
<<
    if opt.keep > 0 && len(l) > int(opt.keep) {
        l = l[:opt.keep]
    }
>>
    [None] stands for the panic of the slice expression. *)
Definition keepFirst {A : Type} (keep : Z) (l : list A) : option (list A) :=
  if (0 <? keep) && (int_of_uint keep <? len l)
  then sliceTo l keep
  else Some l.

(** ** API records

    Only the fields the package reads are kept; the rest of a record is
    the opaque [payload]. *)

(** The sources mix two revisions of the client library: the status
    commands pass [int64] identifiers, [toot] and the suggestions commands
    pass [madon.ActivityID] strings. *)
Inductive ActivityID : Type :=
| IntID (n : Z)
| StrID (s : string).

Record Account : Type := mkAccount {
  Acct : string;
  accountPayload : string
}.

Record Mention : Type := mkMention {
  mentionAcct : string
}.

Record Status : Type := mkStatus {
  statusAccount : option Account;      (* Account *Account *)
  Mentions : list Mention;
  Visibility : string;
  statusPayload : string
}.

Record Context : Type := mkContext { contextPayload : string }.
Record Card : Type := mkCard { cardPayload : string }.

Record LimitParams : Type := mkLimitParams {
  Limit : Z;
  All : bool;
  SinceID : string;
  MaxID : string
}.

Definition newLimitParams : LimitParams := mkLimitParams 0 false "" "".

Record PostStatusParams : Type := mkPostStatusParams {
  Text : string;
  InReplyTo : string;
  MediaIDs : list string;
  Sensitive : bool;
  SpoilerText : string;
  postVisibility : string
}.

(** The value handed to the printer, a Go [interface{}]: a pointer or a
    slice stored in it makes it non-nil even when the pointer or the
    slice itself is nil. *)
Inductive object : Type :=
| ObjStatus (p : option Status)
| ObjContext (p : option Context)
| ObjCard (p : option Card)
| ObjAccounts (l : list Account)
| ObjStatuses (l : list Status).

(** ** Events of a run *)

(** The requests the package sends through [gClient] (and [uploadFile]). *)
Inductive apiCall : Type :=
| GetSuggestions
| DeleteSuggestion (id : string)
| GetStatus (id : ActivityID)
| GetStatusContext (id : Z)
| GetStatusCard (id : Z)
| GetStatusRebloggedBy (id : Z) (lim : option LimitParams)
| GetStatusFavouritedBy (id : Z) (lim : option LimitParams)
| DeleteStatus (id : Z)
| ReblogStatus (id : Z)
| UnreblogStatus (id : Z)
| FavouriteStatus (id : Z)
| UnfavouriteStatus (id : Z)
| PinStatus (id : Z)
| UnpinStatus (id : Z)
| MuteConversation (id : Z)
| UnmuteConversation (id : Z)
| PostStatus (p : PostStatusParams)
| GetCurrentAccount
| GetTimelines (tl : string) (local onlyMedia : bool) (lim : option LimitParams)
| UploadFile (path : string).

(** The helpers of the rendering side, which can fail. *)
Inductive helper : Type :=
| HcheckOutputFormat
| HgetPrinter
| HprintObj.

Inductive event : Type :=
| Init (signIn : bool)                 (* madonInit(signIn) *)
| Net (c : apiCall)                    (* a request to the server *)
| ReadInput (src : string)             (* a file or the standard input read *)
| Raised (h : helper) (msg : string)   (* a rendering helper returned an error *)
| Stderr (line : string)               (* errPrint *)
| Stdout (text : string).              (* output of the printer *)

Definition trace := list event.

Definition isNet (e : event) : bool :=
  match e with Net _ => true | _ => false end.

Definition isStdout (e : event) : bool :=
  match e with Stdout _ => true | _ => false end.

Definition isStderr (e : event) : bool :=
  match e with Stderr _ => true | _ => false end.

(** ** The process monad *)

(** How a computation ends: with a value, by [os.Exit(code)], or with a
    run-time panic. *)
Inductive result (A : Type) : Type :=
| Val (a : A)
| Exit (code : Z)
| Panic (msg : string).

Arguments Val {A} a.
Arguments Exit {A} code.
Arguments Panic {A} msg.

(** A computation reads the events so far (the answers of the server may
    depend on them) and yields its end and the events it adds. *)
Definition proc (A : Type) : Type := trace -> result A * trace.

Definition ret {A : Type} (a : A) : proc A := fun _ => (Val a, []).

Definition bind {A B : Type} (m : proc A) (f : A -> proc B) : proc B :=
  fun h =>
    match m h with
    | (Val a, t1) =>
        match f a (h ++ t1) with
        | (r, t2) => (r, t1 ++ t2)
        end
    | (Exit c, t1) => (Exit c, t1)
    | (Panic s, t1) => (Panic s, t1)
    end.

Declare Scope proc_scope.
Delimit Scope proc_scope with proc.
Notation "x <- m ;; k" := (bind m (fun x => k))
  (at level 61, m at next level, right associativity) : proc_scope.
Notation "m ;; k" := (bind m (fun _ => k))
  (at level 61, right associativity) : proc_scope.
Open Scope proc_scope.

Definition emit (e : event) : proc unit := fun _ => (Val tt, [e]).
Definition osExit {A : Type} (code : Z) : proc A := fun _ => (Exit code, []).
Definition panic {A : Type} (msg : string) : proc A := fun _ => (Panic msg, []).
Definition ask {A : Type} (f : trace -> A) : proc A := fun h => (Val (f h), []).

(** [errPrint] writes one line to the standard error stream. *)
Definition errPrint (line : string) : proc unit := emit (Stderr line).

(** The exit status the operating system reports. *)
Definition exitStatus {A : Type} (r : result A) : Z :=
  match r with
  | Val _ => 0
  | Exit code => code mod 256
  | Panic _ => 2
  end.

(** ** The environment of a run *)

(** A printer, as far as this package uses it: its [printObj] method,
    which yields the rendered text and an error. *)
Definition Printer : Type := object -> string * error.

(** The API client [gClient], one answer function per result shape, and
    the helpers of the package that live outside these files.  Answers
    may depend on the events so far. *)
Record World : Type := mkWorld {
  apiErr : trace -> apiCall -> error;
  apiStatus : trace -> apiCall -> option Status * error;
  apiContext : trace -> apiCall -> option Context * error;
  apiCard : trace -> apiCall -> option Card * error;
  apiAccounts : trace -> apiCall -> list Account * error;
  apiAccount : trace -> apiCall -> option Account * error;
  apiStatuses : trace -> apiCall -> list Status * error;
  apiUpload : trace -> apiCall -> string * error;
  madonInitResult : trace -> bool -> error;
  checkOutputFormatResult : trace -> error;
  getPrinterResult : trace -> option Printer * error;
  splitIDs : string -> list string * error;
  readFile : string -> string * error;
  readStdin : string * error;
  default_visibility : string;        (* viper.GetString("default_visibility") *)
  usageString : string -> string      (* cobra's usage text of a command *)
}.

(** The option variables the flags are bound to. *)
Module suggestionsOpts.
Record t : Type := mk {
  accountID : string;
  accountIDs : string;
  keep : Z
}.
End suggestionsOpts.

Module timelineOpts.
Record t : Type := mk {
  local : bool;
  onlyMedia : bool;
  limit : Z;
  keep : Z;
  sinceID : string;
  maxID : string
}.
End timelineOpts.

Module statusOpts.
Record t : Type := mk {
  statusID : Z;
  unset : bool;
  visibility : string;
  sensitive : bool;
  spoiler : string;
  inReplyToID : string;
  _hasReplyTo : bool;
  mediaIDs : string;
  mediaFilePath : string;
  textFilePath : string;
  stdin : bool;
  addMentions : bool;
  sameVisibility : bool;
  limit : Z;
  keep : Z;
  all : bool
}.

Definition set_hasReplyTo (b : bool) (o : t) : t :=
  mk (statusID o) (unset o) (visibility o) (sensitive o) (spoiler o)
     (inReplyToID o) b (mediaIDs o) (mediaFilePath o) (textFilePath o)
     (stdin o) (addMentions o) (sameVisibility o) (limit o) (keep o) (all o).
End statusOpts.

(** What the flag parser leaves behind for one invocation: the option
    variables and, for the flags the code asks about, whether they were
    given on the command line ([Changed]). *)
Record Flags : Type := mkFlags {
  fSuggestions : suggestionsOpts.t;
  fTimeline : timelineOpts.t;
  fStatus : statusOpts.t;
  tootVisibilityChanged : bool;        (* tootAliasFlags.Lookup("visibility").Changed *)
  statusPostVisibilityChanged : bool;  (* statusPostFlags.Lookup("visibility").Changed *)
  tootInReplyToChanged : bool          (* cmd.Flags().Lookup("in-reply-to").Changed *)
}.

(** The [uint] flags hold values of their type. *)
Definition isUint (n : Z) : Prop := 0 <= n <= maxUint.

Section Package.

Variable w : World.
Variable fl : Flags.

(** *** Calls that leave the package *)

Definition callErr (c : apiCall) : proc error :=
  fun h => (Val (apiErr w h c), [Net c]).
Definition callStatus (c : apiCall) : proc (option Status * error) :=
  fun h => (Val (apiStatus w h c), [Net c]).
Definition callContext (c : apiCall) : proc (option Context * error) :=
  fun h => (Val (apiContext w h c), [Net c]).
Definition callCard (c : apiCall) : proc (option Card * error) :=
  fun h => (Val (apiCard w h c), [Net c]).
Definition callAccounts (c : apiCall) : proc (list Account * error) :=
  fun h => (Val (apiAccounts w h c), [Net c]).
Definition callAccount (c : apiCall) : proc (option Account * error) :=
  fun h => (Val (apiAccount w h c), [Net c]).
Definition callStatuses (c : apiCall) : proc (list Status * error) :=
  fun h => (Val (apiStatuses w h c), [Net c]).

Definition uploadFile (path : string) : proc (string * error) :=
  fun h => (Val (apiUpload w h (UploadFile path)), [Net (UploadFile path)]).

Definition madonInit (signIn : bool) : proc error :=
  fun h => (Val (madonInitResult w h signIn), [Init signIn]).

Definition raised (h : helper) (e : error) : trace :=
  match e with Some msg => [Raised h msg] | None => [] end.

Definition checkOutputFormat : proc error :=
  fun h => let e := checkOutputFormatResult w h in
           (Val e, raised HcheckOutputFormat e).

Definition getPrinter : proc (option Printer * error) :=
  fun h => let r := getPrinterResult w h in
           (Val r, raised HgetPrinter (snd r)).

(** [p.printObj(obj)]: calling the method of a nil printer panics. *)
Definition printObj (p : option Printer) (obj : object) : proc error :=
  match p with
  | None => panic "invalid memory address or nil pointer dereference"
  | Some pr =>
      fun _ => let r := pr obj in
               (Val (snd r), Stdout (fst r) :: raised HprintObj (snd r))
  end.

Definition ioReadFile (path : string) : proc (string * error) :=
  fun _ => (Val (readFile w path), [ReadInput path]).

Definition ioReadStdin : proc (string * error) :=
  fun _ => (Val (readStdin w), [ReadInput "/dev/stdin"]).

(** The trimming of a result list, with the panic of the slice
    expression. *)
Definition keepOrPanic {A : Type} (keep : Z) (l : list A) : proc (list A) :=
  match keepFirst keep l with
  | Some l' => ret l'
  | None => panic "slice bounds out of range"
  end.

(** *** suggestions.go *)

Definition suggestionsGetRunE (args : list string) : proc error :=
  let opt := fSuggestions fl in
  e <- madonInit true ;;
  match e with
  | Some _ => ret e
  | None =>
      r <- callAccounts GetSuggestions ;;
      accountList <- keepOrPanic (suggestionsOpts.keep opt) (fst r) ;;
      let obj := ObjAccounts accountList in
      match snd r with
      | Some msg => errPrint ("Error: " +++ msg) ;; osExit 1
      | None =>
          pe <- getPrinter ;;
          match snd pe with
          | Some msg => errPrint ("Error: " +++ msg) ;; osExit 1
          | None => printObj (fst pe) obj
          end
      end
  end.

(** [fmt] renders a string under the verb [%d] this way. *)
Definition fmt_d (s : string) : string := "%!d(string=" +++ s +++ ")".

(** [fmt] renders an error under [%s]; a nil one comes out as below. *)
Definition fmt_s (e : error) : string :=
  match e with Some msg => msg | None => "%!s(<nil>)" end.

(** The loop of [suggestionsDeleteRunE]; [err] is the function's variable
    of that name, the one the condition reads:
<<
    for _, id := range ids {
        if e := gClient.DeleteSuggestion(id); err != nil {
            errPrint("Cannot remove account %d: %s", id, e)
            err = e
        }
    }
>> *)
Fixpoint deleteSuggestions (ids : list string) (err : error) : proc error :=
  match ids with
  | [] => ret err
  | id :: rest =>
      e <- callErr (DeleteSuggestion id) ;;
      err' <- (if isErr err
               then errPrint ("Cannot remove account " +++ fmt_d id +++ ": " +++ fmt_s e) ;;
                    ret e
               else ret err) ;;
      deleteSuggestions rest err'
  end.

Definition suggestionsDeleteRunE (args : list string) : proc error :=
  let opt := fSuggestions fl in
  let accountID := suggestionsOpts.accountID opt in
  let accountIDs := suggestionsOpts.accountIDs opt in
  if (accountID =? "")%string && (String.length accountIDs =? 0)%nat
  then ret (Some "missing account IDs")
  else if negb (accountID =? "")%string && (0 <? String.length accountIDs)%nat
  then ret (Some "incompatible options")
  else
    let r := splitIDs w accountIDs in
    let err := snd r in
    if isErr err then ret (Some "cannot parse account IDs")
    else
      let ids := if negb (accountID =? "")%string then [accountID] else fst r in
      if (length ids <? 1)%nat then ret (Some "missing account IDs")
      else
        e <- madonInit true ;;
        match e with
        | Some _ => ret e
        | None =>
            err <- deleteSuggestions ids err ;;
            if isErr err then osExit 1 else ret None
        end.

(** *** timeline *)

Definition timelineLimOpts (opt : timelineOpts.t) : option LimitParams :=
  let limOpts :=
    if (0 <? timelineOpts.limit opt)
       || negb (timelineOpts.sinceID opt =? "")%string
       || negb (timelineOpts.maxID opt =? "")%string
    then Some newLimitParams else None in
  (* the three assignments below only run under their own condition, which
     is one of those that allocated [limOpts] *)
  match limOpts with
  | None => None
  | Some l =>
      let l := if 0 <? timelineOpts.limit opt
               then mkLimitParams (int_of_uint (timelineOpts.limit opt)) (All l) (SinceID l) (MaxID l)
               else l in
      let l := if negb (timelineOpts.maxID opt =? "")%string
               then mkLimitParams (Limit l) (All l) (SinceID l) (timelineOpts.maxID opt)
               else l in
      let l := if negb (timelineOpts.sinceID opt =? "")%string
               then mkLimitParams (Limit l) (All l) (timelineOpts.sinceID opt) (MaxID l)
               else l in
      Some l
  end.

Definition timelineRunE (args : list string) : proc error :=
  let opt := fTimeline fl in
  let limOpts := timelineLimOpts opt in
  let tl := match args with a :: _ => a | [] => "home" end in
  e <- madonInit ((tl =? "home")%string || (tl =? "direct")%string || prefix "!" tl) ;;
  match e with
  | Some _ => ret e
  | None =>
      r <- callStatuses (GetTimelines tl (timelineOpts.local opt) (timelineOpts.onlyMedia opt) limOpts) ;;
      match snd r with
      | Some msg => errPrint ("Error: " +++ msg) ;; osExit 1
      | None =>
          sl <- keepOrPanic (timelineOpts.keep opt) (fst r) ;;
          pe <- getPrinter ;;
          match snd pe with
          | Some msg => errPrint ("Error: " +++ msg) ;; osExit 1
          | None => printObj (fst pe) (ObjStatuses sl)
          end
      end
  end.

(** *** toot.go *)

Definition nilDeref {A : Type} : proc A :=
  panic "invalid memory address or nil pointer dereference".

(** [errors.Wrap(err, msg)]. *)
Definition wrap (msg cause : string) : string := msg +++ ": " +++ cause.

Definition mentionsList (s : option Status) : proc (string * error) :=
  r <- callAccount GetCurrentAccount ;;
  match snd r with
  | Some msg => ret ("", Some (wrap "cannot check account details" msg))
  | None =>
      match s with
      | None => nilDeref
      | Some st =>
          match statusAccount st, fst r with
          | Some sa, Some a =>
              let mentions :=
                (if negb (Acct sa =? Acct a)%string then ["@" +++ Acct sa] else [])
                ++ map (fun m => "@" +++ mentionAcct m)
                     (filter (fun m => negb (mentionAcct m =? Acct a)%string) (Mentions st)) in
              let mentionsStr := String.concat " " mentions in
              if (0 <? String.length mentionsStr)%nat
              then ret (mentionsStr +++ " ", None)
              else ret ("", None)
          | _, _ => nilDeref
          end
      end
  end.

Definition validVisibility (v : string) : bool :=
  ((v =? "") || (v =? "direct") || (v =? "private") || (v =? "unlisted")
   || (v =? "public"))%string.

(** The visibility a reply takes over from the status it answers. *)
Definition inheritedVisibility (v : string) : string :=
  if (v =? "public")%string then "unlisted" else v.

(** The block of [toot] that runs when [opt.inReplyToID != ""]: it yields
    the visibility and the text to post, or the values [toot] returns at
    once. *)
Definition tootReply (opt : statusOpts.t) (visibility tootText : string)
  : proc (string * string + option Status * error) :=
  let preserveVis :=
    statusOpts.sameVisibility opt
    && negb (tootVisibilityChanged fl)
    && negb (statusPostVisibilityChanged fl) in
  fetched <- (if preserveVis || statusOpts.addMentions opt
              then callStatus (GetStatus (StrID (statusOpts.inReplyToID opt)))
              else ret (None, None)) ;;
  match snd fetched with
  | Some msg => ret (inr (None, Some (wrap "cannot get original message" msg)))
  | None =>
      let initialStatus := fst fetched in
      vis <- (if preserveVis
              then match initialStatus with
                   | None => nilDeref
                   | Some st => ret (inheritedVisibility (Visibility st))
                   end
              else ret visibility) ;;
      if statusOpts.addMentions opt
      then
        m <- mentionsList initialStatus ;;
        match snd m with
        | Some e => ret (inr (None, Some e))
        | None => ret (inl (vis, fst m +++ tootText))
        end
      else ret (inl (vis, tootText))
  end.

Definition toot (opt : statusOpts.t) (tootText : string)
  : proc (option Status * error) :=
  let visibility :=
    if (statusOpts.visibility opt =? "")%string
    then (if negb (default_visibility w =? "")%string
          then default_visibility w
          else statusOpts.visibility opt)
    else statusOpts.visibility opt in
  if negb (validVisibility visibility)
  then ret (None, Some ("invalid visibility argument value '" +++ visibility +++ "'"))
  else if statusOpts._hasReplyTo opt && (statusOpts.inReplyToID opt =? "")%string
  then ret (None, Some "invalid in-reply-to argument value")
  else
    let sp := splitIDs w (statusOpts.mediaIDs opt) in
    if isErr (snd sp) then ret (None, Some "cannot parse media IDs")
    else
      let ids := fst sp in
      if (tootText =? "")%string && (length ids =? 0)%nat
         && (statusOpts.spoiler opt =? "")%string
         && (statusOpts.mediaFilePath opt =? "")%string
      then ret (None, Some "toot is empty")
      else
        rp <- (if negb (statusOpts.inReplyToID opt =? "")%string
               then tootReply opt visibility tootText
               else ret (inl (visibility, tootText))) ;;
        match rp with
        | inr early => ret early
        | inl (visibility, tootText) =>
            up <- (if negb (statusOpts.mediaFilePath opt =? "")%string
                   then
                     if (3 <? length ids)%nat
                     then ret (inr (None, Some "too many media attachments"))
                     else
                       f <- uploadFile (statusOpts.mediaFilePath opt) ;;
                       match snd f with
                       | Some msg => ret (inr (None, Some (wrap "cannot attach media file" msg)))
                       | None =>
                           if negb (fst f =? "")%string
                           then ret (inl (ids ++ [fst f]))
                           else ret (inl ids)
                       end
                   else ret (inl ids)) ;;
            match up with
            | inr early => ret early
            | inl ids =>
                callStatus (PostStatus
                  (mkPostStatusParams tootText (statusOpts.inReplyToID opt) ids
                     (statusOpts.sensitive opt) (statusOpts.spoiler opt) visibility))
            end
        end.

(** *** status *)

Definition statusLimOpts (opt : statusOpts.t) : option LimitParams :=
  let limOpts :=
    if statusOpts.all opt || (0 <? statusOpts.limit opt)
    then Some (mkLimitParams 0 (statusOpts.all opt) "" "")
    else None in
  match limOpts with
  | None => None
  | Some l =>
      if 0 <? statusOpts.limit opt
      then Some (mkLimitParams (int_of_uint (statusOpts.limit opt)) (All l) (SinceID l) (MaxID l))
      else Some l
  end.

(** How the [switch] of [statusSubcommandRunE] is left: past its end with
    the variables [obj] and [err], or by the [return] of its default
    case. *)
Inductive switched : Type :=
| Past (obj : option object) (err : error)
| Returned (err : error).

Definition pastStatus (r : option Status * error) : switched :=
  Past (Some (ObjStatus (fst r))) (snd r).

Definition statusPost (opt : statusOpts.t) (args : list string) : proc switched :=
  let text := String.concat " " args in
  rd <- (if negb (statusOpts.textFilePath opt =? "")%string
         then ioReadFile (statusOpts.textFilePath opt)
         else if statusOpts.stdin opt
         then ioReadStdin
         else ret (text, None)) ;;
  match snd rd with
  | Some msg => ret (Past None (Some msg))          (* break *)
  | None =>
      r <- toot opt (fst rd) ;;
      ret (pastStatus r)
  end.

Definition statusSwitch (opt : statusOpts.t) (subcmd : string) (args : list string)
  : proc switched :=
  let id := statusOpts.statusID opt in
  let limOpts := statusLimOpts opt in
  let named (name : string) := (subcmd =? name)%string in
  if named "show" then
    r <- callStatus (GetStatus (IntID id)) ;; ret (pastStatus r)
  else if named "context" then
    r <- callContext (GetStatusContext id) ;;
    ret (Past (Some (ObjContext (fst r))) (snd r))
  else if named "card" then
    r <- callCard (GetStatusCard id) ;;
    ret (Past (Some (ObjCard (fst r))) (snd r))
  else if named "reblogged-by" then
    r <- callAccounts (GetStatusRebloggedBy id limOpts) ;;
    accountList <- keepOrPanic (statusOpts.keep opt) (fst r) ;;
    ret (Past (Some (ObjAccounts accountList)) (snd r))
  else if named "favourited-by" then
    r <- callAccounts (GetStatusFavouritedBy id limOpts) ;;
    accountList <- keepOrPanic (statusOpts.keep opt) (fst r) ;;
    ret (Past (Some (ObjAccounts accountList)) (snd r))
  else if named "delete" then
    e <- callErr (DeleteStatus id) ;; ret (Past None e)
  else if named "boost" || named "unboost" then
    e <- (if statusOpts.unset opt || named "unboost"
          then callErr (UnreblogStatus id)
          else callErr (ReblogStatus id)) ;;
    ret (Past None e)
  else if named "favourite" || named "unfavourite" then
    e <- (if statusOpts.unset opt || named "unfavourite"
          then callErr (UnfavouriteStatus id)
          else callErr (FavouriteStatus id)) ;;
    ret (Past None e)
  else if named "pin" || named "unpin" then
    e <- (if statusOpts.unset opt || named "unpin"
          then callErr (UnpinStatus id)
          else callErr (PinStatus id)) ;;
    ret (Past None e)
  else if named "mute-conversation" then
    r <- callStatus (MuteConversation id) ;; ret (pastStatus r)
  else if named "unmute-conversation" then
    r <- callStatus (UnmuteConversation id) ;; ret (pastStatus r)
  else if named "post" then
    statusPost opt args
  else
    ret (Returned (Some "statusSubcommand: internal error")).

Definition statusSubcommandRunE (opt : statusOpts.t) (subcmd : string)
  (args : list string) : proc error :=
  sw <- statusSwitch opt subcmd args ;;
  match sw with
  | Returned e => ret e
  | Past obj err =>
      match err with
      | Some msg => errPrint ("Error: " +++ msg) ;; osExit 1
      | None =>
          match obj with
          | None => ret None
          | Some o =>
              pe <- getPrinter ;;
              match snd pe with
              | Some msg => errPrint ("Error: " +++ msg) ;; osExit 1
              | None => printObj (fst pe) o
              end
          end
      end
  end.

(** The [RunE] of the [toot] command; it stores the [Changed] state of
    [--in-reply-to] in [statusOpts] before it posts. *)
Definition tootAliasRunE (args : list string) : proc error :=
  e <- madonInit true ;;
  match e with
  | Some _ => ret e
  | None =>
      statusSubcommandRunE
        (statusOpts.set_hasReplyTo (tootInReplyToChanged fl) (fStatus fl))
        "post" args
  end.

(** The [PersistentPreRunE] of the [status] command; [name] is
    [cmd.Name()] of the command that runs. *)
Definition statusPersistentPreRunE (name : string) (args : list string)
  : proc error :=
  if (statusOpts.statusID (fStatus fl) <? 1) && negb (name =? "post")%string
  then ret (Some "missing status ID")
  else madonInit true.

End Package.

(** ** The command tree and cobra's execution of a command *)

Inductive command : Type :=
| RootCmd
| suggestionsCmd
| suggestionsGetSubcommand
| suggestionsDeleteSubcommand
| tootAliasCmd
| timelineCmd
| statusCmd
| statusShow
| statusContext
| statusCard
| statusRebloggedBy
| statusFavouritedBy
| statusDelete
| statusMuteConversation
| statusUnmuteConversation
| statusReblogSubcommand
| statusUnreblogSubcommand
| statusFavouriteSubcommand
| statusUnfavouriteSubcommand
| statusPinSubcommand
| statusUnpinSubcommand
| statusPostSubcommand.

Definition AppName : string := "madonctl".

Definition Use (c : command) : string :=
  match c with
  | RootCmd => AppName
  | suggestionsCmd => "suggestions"
  | suggestionsGetSubcommand => "list"
  | suggestionsDeleteSubcommand => "delete"
  | tootAliasCmd => "toot"
  | timelineCmd => "timeline [home|public|direct|:HASHTAG|!list_id] [--local]"
  | statusCmd => "status --status-id ID subcommand"
  | statusShow => "show"
  | statusContext => "context"
  | statusCard => "card"
  | statusRebloggedBy => "reblogged-by"
  | statusFavouritedBy => "favourited-by"
  | statusDelete => "delete"
  | statusMuteConversation => "mute-conversation"
  | statusUnmuteConversation => "unmute-conversation"
  | statusReblogSubcommand => "boost"
  | statusUnreblogSubcommand => "unboost"
  | statusFavouriteSubcommand => "favourite"
  | statusUnfavouriteSubcommand => "unfavourite"
  | statusPinSubcommand => "pin"
  | statusUnpinSubcommand => "unpin"
  | statusPostSubcommand => "post"
  end.

(** cobra's [Name()]: [Use] up to its first space. *)
Fixpoint upToSpace (s : string) : string :=
  match s with
  | EmptyString => EmptyString
  | String c rest => if (c =? " ")%char then EmptyString else String c (upToSpace rest)
  end.

Definition Name (c : command) : string := upToSpace (Use c).

(** The parent each [AddCommand] call of the [init] functions sets. *)
Definition Parent (c : command) : option command :=
  match c with
  | RootCmd => None
  | suggestionsCmd | tootAliasCmd | timelineCmd | statusCmd => Some RootCmd
  | suggestionsGetSubcommand | suggestionsDeleteSubcommand => Some suggestionsCmd
  | _ => Some statusCmd
  end.

Section Cobra.

Variable w : World.
Variable fl : Flags.

(** [initConfig], which cobra runs (through [OnInitialize]) before the
    hooks of a runnable command. *)
Record Config : Type := mkConfig {
  cfgFile : string;
  readInConfig : error;
  verbose : bool;             (* viper.GetBool("verbose") *)
  configFileUsed : string
}.

Variable cfg : Config.

Definition initConfig : proc unit :=
  if (cfgFile cfg =? "/dev/null")%string then ret tt
  else
    match readInConfig cfg with
    | Some msg =>
        if negb (cfgFile cfg =? "")%string
        then errPrint ("Error: cannot read configuration file '" +++ cfgFile cfg
                       +++ "': " +++ msg) ;;
             osExit (-1)
        else ret tt
    | None =>
        if verbose cfg
        then errPrint ("Using config file: " +++ configFileUsed cfg)
        else ret tt
    end.

(** A hook or run function gets the command that runs and its arguments. *)
Definition runFn : Type := command -> list string -> proc error.

Definition PersistentPreRunE (c : command) : option runFn :=
  match c with
  | RootCmd => Some (fun _ _ => checkOutputFormat w)
  | statusCmd => Some (fun cmd args => statusPersistentPreRunE w fl (Name cmd) args)
  | _ => None
  end.

Definition RunE (c : command) : option runFn :=
  match c with
  | RootCmd | statusCmd => None
  | suggestionsCmd | suggestionsGetSubcommand =>
      Some (fun _ args => suggestionsGetRunE w fl args)
  | suggestionsDeleteSubcommand =>
      Some (fun _ args => suggestionsDeleteRunE w fl args)
  | tootAliasCmd => Some (fun _ args => tootAliasRunE w fl args)
  | timelineCmd => Some (fun _ args => timelineRunE w fl args)
  | _ => Some (fun cmd args => statusSubcommandRunE w fl (fStatus fl) (Name cmd) args)
  end.

(** cobra looks for a persistent hook from the command upwards and runs
    the first one it finds, and only that one:
<<
    for p := c; p != nil; p = p.Parent() {
        if p.PersistentPreRunE != nil {
            if err := p.PersistentPreRunE(c, argWoFlags); err != nil {
                return err
            }
            break
        }
    }
>>
    [depth] bounds the walk; the tree is three levels deep. *)
Fixpoint persistentHook (depth : nat) (p : command) : option runFn :=
  match PersistentPreRunE p with
  | Some h => Some h
  | None =>
      match depth, Parent p with
      | S d, Some q => persistentHook d q
      | _, _ => None
      end
  end.

Definition treeDepth : nat := 3.

(** What cobra's [execute] returns: [flag.ErrHelp], or the error (or nil)
    of the hook and the run function. *)
Inductive executed : Type :=
| ErrHelp
| Ran (err : error).

(** [execute], from the point where the flags are parsed: a command
    without a run function asks for its help; otherwise the initializers
    run, then the persistent hook, then [RunE]. *)
Definition execute (c : command) (args : list string) : proc executed :=
  match RunE c with
  | None => ret ErrHelp
  | Some run =>
      initConfig ;;
      e <- match persistentHook treeDepth c with
           | Some hook => hook c args
           | None => ret None
           end ;;
      match e with
      | Some _ => ret (Ran e)
      | None => e <- run c args ;; ret (Ran e)
      end
  end.

(** [RootCmd.Execute()] for the command [c] the arguments select, with
    cobra's own report of a returned error (neither [SilenceErrors] nor
    [SilenceUsage] is set). *)
Definition cobraExecute (c : command) (args : list string) : proc error :=
  r <- execute c args ;;
  match r with
  | ErrHelp => emit (Stdout (usageString w (Name c))) ;; ret None
  | Ran (Some msg) =>
      emit (Stderr ("Error: " +++ msg)) ;;
      emit (Stderr (usageString w (Name c))) ;;
      ret (Some msg)
  | Ran None => ret None
  end.

(** [Execute] of root.go. *)
Definition Execute (c : command) (args : list string) : proc unit :=
  e <- cobraExecute c args ;;
  match e with
  | Some msg => errPrint ("Error: " +++ msg) ;; osExit (-1)
  | None => ret tt
  end.

(** One run of the program, from an empty history. *)
Definition runProcess (c : command) (args : list string) : result unit * trace :=
  Execute c args [].

End Cobra.

(** The status subcommands whose request has no result object: their
    case of the [switch] leaves [obj] nil. *)
Definition withoutResult (c : command) : bool :=
  match c with
  | statusDelete
  | statusReblogSubcommand | statusUnreblogSubcommand
  | statusFavouriteSubcommand | statusUnfavouriteSubcommand
  | statusPinSubcommand | statusUnpinSubcommand => true
  | _ => false
  end.

(** ** Rendering errors in a trace *)

(** A computation none of whose events is an error of a rendering
    helper. *)
Definition quiet {A : Type} (m : proc A) : Prop :=
  forall h hlp msg, ~ In (Raised hlp msg) (snd (m h)).

(** A computation that handles every error a rendering helper raises in
    it: it returns that error, or it has written it to the standard error
    stream and stops the process with status 1. *)
Definition reports (m : proc error) : Prop :=
  forall h r t, m h = (r, t) ->
  forall hlp msg, In (Raised hlp msg) t ->
    r = Val (Some msg) \/ (r = Exit 1 /\ In (Stderr ("Error: " +++ msg)) t).

(** The requests [suggestions delete] sends for a list of identifiers. *)
Definition deleteRequests (ids : list string) : trace :=
  map (fun id => Net (DeleteSuggestion id)) ids.


(** ** root.go: flags and shell completion *)

Definition AppWebsite : string := "https://github.com/McKael/madonctl".

Definition defaultConfigFile : string :=
  "$HOME/.config/" +++ AppName +++ "/" +++ AppName +++ ".yaml".

(** The double quote character. *)
Definition dq : string := String (ascii_of_nat 34) EmptyString.
Definition newline : ascii := ascii_of_nat 10.
Definition tab : ascii := ascii_of_nat 9.

(** The bash functions handed to cobra as [BashCompletionFunction], as
    written in the source. *)
Definition shellComplFunc : string :=
  "
__madonctl_visibility() {
	COMPREPLY=( direct private unlisted public )
}
__madonctl_output() {
	COMPREPLY=( plain json yaml template theme )
}
__madonctl_color() {
	COMPREPLY=( auto on off )
}
__madonctl_theme() {
	local madonctl_output out
	# This doesn't handle spaces or special chars...
	if out=$(madonctl config themes 2>/dev/null); then
		COMPREPLY=( $( compgen -W " +++ dq +++
  "${out[*]}" +++ dq +++
  " -- " +++ dq +++
  "$cur" +++ dq +++
  " ) )
	fi
}
".

(** pflag's flags, as far as [init] sets them up. *)
Module pflag.
Record Flag : Type := mkFlag {
  Name : string;
  Shorthand : string;
  Type_ : string;                                (* Value.Type() *)
  DefValue : string;
  Usage : string;
  Annotations : list (string * list string)     (* map[string][]string *)
}.

Definition FlagSet : Type := list Flag.

Definition StringVarP (name shorthand value usage : string) (fs : FlagSet) : FlagSet :=
  fs ++ [mkFlag name shorthand "string" value usage []].

Definition StringVar (name value usage : string) (fs : FlagSet) : FlagSet :=
  StringVarP name "" value usage fs.

Definition BoolVarP (name shorthand : string) (value : bool) (usage : string)
  (fs : FlagSet) : FlagSet :=
  fs ++ [mkFlag name shorthand "bool" (if value then "true" else "false") usage []].

Fixpoint Lookup (name : string) (fs : FlagSet) : option Flag :=
  match fs with
  | [] => None
  | f :: rest => if (Name f =? name)%string then Some f else Lookup name rest
  end.

(** [fs.Lookup(name).Annotations = ann] *)
Fixpoint setAnnotations (name : string) (ann : list (string * list string))
  (fs : FlagSet) : FlagSet :=
  match fs with
  | [] => []
  | f :: rest =>
      if (Name f =? name)%string
      then mkFlag (Name f) (Shorthand f) (Type_ f) (DefValue f) (Usage f) ann :: rest
      else f :: setAnnotations name ann rest
  end.
End pflag.

(** cobra's annotation key for a custom bash completion function. *)
Definition BashCompCustom : string := "cobra_annotation_bash_completion_custom".

(** [RootCmd.PersistentFlags()] after [init] of root.go: the global flags
    in the order they are declared, then the three completion
    annotations. *)
Definition rootPersistentFlags : pflag.FlagSet :=
  let fs := [] in
  let fs := pflag.StringVar "config" ""
              ("config file (default is " +++ defaultConfigFile +++ ")") fs in
  let fs := pflag.BoolVarP "verbose" "v" false "Verbose mode" fs in
  let fs := pflag.StringVarP "instance" "i" "" "Mastodon instance" fs in
  let fs := pflag.StringVarP "login" "L" "" "Instance user login" fs in
  let fs := pflag.StringVarP "password" "P" "" "Instance user password" fs in
  let fs := pflag.StringVarP "token" "t" "" "User token" fs in
  let fs := pflag.StringVarP "output" "o" ""
              "Output format (plain|json|yaml|template|theme)" fs in
  let fs := pflag.StringVar "template" "" "Go template (for output=template)" fs in
  let fs := pflag.StringVar "template-file" ""
              "Go template file (for output=template)" fs in
  let fs := pflag.StringVar "theme" "" "Theme name (for output=theme)" fs in
  let fs := pflag.StringVar "color" ""
              "Color mode (auto|on|off; for output=template)" fs in
  let annotationOutput := [(BashCompCustom, ["__madonctl_output"])] in
  let annotationColor := [(BashCompCustom, ["__madonctl_color"])] in
  let annotationTheme := [(BashCompCustom, ["__madonctl_theme"])] in
  let fs := pflag.setAnnotations "output" annotationOutput fs in
  let fs := pflag.setAnnotations "color" annotationColor fs in
  let fs := pflag.setAnnotations "theme" annotationTheme fs in
  fs.

(** The flags bound to the configuration file ([viper.BindPFlag]). *)
Definition viperBindings : list string :=
  ["verbose"; "instance"; "login"; "password"; "token"; "color"].

Definition flagUsage (name : string) : option string :=
  option_map pflag.Usage (pflag.Lookup name rootPersistentFlags).

(** The bash function cobra calls to complete the value of a flag. *)
Definition customCompletion (name : string) : option (list string) :=
  match pflag.Lookup name rootPersistentFlags with
  | None => None
  | Some f =>
      match pflag.Annotations f with
      | (key, fns) :: _ => if (key =? BashCompCustom)%string then Some fns else None
      | [] => None
      end
  end.

(** *** Reading the completion script *)

(** The lines of a text. *)
Fixpoint lines (s : string) : list string :=
  match s with
  | EmptyString => [EmptyString]
  | String c rest =>
      if (c =? newline)%char then EmptyString :: lines rest
      else match lines rest with
           | l :: ls => String c l :: ls
           | [] => [String c EmptyString]
           end
  end.

(** The body of the bash function [name]: the lines between [name() {]
    and the closing brace. *)
Fixpoint untilBrace (ls : list string) : list string :=
  match ls with
  | [] => []
  | l :: rest => if (l =? "}")%string then [] else l :: untilBrace rest
  end.

Fixpoint functionBody (name : string) (ls : list string) : option (list string) :=
  match ls with
  | [] => None
  | l :: rest =>
      if (l =? name +++ "() {")%string then Some (untilBrace rest)
      else functionBody name rest
  end.

(** Splitting at blanks, as the shell does with the default [IFS]. *)
Definition isBlank (c : ascii) : bool :=
  ((c =? " ") || (c =? tab) || (c =? newline))%char.

Fixpoint fields (s : string) : list string :=
  match s with
  | EmptyString => [EmptyString]
  | String c rest =>
      if isBlank c then EmptyString :: fields rest
      else match fields rest with
           | f :: fs => String c f :: fs
           | [] => [String c EmptyString]
           end
  end.

Definition words (s : string) : list string :=
  filter (fun f => negb (f =? "")%string) (fields s).

(** [s] without the prefix [p], if it starts with it. *)
Fixpoint stripPrefix (p s : string) : option string :=
  match p, s with
  | EmptyString, _ => Some s
  | String a p', String b s' => if (a =? b)%char then stripPrefix p' s' else None
  | String _ _, EmptyString => None
  end.

(** The text before the first occurrence of [stop], if there is one. *)
Fixpoint before (stop s : string) : option string :=
  match stripPrefix stop s with
  | Some _ => Some EmptyString
  | None =>
      match s with
      | EmptyString => None
      | String c rest => option_map (String c) (before stop rest)
      end
  end.

(** A line of the form [COMPREPLY=( w1 ... wn )] sets these words. *)
Definition staticReply (line : string) : option (list string) :=
  match words line with
  | "COMPREPLY=(" :: ws =>
      match rev ws with
      | ")" :: rws => Some (rev rws)
      | _ => None
      end
  | _ => None
  end.

(** A line of the form [if out=$(CMD 2>/dev/null); then] runs [CMD] and
    keeps its output. *)
Definition outCommand (line : string) : option (list string) :=
  match stripPrefix "if out=$(" (String.concat " " (words line)) with
  | Some rest => option_map words (before " 2>/dev/null); then" rest)
  | None => None
  end.

Fixpoint firstSome {A B : Type} (f : A -> option B) (l : list A) : option B :=
  match l with
  | [] => None
  | a :: rest => match f a with Some b => Some b | None => firstSome f rest end
  end.

(** The candidates of a function that sets a fixed word list. *)
Definition staticCandidates (fn : string) : option (list string) :=
  match functionBody fn (lines shellComplFunc) with
  | Some body => firstSome staticReply body
  | None => None
  end.

(** The command [__madonctl_theme] runs to get its word list. *)
Definition themeCommand : option (list string) :=
  match functionBody "__madonctl_theme" (lines shellComplFunc) with
  | Some body => firstSome outCommand body
  | None => None
  end.

(** A text with one name on each line. *)
Fixpoint unlines (names : list string) : string :=
  match names with
  | [] => EmptyString
  | n :: rest => n +++ String newline (unlines rest)
  end.

(** The characters bash leaves alone wherever they stand in a word:
    letters, digits, [_], [-] and [.].  A word made of them is not
    changed by parameter, command or arithmetic expansion, by quote
    removal, by brace or tilde expansion or by pathname expansion, and
    is not split. *)
Definition plainChar (c : ascii) : bool :=
  let n := nat_of_ascii c in
  ((48 <=? n) && (n <=? 57) || (65 <=? n) && (n <=? 90)
   || (97 <=? n) && (n <=? 122))%nat
  || (c =? "_")%char || (c =? "-")%char || (c =? ".")%char.

Fixpoint plainChars (s : string) : bool :=
  match s with
  | EmptyString => true
  | String c rest => plainChar c && plainChars rest
  end.

Definition plainWord (s : string) : bool := negb (s =? "")%string && plainChars s.

(** [COMPREPLY=( $( compgen -W wordlist -- cur ) )]: bash splits the
    word list at blanks, expands each word, keeps the words that start
    with [cur], and then splits and expands what [compgen] printed once
    more.  Where all the words and [cur] are plain, both expansions leave
    them as they are and the reply is the words that start with [cur];
    a word list with any other word is outside this description
    ([None]), as the comment in the script says. *)
Definition compgenW (wordlist cur : string) : option (list string) :=
  if forallb plainWord (words wordlist) && plainChars cur
  then Some (filter (prefix cur) (words wordlist))
  else None.

(** [__madonctl_theme]: when the command succeeds ([runCmd] gives its
    output), [COMPREPLY] is set from the words of that output; when it
    fails, [COMPREPLY] is left alone (empty). *)
Definition madonctl_theme (runCmd : list string -> option string) (cur : string)
  : option (list string) :=
  match themeCommand with
  | Some cmd =>
      match runCmd cmd with
      | Some out => compgenW out cur
      | None => Some []
      end
  | None => Some []
  end.

(** * The rendering subsystem

    The printer behind [getPrinter] and [printObj] is in a package of its
    own, outside the files above.  This part follows its description. *)

Module Render.

(** Modelled from the spec: a number of the data model of section 3
    (printer package, missing from the sources): any number with a finite
    decimal expansion.  It is an integer, or it has a sign, a whole part
    and digits after the point, the last of them not 0; [fraction] holds
    those digits as the positive number whose numeral, read from its last
    digit to its first, they are (25 for ".52", 50 for ".05"), so that
    every number has one representation. *)
Inductive number : Type :=
| NInt (z : Z)
| NFrac (negative : bool) (whole : N) (fraction : positive).

(** Modelled from the spec: the printer package (the data model of
    section 3) is missing from the sources.  A field value is a string, a
    number, a boolean, a nested record or a list of values; the fields of
    a record keep the order in which they are declared. *)
Inductive value : Type :=
| VString (s : string)
| VNumber (n : number)
| VBool (b : bool)
| VRecord (m : members)
| VList (l : values)
with members : Type :=
| MNil
| MCons (key : string) (v : value) (rest : members)
with values : Type :=
| VNil
| VCons (v : value) (rest : values).

Fixpoint fieldList (m : members) : list (string * value) :=
  match m with
  | MNil => []
  | MCons k v rest => (k, v) :: fieldList rest
  end.

(** Modelled from the spec: a record (printer package, missing from the
    sources) is its fields plus the kind tag the calling subcommand
    gives it. *)
Record record : Type := mkRecord {
  kind : string;
  fields : members
}.

(** Modelled from the spec: [ResultValue] (printer package, missing from
    the sources). *)
Inductive ResultValue : Type :=
| Empty
| Single (r : record)
| List (rs : list record).

(** Modelled from the spec: [RenderRequest] (printer package, missing
    from the sources); an option that is not set is [None]. *)
Record RenderRequest : Type := mkRenderRequest {
  format : string;
  templateBody : option string;
  templateFilePath : option string;
  themeName : option string;
  colorMode : string
}.

(** Modelled from the spec: the error taxonomy of section 7 (printer
    package, missing from the sources). *)
Inductive renderError : Type :=
| InvalidFormat (given : string)
| MissingTemplate
| AmbiguousTemplate
| UnknownTheme (name : string) (known : list string)
| NoTemplateForKind (k : string)
| TemplateParseError (source : string) (position : nat)
| TemplateEvalError (what : string)
| EncodeError.

Definition rendered : Type := (string + renderError)%type.

(** Modelled from the spec: [Theme] (printer package, missing from the
    sources). *)
Record Theme : Type := mkTheme {
  themeNameOf : string;
  templatesByKind : list (string * string);
  defaultTemplate : option string
}.

Fixpoint lookupKind (k : string) (l : list (string * string)) : option string :=
  match l with
  | [] => None
  | (k', body) :: rest => if (k' =? k)%string then Some body else lookupKind k rest
  end.

(** Modelled from the spec: [TemplateFor] of the theme registry (printer
    package, missing from the sources): the template of the kind, else
    the default template, else [NoTemplateForKind]. *)
Definition TemplateFor (th : Theme) (k : string) : string + renderError :=
  match lookupKind k (templatesByKind th) with
  | Some body => inl body
  | None =>
      match defaultTemplate th with
      | Some body => inl body
      | None => inr (NoTemplateForKind k)
      end
  end.

(** Modelled from the spec: [ListNames] of the theme registry (section
    4.5; printer package, missing from the sources).  The registry is
    the list of the themes that were loaded; the enumeration gives every
    name once, also when a user theme and a built-in theme share it, and
    in ascending order. *)
Fixpoint insertName (n : string) (l : list string) : list string :=
  match l with
  | [] => [n]
  | m :: rest =>
      match String_as_OT.compare n m with
      | Lt => n :: l
      | Eq => l
      | Gt => m :: insertName n rest
      end
  end.

Definition ListNames (registry : list Theme) : list string :=
  fold_right insertName [] (map themeNameOf registry).

(** Modelled from the spec: the [config themes] companion command
    (section 6; cmd/config.go, missing from the sources): it writes the
    names [ListNames] gives to its standard output, one on a line, and
    succeeds. *)
Definition configThemes (registry : list Theme) : string :=
  unlines (ListNames registry).

(** The shell of a user who has madonctl installed: the command line
    [madonctl config themes] runs that companion command; [other] stands
    for every other command. *)
Definition isConfigThemes (cmd : list string) : bool :=
  match cmd with
  | [a; b; c] => ((a =? AppName) && (b =? "config") && (c =? "themes"))%string
  | _ => false
  end.

Definition shellWith (registry : list Theme)
  (other : list string -> option string) (cmd : list string) : option string :=
  if isConfigThemes cmd then Some (configThemes registry) else other cmd.

Definition nl : string := String newline EmptyString.

(** All renderings, or the first error. *)
Fixpoint renderEach (one : record -> rendered) (rs : list record)
  : list string + renderError :=
  match rs with
  | [] => inl []
  | r :: rest =>
      match one r with
      | inr e => inr e
      | inl text =>
          match renderEach one rest with
          | inr e => inr e
          | inl texts => inl (text :: texts)
          end
      end
  end.

(** ** The serializers *)

(** Modelled from the spec: the json and yaml serializers and their
    decoders (printer package, missing from the sources).  Section 4.3
    asks for a canonical, pretty-printed encoding that keeps the fields
    in the order of their declaration and can be decoded again; the
    concrete syntax below is JSON with two spaces per level, and
    block-style YAML with double-quoted keys and strings. *)

Definition dquote : ascii := ascii_of_nat 34.
Definition backslash : ascii := ascii_of_nat 92.

Definition hexDigits : string := "0123456789abcdef".

Definition hexDigit (n : nat) : ascii :=
  match String.get n hexDigits with
  | Some c => c
  | None => "0"%char
  end.

Fixpoint indexOf (c : ascii) (s : string) : option nat :=
  match s with
  | EmptyString => None
  | String x rest => if (c =? x)%char then Some 0%nat else option_map S (indexOf c rest)
  end.

Definition unhex (c : ascii) : option nat := indexOf c hexDigits.

(** One character of a quoted string: the quote and the backslash get a
    backslash, a control character is written as a [u] escape. *)
Definition quoteChar (c : ascii) (rest : string) : string :=
  if ((c =? dquote) || (c =? backslash))%char
  then String backslash (String c rest)
  else if (nat_of_ascii c <? 32)%nat
  then String backslash
         (String "u" (String "0" (String "0"
            (String (hexDigit (nat_of_ascii c / 16))
               (String (hexDigit (nat_of_ascii c mod 16)) rest)))))
  else String c rest.

Fixpoint quoteChars (s rest : string) : string :=
  match s with
  | EmptyString => String dquote rest
  | String c s' => quoteChar c (quoteChars s' rest)
  end.

(** [quote s rest]: [s] between double quotes, followed by [rest]. *)
Definition quote (s rest : string) : string := String dquote (quoteChars s rest).

Definition consTo (c : ascii) (o : option (string * string)) : option (string * string) :=
  match o with
  | Some (x, rest) => Some (String c x, rest)
  | None => None
  end.

(** Reads a quoted string from behind its opening quote: the string and
    what follows the closing quote. *)
Fixpoint unquoteChars (s : string) : option (string * string) :=
  match s with
  | EmptyString => None
  | String c r =>
      if (c =? dquote)%char then Some (EmptyString, r)
      else if (c =? backslash)%char then
        match r with
        | String e r1 =>
            if ((e =? dquote) || (e =? backslash))%char
            then consTo e (unquoteChars r1)
            else if (e =? "u")%char then
              match r1 with
              | String a (String b (String x (String y r2))) =>
                  match unhex a, unhex b, unhex x, unhex y with
                  | Some O, Some O, Some hi, Some lo =>
                      consTo (ascii_of_nat (16 * hi + lo)) (unquoteChars r2)
                  | _, _, _, _ => None
                  end
              | _ => None
              end
            else None
        | EmptyString => None
        end
      else consTo c (unquoteChars r)
  end.

(** Numbers in decimal.  An integer is written as its numeral; any other
    number as an optional minus sign, the whole part, a point and the
    digits after the point. *)
Definition printNumber (n : number) (rest : string) : string :=
  match n with
  | NInt z => NilZero.string_of_int (Z.to_int z) +++ rest
  | NFrac negative whole fraction =>
      (if negative then "-" else "")
      +++ NilZero.string_of_uint (N.to_uint whole)
      +++ "."
      +++ NilEmpty.string_of_uint (Pos.to_little_uint fraction)
      +++ rest
  end.

Definition isNumChar (c : ascii) : bool :=
  (c =? "-")%char || (c =? ".")%char
  || ((48 <=? nat_of_ascii c)%nat && (nat_of_ascii c <=? 57)%nat).

Fixpoint spanNum (s : string) : string * string :=
  match s with
  | EmptyString => (EmptyString, EmptyString)
  | String c r =>
      if isNumChar c
      then (String c (fst (spanNum r)), snd (spanNum r))
      else (EmptyString, s)
  end.

(** A numeral at its point: what is in front of it and, when there is a
    point, what is behind it. *)
Fixpoint splitPoint (s : string) : string * option string :=
  match s with
  | EmptyString => (EmptyString, None)
  | String c r =>
      if (c =? ".")%char then (EmptyString, Some r)
      else (String c (fst (splitPoint r)), snd (splitPoint r))
  end.

Definition signed (negative : bool) (n : N) : Z :=
  if negative then Z.opp (Z.of_N n) else Z.of_N n.

(** The number a numeral stands for.  Zeros at the end of the digits
    after the point do not count, and a numeral with nothing else after
    its point stands for an integer. *)
Definition numberOf (literal : string) : option number :=
  match splitPoint literal with
  | (a, None) =>
      match NilZero.int_of_string a with
      | Some d => Some (NInt (Z.of_int d))
      | None => None
      end
  | (a, Some b) =>
      let negative := match a with
                      | String c _ => (c =? "-")%char
                      | EmptyString => false
                      end in
      let digits := match a with
                    | String c a' => if (c =? "-")%char then a' else a
                    | EmptyString => a
                    end in
      match NilZero.uint_of_string digits, NilEmpty.uint_of_string b with
      | Some w, Some f =>
          match Pos.of_uint (Decimal.rev f) with
          | Npos fraction => Some (NFrac negative (N.of_uint w) fraction)
          | N0 => Some (NInt (signed negative (N.of_uint w)))
          end
      | _, _ => None
      end
  end.

Definition parseNumber (s : string) : option (number * string) :=
  match numberOf (fst (spanNum s)) with
  | Some n => Some (n, snd (spanNum s))
  | None => None
  end.

(** A text that does not go on with a number. *)
Definition numberEnds (s : string) : bool :=
  match s with
  | EmptyString => true
  | String c _ => negb (isNumChar c)
  end.

Fixpoint spaces (n : nat) (rest : string) : string :=
  match n with
  | O => rest
  | S n' => String " " (spaces n' rest)
  end.

Definition isWs (c : ascii) : bool :=
  ((c =? " ") || (c =? tab) || (c =? newline) || (c =? ascii_of_nat 13))%char.

Fixpoint skipWs (s : string) : string :=
  match s with
  | EmptyString => EmptyString
  | String c r => if isWs c then skipWs r else s
  end.

(** The words [true] and [false]. *)
Definition printBool (b : bool) (rest : string) : string :=
  if b then "true" +++ rest else "false" +++ rest.

Definition parseBool (s : string) : option (bool * string) :=
  match stripPrefix "true" s with
  | Some rest => Some (true, rest)
  | None =>
      match stripPrefix "false" s with
      | Some rest => Some (false, rest)
      | None => None
      end
  end.

(** *** JSON *)

Fixpoint jsonValue (ind : nat) (v : value) (rest : string) : string :=
  match v with
  | VString s => quote s rest
  | VNumber n => printNumber n rest
  | VBool b => printBool b rest
  | VRecord MNil => "{}" +++ rest
  | VRecord m =>
      "{" +++ nl +++ spaces (2 * S ind)
        (jsonMembers (S ind) m (nl +++ spaces (2 * ind) ("}" +++ rest)))
  | VList VNil => "[]" +++ rest
  | VList l =>
      "[" +++ nl +++ spaces (2 * S ind)
        (jsonValues (S ind) l (nl +++ spaces (2 * ind) ("]" +++ rest)))
  end
with jsonMembers (ind : nat) (m : members) (rest : string) : string :=
  match m with
  | MNil => rest
  | MCons k v more =>
      quote k (": " +++
        jsonValue ind v
          match more with
          | MNil => rest
          | MCons _ _ _ => "," +++ nl +++ spaces (2 * ind) (jsonMembers ind more rest)
          end)
  end
with jsonValues (ind : nat) (l : values) (rest : string) : string :=
  match l with
  | VNil => rest
  | VCons v more =>
      jsonValue ind v
        match more with
        | VNil => rest
        | VCons _ _ => "," +++ nl +++ spaces (2 * ind) (jsonValues ind more rest)
        end
  end.

(** The parsers read one value, the members of an object up to its
    closing brace, and the elements of an array up to its closing
    bracket; [fuel] bounds the nesting and the number of fields. *)
Fixpoint parseJsonValue (fuel : nat) (s : string) : option (value * string) :=
  match fuel with
  | O => None
  | S fuel' =>
      match skipWs s with
      | EmptyString => None
      | String c r =>
          if (c =? dquote)%char then
            match unquoteChars r with
            | Some (x, rest) => Some (VString x, rest)
            | None => None
            end
          else if (c =? "{")%char then
            match skipWs r with
            | String d r' =>
                if (d =? "}")%char then Some (VRecord MNil, r')
                else
                  match parseJsonMembers fuel' (String d r') with
                  | Some (m, rest) => Some (VRecord m, rest)
                  | None => None
                  end
            | EmptyString => None
            end
          else if (c =? "[")%char then
            match skipWs r with
            | String d r' =>
                if (d =? "]")%char then Some (VList VNil, r')
                else
                  match parseJsonValues fuel' (String d r') with
                  | Some (l, rest) => Some (VList l, rest)
                  | None => None
                  end
            | EmptyString => None
            end
          else if isNumChar c then
            match parseNumber (String c r) with
            | Some (n, rest) => Some (VNumber n, rest)
            | None => None
            end
          else
            match parseBool (String c r) with
            | Some (b, rest) => Some (VBool b, rest)
            | None => None
            end
      end
  end
with parseJsonMembers (fuel : nat) (s : string) : option (members * string) :=
  match fuel with
  | O => None
  | S fuel' =>
      match s with
      | String c r =>
          if (c =? dquote)%char then
            match unquoteChars r with
            | Some (k, r1) =>
                match skipWs r1 with
                | String d r2 =>
                    if (d =? ":")%char then
                      match parseJsonValue fuel' r2 with
                      | Some (v, r3) =>
                          match skipWs r3 with
                          | String e r4 =>
                              if (e =? ",")%char then
                                match parseJsonMembers fuel' (skipWs r4) with
                                | Some (more, rest) => Some (MCons k v more, rest)
                                | None => None
                                end
                              else if (e =? "}")%char then Some (MCons k v MNil, r4)
                              else None
                          | EmptyString => None
                          end
                      | None => None
                      end
                    else None
                | EmptyString => None
                end
            | None => None
            end
          else None
      | EmptyString => None
      end
  end
with parseJsonValues (fuel : nat) (s : string) : option (values * string) :=
  match fuel with
  | O => None
  | S fuel' =>
      match parseJsonValue fuel' s with
      | Some (v, r3) =>
          match skipWs r3 with
          | String e r4 =>
              if (e =? ",")%char then
                match parseJsonValues fuel' (skipWs r4) with
                | Some (more, rest) => Some (VCons v more, rest)
                | None => None
                end
              else if (e =? "]")%char then Some (VCons v VNil, r4)
              else None
          | EmptyString => None
          end
      | None => None
      end
  end.

(** Modelled from the spec: [encode_json] (sections 4.3 and 8; printer
    package, missing from the sources): the fields of the record, in
    their order, as a JSON object.  The kind is no field (section 4.2:
    the adapter neither adds nor drops a field), so it is not written. *)
Definition encode_json (r : record) : string :=
  jsonValue 0 (VRecord (fields r)) nl.

(** Modelled from the spec: the decoder of the json text (section 8;
    printer package, missing from the sources).  It reads the text and
    nothing else, and so gives the fields. *)
Definition decode_json (s : string) : option members :=
  match parseJsonValue (String.length s) s with
  | Some (VRecord m, rest) =>
      if (skipWs rest =? "")%string then Some m else None
  | _ => None
  end.

(** Modelled from the spec: the adapter of section 4.2 (printer package,
    missing from the sources) gives decoded fields the kind its caller
    knows. *)
Definition withKind (k : string) (m : option members) : option record :=
  option_map (mkRecord k) m.

(** *** YAML *)

(** What follows a key or a dash: a scalar or an empty container on the
    same line, or a block two columns further in on the next lines. *)
Fixpoint yamlAfter (ind : nat) (v : value) (rest : string) : string :=
  match v with
  | VString s => " " +++ quote s (nl +++ rest)
  | VNumber n => " " +++ printNumber n (nl +++ rest)
  | VBool b => " " +++ printBool b (nl +++ rest)
  | VRecord MNil => " {}" +++ nl +++ rest
  | VRecord m => nl +++ yamlMembers (2 + ind) m rest
  | VList VNil => " []" +++ nl +++ rest
  | VList l => nl +++ yamlValues (2 + ind) l rest
  end
with yamlMembers (ind : nat) (m : members) (rest : string) : string :=
  match m with
  | MNil => rest
  | MCons k v more =>
      spaces ind (quote k (":" +++ yamlAfter ind v (yamlMembers ind more rest)))
  end
with yamlValues (ind : nat) (l : values) (rest : string) : string :=
  match l with
  | VNil => rest
  | VCons v more =>
      spaces ind ("-" +++ yamlAfter ind v (yamlValues ind more rest))
  end.

(** [s] without exactly [n] leading spaces. *)
Fixpoint stripSpaces (n : nat) (s : string) : option string :=
  match n with
  | O => Some s
  | S n' =>
      match s with
      | String c r => if (c =? " ")%char then stripSpaces n' r else None
      | EmptyString => None
      end
  end.

Definition expectNewline {A : Type} (x : A) (s : string) : option (A * string) :=
  match s with
  | String c rest => if (c =? newline)%char then Some (x, rest) else None
  | EmptyString => None
  end.

(** A scalar or an empty container, up to the end of its line. *)
Definition parseYamlInline (s : string) : option (value * string) :=
  match s with
  | EmptyString => None
  | String c r =>
      if (c =? dquote)%char then
        match unquoteChars r with
        | Some (x, rest) => expectNewline (VString x) rest
        | None => None
        end
      else if (c =? "{")%char then
        match r with
        | String d rest => if (d =? "}")%char then expectNewline (VRecord MNil) rest else None
        | EmptyString => None
        end
      else if (c =? "[")%char then
        match r with
        | String d rest => if (d =? "]")%char then expectNewline (VList VNil) rest else None
        | EmptyString => None
        end
      else if isNumChar c then
        match parseNumber s with
        | Some (n, rest) => expectNewline (VNumber n) rest
        | None => None
        end
      else
        match parseBool s with
        | Some (b, rest) => expectNewline (VBool b) rest
        | None => None
        end
  end.

(** The parsers of a block read the lines that start at column [ind]
    with a quoted key (members) or a dash (elements), and stop at the
    first line that does not. *)
Fixpoint parseYamlAfter (fuel : nat) (ind : nat) (s : string) : option (value * string) :=
  match fuel with
  | O => None
  | S fuel' =>
      match s with
      | String c r =>
          if (c =? " ")%char then parseYamlInline r
          else if (c =? newline)%char then
            match stripSpaces (2 + ind) r with
            | Some (String d _) =>
                if (d =? dquote)%char then
                  match parseYamlMembers fuel' (2 + ind) r with
                  | Some (m, rest) => Some (VRecord m, rest)
                  | None => None
                  end
                else if (d =? "-")%char then
                  match parseYamlValues fuel' (2 + ind) r with
                  | Some (l, rest) => Some (VList l, rest)
                  | None => None
                  end
                else None
            | _ => None
            end
          else None
      | EmptyString => None
      end
  end
with parseYamlMembers (fuel : nat) (ind : nat) (s : string) : option (members * string) :=
  match fuel with
  | O => None
  | S fuel' =>
      match stripSpaces ind s with
      | Some (String c r) =>
          if (c =? dquote)%char then
            match unquoteChars r with
            | Some (k, String d r1) =>
                if (d =? ":")%char then
                  match parseYamlAfter fuel' ind r1 with
                  | Some (v, r2) =>
                      match parseYamlMembers fuel' ind r2 with
                      | Some (more, rest) => Some (MCons k v more, rest)
                      | None => None
                      end
                  | None => None
                  end
                else None
            | _ => None
            end
          else Some (MNil, s)
      | _ => Some (MNil, s)
      end
  end
with parseYamlValues (fuel : nat) (ind : nat) (s : string) : option (values * string) :=
  match fuel with
  | O => None
  | S fuel' =>
      match stripSpaces ind s with
      | Some (String c r) =>
          if (c =? "-")%char then
            match parseYamlAfter fuel' ind r with
            | Some (v, r2) =>
                match parseYamlValues fuel' ind r2 with
                | Some (more, rest) => Some (VCons v more, rest)
                | None => None
                end
            | None => None
            end
          else Some (VNil, s)
      | _ => Some (VNil, s)
      end
  end.

(** Modelled from the spec: [encode_yaml] (section 8; printer package,
    missing from the sources). *)
Definition encode_yaml (r : record) : string :=
  match fields r with
  | MNil => "{}" +++ nl
  | m => yamlMembers 0 m EmptyString
  end.

(** Modelled from the spec: the decoder of the yaml text (section 8;
    printer package, missing from the sources).  It reads the text and
    nothing else, and so gives the fields. *)
Definition decode_yaml (s : string) : option members :=
  if (s =? "{}" +++ nl)%string then Some MNil
  else
    match parseYamlMembers (S (String.length s)) 0 s with
    | Some (m, EmptyString) => Some m
    | _ => None
    end.

(** *** Measures for the proofs about the serializers *)

(** The number of values and fields in a value: the fuel its parsers
    need. *)
Fixpoint size (v : value) : nat :=
  match v with
  | VRecord m => S (sizeMembers m)
  | VList l => S (sizeValues l)
  | _ => 1
  end
with sizeMembers (m : members) : nat :=
  match m with
  | MNil => 0
  | MCons _ v more => S (size v + sizeMembers more)
  end
with sizeValues (l : values) : nat :=
  match l with
  | VNil => 0
  | VCons v more => S (size v + sizeValues more)
  end.

(** A text of digits. *)
Fixpoint allDigits (s : string) : bool :=
  match s with
  | EmptyString => true
  | String c rest =>
      ((48 <=? nat_of_ascii c)%nat && (nat_of_ascii c <=? 57)%nat) && allDigits rest
  end.

(** A text without a point. *)
Fixpoint noPoint (s : string) : bool :=
  match s with
  | EmptyString => true
  | String c rest => negb (c =? ".")%char && noPoint rest
  end.

(** The numeral of a number. *)
Definition numeral (n : number) : string := printNumber n "".

(** A text of digits, minus signs and points. *)
Fixpoint allNum (s : string) : bool :=
  match s with
  | EmptyString => true
  | String c rest => isNumChar c && allNum rest
  end.

(** A text that is empty or whose first line starts left of column
    [ind]: where a YAML block at column [ind] ends. *)
Fixpoint outdented (ind : nat) (s : string) : bool :=
  match s with
  | EmptyString => true
  | String c rest =>
      match ind with
      | O => false
      | S i => if (c =? " ")%char then outdented i rest else true
      end
  end.

(** The blocks of a text: its runs of lines between blank lines. *)
Fixpoint groups (ls : list string) : list (list string) :=
  match ls with
  | [] => [[]]
  | l :: rest =>
      if (l =? "")%string then [] :: groups rest
      else match groups rest with
           | g :: gs => (l :: g) :: gs
           | [] => [[l]]
           end
  end.

Definition isEmpty {A : Type} (l : list A) : bool :=
  match l with [] => true | _ :: _ => false end.

Definition blocks (text : string) : list (list string) :=
  filter (fun g => negb (isEmpty g)) (groups (lines text)).

(** A text without a line break. *)
Fixpoint oneLine (s : string) : bool :=
  match s with
  | EmptyString => true
  | String c rest => negb (c =? newline)%char && oneLine rest
  end.

Section Dispatcher.

(** What the description leaves open: how the plain view shows a value,
    the template engine, the themes that are loaded, the content of a
    template file and the color decision. *)
Variable display : value -> string.
Variable RenderTemplate : string -> record -> bool -> rendered.
Variable themes : list Theme.
Variable templateFile : string -> string.
Variable colorDecision : bool.

(** Modelled from the spec: the plain serializer (printer package,
    missing from the sources): one line [key: value] per top-level
    field, in the order of the fields.  Whatever the view of a value is,
    it stays on the line of its field: a line break in it is written as
    a blank. *)
Fixpoint onOneLine (s : string) : string :=
  match s with
  | EmptyString => EmptyString
  | String c rest =>
      String (if (c =? newline)%char then " "%char else c) (onOneLine rest)
  end.

Definition fieldLine (f : string * value) : string :=
  onOneLine (fst f +++ ": " +++ display (snd f)).

Definition plainLines (r : record) : list string :=
  map fieldLine (fieldList (fields r)).

Definition plainRecord (r : record) : string := unlines (plainLines r).

(** A record with at least one field. *)
Definition hasField (r : record) : bool :=
  match fields r with MNil => false | MCons _ _ _ => true end.

Fixpoint findTheme (name : string) (l : list Theme) : option Theme :=
  match l with
  | [] => None
  | th :: rest => if (themeNameOf th =? name)%string then Some th else findTheme name rest
  end.

(** Modelled from the spec: the validation of the dispatcher (printer
    package, missing from the sources).  It reads the request only, and
    yields the strategy that renders one record. *)
Definition validate (req : RenderRequest) : (record -> rendered) + renderError :=
  if (format req =? "plain")%string then inl (fun r => inl (plainRecord r))
  else if (format req =? "json")%string then inl (fun r => inl (encode_json r))
  else if (format req =? "yaml")%string then inl (fun r => inl (encode_yaml r))
  else if (format req =? "template")%string then
    match templateBody req, templateFilePath req with
    | None, None => inr MissingTemplate
    | Some _, Some _ => inr AmbiguousTemplate
    | Some body, None => inl (fun r => RenderTemplate body r colorDecision)
    | None, Some path => inl (fun r => RenderTemplate (templateFile path) r colorDecision)
    end
  else if (format req =? "theme")%string then
    let name := match themeName req with Some n => n | None => "" end in
    match findTheme name themes with
    | None => inr (UnknownTheme name (map themeNameOf themes))
    | Some th =>
        inl (fun r =>
               match TemplateFor th (kind r) with
               | inl body => RenderTemplate body r colorDecision
               | inr e => inr e
               end)
    end
  else inr (InvalidFormat (format req)).

(** Modelled from the spec: [Render] of the dispatcher (printer package,
    missing from the sources): nothing for [Empty]; for a list, each
    element rendered on its own with the same strategy, and the results
    joined by one line break. *)
Definition Render (req : RenderRequest) (result : ResultValue) : rendered :=
  match validate req with
  | inr e => inr e
  | inl one =>
      match result with
      | Empty => inl EmptyString
      | Single r => one r
      | List rs =>
          match renderEach one rs with
          | inr e => inr e
          | inl texts => inl (String.concat nl texts)
          end
      end
  end.

End Dispatcher.

End Render.

(** ** Sample runs

    Concrete flags and environments, used to evaluate the commands. *)

Definition noSuggestionsOpts : suggestionsOpts.t := suggestionsOpts.mk "" "" 0.

Definition noTimelineOpts : timelineOpts.t :=
  timelineOpts.mk false false 0 0 "" "".

Definition noStatusOpts : statusOpts.t :=
  statusOpts.mk 0 false "" false "" "" false "" "" "" false false false 0 0 false.

(** The flags of an invocation that sets none. *)
Definition noFlags : Flags :=
  mkFlags noSuggestionsOpts noTimelineOpts noStatusOpts false false false.

(** No configuration file given, none found. *)
Definition noConfig : Config := mkConfig "" (Some "Not Found") false "".

Definition alice : Account := mkAccount "alice" "id=1".
Definition bob : Account := mkAccount "bob" "id=2".
Definition carol : Account := mkAccount "carol" "id=3".

Definition tootOf (a : Account) (vis text : string) : Status :=
  mkStatus (Some a) [] vis text.

(** A printer that writes a fixed text. *)
Definition textPrinter (text : string) : Printer := fun _ => (text, None).

(** Comma-separated identifiers; an empty one is refused. *)
Fixpoint splitComma (s : string) : list string :=
  match s with
  | EmptyString => [EmptyString]
  | String c rest =>
      if (c =? ",")%char then EmptyString :: splitComma rest
      else match splitComma rest with
           | f :: fs => String c f :: fs
           | [] => [String c EmptyString]
           end
  end.

Definition sampleSplitIDs (s : string) : list string * error :=
  if (s =? "")%string then ([], None)
  else if existsb (String.eqb "") (splitComma s) then ([], Some "invalid ID")
  else (splitComma s, None).

(** A server whose requests without a result answer [reqErr] and whose
    other requests succeed: listings return [accounts] and [statuses],
    single statuses are [st]. *)
Definition serverWith (reqErr : error) (accounts : list Account)
  (statuses : list Status) (st : Status) (checkFormat : error)
  (printer : option Printer * error) : World :=
  mkWorld
    (fun _ _ => reqErr)
    (fun _ _ => (Some st, None))
    (fun _ _ => (Some (mkContext "context"), None))
    (fun _ _ => (Some (mkCard "card"), None))
    (fun _ _ => (accounts, None))
    (fun _ _ => (Some alice, None))
    (fun _ _ => (statuses, None))
    (fun _ _ => ("media1", None))
    (fun _ _ => None)
    (fun _ => checkFormat)
    (fun _ => printer)
    sampleSplitIDs
    (fun _ => ("text", None))
    ("text", None)
    ""
    (fun name => "Usage: " +++ name).

Definition helloStatus : Status := tootOf bob "public" "hello".

(** The environment of a run with a usable output format. *)
Definition calmWorld : World :=
  serverWith None [alice; bob; carol]
    [tootOf alice "public" "one"; tootOf bob "unlisted" "two"]
    helloStatus None (Some (textPrinter "rendered"), None).

(** The environment of a run with [--output bogus]: the format check and
    the printer construction both refuse the format. *)
Definition bogusFormat : string := "output format 'bogus' not supported".

Definition bogusWorld : World :=
  serverWith None [alice; bob; carol]
    [tootOf alice "public" "one"; tootOf bob "unlisted" "two"]
    helloStatus (Some bogusFormat) (None, Some bogusFormat).

(** Flags that only set [--keep] of the timeline command. *)
Definition keepFlags (k : Z) : Flags :=
  mkFlags noSuggestionsOpts (timelineOpts.mk false false 0 k "" "")
          noStatusOpts false false false.

(** Flags that only set [--status-id]. *)
Definition statusFlags (id : Z) : Flags :=
  mkFlags noSuggestionsOpts noTimelineOpts
    (statusOpts.mk id false "" false "" "" false "" "" "" false false false 0 0 false)
    false false false.

(** A server that refuses every request without a result. *)
Definition refusingWorld : World :=
  serverWith (Some "Record not found") [alice; bob; carol] [] helloStatus
    None (Some (textPrinter "rendered"), None).

(** Flags of [suggestions delete --account-ids 7,8]. *)
Definition deleteTwoFlags : Flags :=
  mkFlags (suggestionsOpts.mk "" "7,8" 0) noTimelineOpts noStatusOpts
          false false false.

(** The options of [toot --in-reply-to 99 --same-visibility]. *)
Definition replyOpts : statusOpts.t :=
  statusOpts.mk 0 false "" false "" "99" true "" "" "" false false true 0 0 false.

Definition replyPost : PostStatusParams :=
  mkPostStatusParams "hi" "99" [] false "" "unlisted".

(** The environment [w] with another answer of the format check. *)
Definition withFormatCheck (e : trace -> error) (w : World) : World :=
  mkWorld (apiErr w) (apiStatus w) (apiContext w) (apiCard w) (apiAccounts w)
    (apiAccount w) (apiStatuses w) (apiUpload w) (madonInitResult w)
    e (getPrinterResult w) (splitIDs w) (readFile w) (readStdin w)
    (default_visibility w) (usageString w).


(** Three status records and a plain view of their values. *)
Definition statusRecord (id : Z) (text : string) : Render.record :=
  Render.mkRecord "status"
    (Render.MCons "id" (Render.VNumber (Render.NInt id))
       (Render.MCons "content" (Render.VString text) Render.MNil)).

(** Three statuses; the second has two paragraphs. *)
Definition threeStatuses : list Render.record :=
  [statusRecord 1 "one";
   statusRecord 2 ("two" +++ String newline (String newline "more"));
   statusRecord 3 "three"].

Definition sampleDisplay (v : Render.value) : string :=
  match v with
  | Render.VString s => s
  | Render.VNumber n => Render.printNumber n ""
  | Render.VBool true => "true"
  | Render.VBool false => "false"
  | Render.VRecord _ => "{...}"
  | Render.VList _ => "[...]"
  end.

Definition plainRequest : Render.RenderRequest :=
  Render.mkRenderRequest "plain" None None None "auto".

(** A record with every kind of value in it. *)
Definition mixedRecord : Render.record :=
  Render.mkRecord "status"
    (Render.MCons "id" (Render.VNumber (Render.NInt 42))
    (Render.MCons "content"
       (Render.VString ("say " +++ dq +++ "hi" +++ dq +++ String newline "twice"))
    (Render.MCons "account"
       (Render.VRecord
          (Render.MCons "acct" (Render.VString "alice")
          (Render.MCons "bot" (Render.VBool false)
          (Render.MCons "fields" (Render.VRecord Render.MNil) Render.MNil))))
    (Render.MCons "tags"
       (Render.VList
          (Render.VCons (Render.VString "a")
          (Render.VCons (Render.VNumber (Render.NFrac true 0 52))
          (Render.VCons (Render.VList Render.VNil)
          (Render.VCons
             (Render.VRecord (Render.MCons "x" (Render.VBool true) Render.MNil))
             Render.VNil)))))
       Render.MNil)))).

(** A server whose single statuses are a followers-only status. *)
Definition privateStatus : Status := tootOf bob "private" "psst".

Definition privateOriginalWorld : World :=
  serverWith None [alice; bob; carol]
    [tootOf alice "public" "one"; tootOf bob "unlisted" "two"]
    privateStatus None (Some (textPrinter "rendered"), None).

(** The reply to a followers-only status. *)
Definition privateReplyPost : PostStatusParams :=
  mkPostStatusParams "hi" "99" [] false "" "private".

(** A registry with two built-in themes and a user theme that shadows
    one of them. *)
Definition sampleRegistry : list Render.Theme :=
  [Render.mkTheme "default" [] (Some "{{.}}");
   Render.mkTheme "ansi" [("status", "{{.content}}")] None;
   Render.mkTheme "dark" [] (Some "{{.}}");
   Render.mkTheme "default" [("account", "{{.acct}}")] None].

(** The fields of a record with an identifier only. *)
Definition oneField : Render.members :=
  Render.MCons "id" (Render.VNumber (Render.NInt 1)) Render.MNil.

(** ** More of the command tree and of the runs *)

(** The [statusSubcommands] and [suggestionsSubcommands] slices, the
    arguments of the two [AddCommand] calls that hang the subcommands
    under [statusCmd] and [suggestionsCmd]. *)
Definition statusSubcommands : list command :=
  [statusShow; statusContext; statusCard; statusRebloggedBy; statusFavouritedBy;
   statusDelete; statusMuteConversation; statusUnmuteConversation;
   statusReblogSubcommand; statusUnreblogSubcommand;
   statusFavouriteSubcommand; statusUnfavouriteSubcommand;
   statusPinSubcommand; statusUnpinSubcommand; statusPostSubcommand].

Definition suggestionsSubcommands : list command :=
  [suggestionsGetSubcommand; suggestionsDeleteSubcommand].

(** A computation that, when it stops the process, does so with status
    [code]. *)
Definition exitsOnlyWith {A : Type} (code : Z) (m : proc A) : Prop :=
  forall h c t, m h = (Exit c, t) -> c = code.

(** A [switch] that is never left through its default case. *)
Definition neverReturns (m : proc switched) : Prop :=
  forall h e t, m h <> (Val (Returned e), t).

(** The timeline a run of [timeline] asks for, and whether it signs in
    first. *)
Definition timelineOf (args : list string) : string :=
  match args with a :: _ => a | [] => "home" end.

Definition timelineSignsIn (tl : string) : bool :=
  ((tl =? "home") || (tl =? "direct"))%string || prefix "!" tl.

(** The visibility [toot] starts from: the flag, or else the
    configuration's [default_visibility]. *)
Definition requestedVisibility (w : World) (opt : statusOpts.t) : string :=
  if (statusOpts.visibility opt =? "")%string
  then default_visibility w
  else statusOpts.visibility opt.

(** Whether [toot] takes the visibility over from the original status. *)
Definition preservesVisibility (fl : Flags) (opt : statusOpts.t) : bool :=
  negb (statusOpts.inReplyToID opt =? "")%string
  && statusOpts.sameVisibility opt
  && negb (tootVisibilityChanged fl)
  && negb (statusPostVisibilityChanged fl).

(** *** More sample runs *)

(** A configuration file named on the command line that cannot be read. *)
Definition brokenConfig : Config :=
  mkConfig "/tmp/none.yaml" (Some "no such file") false "".

(** Flags of [suggestions delete] with both ways to name accounts. *)
Definition deleteBothFlags : Flags :=
  mkFlags (suggestionsOpts.mk "7" "8,9" 0) noTimelineOpts noStatusOpts
          false false false.

(** A server where no login succeeds. *)
Definition lockedWorld : World :=
  mkWorld
    (apiErr calmWorld) (apiStatus calmWorld) (apiContext calmWorld)
    (apiCard calmWorld) (apiAccounts calmWorld) (apiAccount calmWorld)
    (apiStatuses calmWorld) (apiUpload calmWorld)
    (fun _ _ => Some "login failed")
    (checkOutputFormatResult calmWorld) (getPrinterResult calmWorld)
    (splitIDs calmWorld) (readFile calmWorld) (readStdin calmWorld)
    (default_visibility calmWorld) (usageString calmWorld).

(** A status of [alice] that mentions only [alice]. *)
Definition selfStatus : Status :=
  mkStatus (Some alice) [mkMention "alice"; mkMention "alice"] "private" "note".

(** The options of [toot --file cat.png --media-ids a,b,c]. *)
Definition mediaOpts : statusOpts.t :=
  statusOpts.mk 0 false "" false "" "" false "a,b,c" "cat.png" "" false false false
    0 0 false.

Definition mediaPost : PostStatusParams :=
  mkPostStatusParams "look" "" ["a"; "b"; "c"; "media1"] false "" "".

(** The options of a plain [toot --visibility private]. *)
Definition privateOpts : statusOpts.t :=
  statusOpts.mk 0 false "private" false "" "" false "" "" "" false false false
    0 0 false.

Definition privatePost : PostStatusParams :=
  mkPostStatusParams "hello" "" [] false "" "private".

(** The options of a plain [toot --visibility public]. *)
Definition publicOpts : statusOpts.t :=
  statusOpts.mk 0 false "public" false "" "" false "" "" "" false false false
    0 0 false.

Definition publicPost : PostStatusParams :=
  mkPostStatusParams "hello" "" [] false "" "public".

(** Flags of [status --status-id 7 boost --unset]. *)
Definition unsetFlags : Flags :=
  mkFlags noSuggestionsOpts noTimelineOpts
    (statusOpts.mk 7 true "" false "" "" false "" "" "" false false false
       0 0 false)
    false false false.

(** A printer that writes the names of the accounts, or the contents of
    the statuses, it is given. *)
Definition namesPrinter : Printer :=
  fun obj =>
    match obj with
    | ObjAccounts l => (String.concat "," (map Acct l), None)
    | ObjStatuses l => (String.concat "," (map statusPayload l), None)
    | _ => ("", None)
    end.

Definition listingWorld : World :=
  serverWith None [alice; bob; carol]
    [tootOf alice "public" "one"; tootOf bob "unlisted" "two"] helloStatus None
    (Some namesPrinter, None).

(** Flags of a listing with [--keep 1]. *)
Definition keepOneFlags : Flags :=
  mkFlags (suggestionsOpts.mk "" "" 1) (timelineOpts.mk false false 0 1 "" "")
    noStatusOpts false false false.

(** Flags of [timeline --limit 9223372036854775808 --max-id 500]. *)
Definition hugeLimitFlags : Flags :=
  mkFlags noSuggestionsOpts (timelineOpts.mk false false (2 ^ 63) 0 "" "500")
    noStatusOpts false false false.

(** * Properties *)

(** ** The process monad *)

Lemma bind_Val {A B : Type} (m : proc A) (f : A -> proc B) h a t1 r t2 :
  m h = (Val a, t1) ->
  f a (h ++ t1) = (r, t2) ->
  bind m f h = (r, t1 ++ t2).
Proof. intros Hm Hf. unfold bind. rewrite Hm, Hf. reflexivity. Qed.

Lemma bind_ret {A B : Type} (a : A) (f : A -> proc B) h :
  bind (ret a) f h = f a h.
Proof.
  unfold bind, ret. rewrite app_nil_r. destruct (f a h). reflexivity.
Qed.

(** ** Trimming a result list ([--keep]) *)

Lemma int_of_uint_small (u : Z) : 0 <= u <= maxInt -> int_of_uint u = u.
Proof.
  intros H. unfold int_of_uint.
  destruct (Z.leb_spec u maxInt); [reflexivity | lia].
Qed.

Lemma int_of_uint_large (u : Z) :
  maxInt < u <= maxUint -> int_of_uint u < 0.
Proof.
  intros H. unfold int_of_uint.
  destruct (Z.leb_spec u maxInt); [lia |].
  unfold maxUint, uintSize in *. lia.
Qed.

(** Up to [maxInt] the trimming keeps the first [keep] elements of a
    longer list and leaves every other list alone. *)
Lemma keepFirst_in_range {A : Type} (keep : Z) (l : list A) :
  0 <= keep <= maxInt ->
  keepFirst keep l =
    Some (if (0 <? keep) && (keep <? len l) then firstn (Z.to_nat keep) l else l).
Proof.
  intros H. unfold keepFirst, sliceTo. rewrite (int_of_uint_small _ H).
  destruct (Z.ltb_spec 0 keep); simpl; [| reflexivity].
  destruct (Z.ltb_spec keep (len l)); [| reflexivity].
  destruct (Z.leb_spec keep (len l)); [reflexivity | lia].
Qed.

(** Above [maxInt] the conversion [int(opt.keep)] is negative, the guard
    holds for every list, and the slice expression panics. *)
Lemma keepFirst_beyond_maxInt {A : Type} (keep : Z) (l : list A) :
  maxInt < keep <= maxUint ->
  len l <= maxInt ->
  keepFirst keep l = None.
Proof.
  intros H Hl. unfold keepFirst, sliceTo.
  pose proof (int_of_uint_large _ H) as Hneg.
  assert (0 <= len l) by (unfold len; lia).
  destruct (Z.ltb_spec 0 keep); [| unfold maxInt, uintSize in *; lia].
  destruct (Z.ltb_spec (int_of_uint keep) (len l)); [| lia].
  simpl. destruct (Z.leb_spec keep (len l)); [lia | reflexivity].
Qed.

Lemma keepFirst_in_range_witness :
  keepFirst 2 [alice; bob; carol] = Some [alice; bob].
Proof.
  apply (keepFirst_in_range 2 [alice; bob; carol]).
  unfold maxInt, uintSize. lia.
Defined.

Lemma keepFirst_beyond_maxInt_witness :
  keepFirst (2 ^ 63) [alice; bob; carol] = None.
Proof.
  apply (keepFirst_beyond_maxInt (2 ^ 63) [alice; bob; carol]).
  - unfold maxInt, maxUint, uintSize. lia.
  - unfold len, maxInt, uintSize. simpl. lia.
Defined.

(** C10 (as the code has it): with [--keep 9223372036854775808], a value
    the [uint] flag accepts, the timeline command does not pass its two
    statuses on to the printer; the slice expression panics after the
    request, and nothing is printed. *)
Theorem timeline_keep_beyond_maxInt_panics :
  isUint (2 ^ 63) /\
  apiStatuses calmWorld [Init true] (GetTimelines "home" false false None)
    = ([tootOf alice "public" "one"; tootOf bob "unlisted" "two"], None) /\
  runProcess calmWorld (keepFlags (2 ^ 63)) noConfig timelineCmd []
    = (Panic "slice bounds out of range",
       [Init true; Net (GetTimelines "home" false false None)]).
Proof.
  split; [unfold isUint, maxUint, uintSize; lia |].
  split; reflexivity.
Qed.

(** ** The flags of the root command *)

(** What [init] registers for the output: [--output], [--template],
    [--template-file], [--theme] and [--color] are persistent string
    flags of the root command, each with the empty string as its
    registered default, so a flag that is not given leaves its variable
    empty; the value sets plain|json|yaml|template|theme and auto|on|off
    are what the usage texts of [--output] and [--color] name and what
    their completion functions offer.  Which format and color mode are in
    effect for an empty variable is decided by the printer, outside
    these files. *)
Theorem root_output_flags :
  map (fun n => option_map (fun f => (pflag.Type_ f, pflag.DefValue f))
                  (pflag.Lookup n rootPersistentFlags))
      ["output"; "template"; "template-file"; "theme"; "color"]
    = repeat (Some ("string", "")) 5 /\
  flagUsage "output" = Some "Output format (plain|json|yaml|template|theme)" /\
  flagUsage "color" = Some "Color mode (auto|on|off; for output=template)" /\
  customCompletion "output" = Some ["__madonctl_output"] /\
  staticCandidates "__madonctl_output" = Some ["plain"; "json"; "yaml"; "template"; "theme"] /\
  customCompletion "color" = Some ["__madonctl_color"] /\
  staticCandidates "__madonctl_color" = Some ["auto"; "on"; "off"].
Proof. repeat split; vm_compute; reflexivity. Qed.

(** ** Completion of theme names *)

Lemma plainChar_not_blank (c : ascii) : plainChar c = true -> isBlank c = false.
Proof.
  destruct c as [b0 b1 b2 b3 b4 b5 b6 b7].
  destruct b0, b1, b2, b3, b4, b5, b6, b7; intros H;
    try discriminate H; reflexivity.
Qed.

Lemma fields_line (a rest : string) :
  plainChars a = true ->
  fields (a +++ String newline rest) = a :: fields rest.
Proof.
  induction a as [| c a IH]; intros H; simpl.
  - reflexivity.
  - simpl in H. apply andb_prop in H. destruct H as [Hc Ha].
    rewrite (plainChar_not_blank c Hc), (IH Ha). reflexivity.
Qed.

Lemma words_unlines (names : list string) :
  forallb plainWord names = true -> words (unlines names) = names.
Proof.
  unfold words. induction names as [| n names IH]; intros H; simpl.
  - reflexivity.
  - simpl in H. apply andb_prop in H. destruct H as [Hn Hrest].
    unfold plainWord in Hn. apply andb_prop in Hn. destruct Hn as [Hne Hnb].
    rewrite (fields_line _ _ Hnb). simpl. rewrite Hne, (IH Hrest). reflexivity.
Qed.

(** The enumeration holds exactly the names of the registry. *)
Lemma In_insertName (x n : string) (l : list string) :
  In x (Render.insertName n l) <-> x = n \/ In x l.
Proof.
  induction l as [| m l IH]; simpl.
  - split; intros [H | H]; auto.
  - destruct (String_as_OT.compare_spec n m) as [E | L | G]; simpl.
    + hnf in E. subst m. intuition congruence.
    + intuition congruence.
    + rewrite IH. intuition congruence.
Qed.

Lemma In_ListNames (registry : list Render.Theme) (x : string) :
  In x (Render.ListNames registry) <->
  exists th, In th registry /\ Render.themeNameOf th = x.
Proof.
  unfold Render.ListNames. induction registry as [| th registry IH]; simpl.
  - split; [contradiction | intros [th [[] _]]].
  - rewrite In_insertName, IH. split.
    + intros [E | [th' [Hin E]]]; [exists th; auto | exists th'; auto].
    + intros [th' [[E | Hin] Hn]]; [subst th'; auto | right; exists th'; auto].
Qed.

(** It is in strictly ascending order, so no name comes twice. *)
Lemma insertName_ascending (n : string) (l : list string) :
  StronglySorted String_as_OT.lt l ->
  StronglySorted String_as_OT.lt (Render.insertName n l).
Proof.
  induction l as [| m l IH]; intros Hs; simpl.
  - constructor; [constructor | constructor].
  - inversion Hs as [| m' l' Hl Hm]; subst.
    destruct (String_as_OT.compare_spec n m) as [E | L | G].
    + exact Hs.
    + constructor; [exact Hs |]. constructor; [exact L |].
      rewrite Forall_forall in Hm |- *. intros y Hy.
      exact (@RelationClasses.StrictOrder_Transitive _ _ String_as_OT.lt_strorder _ _ _ L (Hm y Hy)).
    + constructor; [exact (IH Hl) |].
      rewrite Forall_forall in Hm |- *. intros y Hy.
      apply In_insertName in Hy. destruct Hy as [E | Hy]; [subst y; exact G | auto].
Qed.

Lemma ListNames_ascending (registry : list Render.Theme) :
  StronglySorted String_as_OT.lt (Render.ListNames registry).
Proof.
  unfold Render.ListNames. induction registry as [| th registry IH]; simpl.
  - constructor.
  - apply insertName_ascending. exact IH.
Qed.

Lemma plain_ListNames (registry : list Render.Theme) :
  forallb plainWord (map Render.themeNameOf registry) = true ->
  forallb plainWord (Render.ListNames registry) = true.
Proof.
  intros H. rewrite forallb_forall in H |- *. intros x Hx.
  apply In_ListNames in Hx. destruct Hx as [th [Hin Hn]]. subst x.
  apply H. apply in_map. exact Hin.
Qed.



(** ** Running a command *)

(** A run in which the initializers pass, and the hook and the run
    function return nil, ends normally with the events of the three. *)
Lemma runProcess_nil (w : World) (fl : Flags) (cfg : Config) (c : command)
  (args : list string) (run hook : runFn) (t0 t1 t2 : trace) :
  RunE w fl c = Some run ->
  persistentHook w fl treeDepth c = Some hook ->
  initConfig cfg [] = (Val tt, t0) ->
  hook c args t0 = (Val None, t1) ->
  run c args (t0 ++ t1) = (Val None, t2) ->
  runProcess w fl cfg c args = (Val tt, t0 ++ t1 ++ t2).
Proof.
  intros HR HP H0 H1 H2.
  unfold runProcess, Execute, cobraExecute, execute.
  rewrite HR, HP. unfold bind. rewrite H0. simpl app.
  rewrite H1, H2. simpl. rewrite !app_nil_r. reflexivity.
Qed.

(** ** Removing follow suggestions *)

(** The loop starts with [err == nil], so its condition never holds: it
    sends one request per identifier, in order, prints nothing and leaves
    [err] nil, whatever the requests return. *)
Lemma deleteSuggestions_from_nil (w : World) (ids : list string) (h : trace) :
  deleteSuggestions w ids None h = (Val None, deleteRequests ids).
Proof.
  revert h. induction ids as [| id ids IH]; intros h; simpl.
  - reflexivity.
  - unfold bind at 1. unfold callErr at 1. rewrite bind_ret.
    simpl. rewrite IH. reflexivity.
Qed.

Lemma initConfig_any_history (cfg : Config) (h h' : trace) :
  initConfig cfg h = initConfig cfg h'.
Proof.
  unfold initConfig.
  destruct (cfgFile cfg =? "/dev/null")%string; [reflexivity |].
  destruct (readInConfig cfg); [| destruct (verbose cfg); reflexivity].
  destruct (negb (cfgFile cfg =? "")%string); reflexivity.
Qed.

Lemma length_zero_empty (s : string) :
  (String.length s =? 0)%nat = (s =? "")%string.
Proof. destruct s; reflexivity. Qed.

Lemma zero_lt_length (s : string) :
  (0 <? String.length s)%nat = negb (s =? "")%string.
Proof. destruct s; reflexivity. Qed.

(** C8: when exactly one of [--account-id] and [--account-ids] is given,
    the list parses to at least one identifier and the login succeeds,
    [suggestions delete] sends one [DeleteSuggestion] request per
    identifier, in order, writes nothing and returns nil, whatever the
    requests answer; the process ends normally (status 0). *)
Theorem suggestions_delete_ignores_request_errors
  (w : World) (fl : Flags) (cfg : Config) (args : list string)
  (t0 : trace) (ids0 : list string) :
  let opt := fSuggestions fl in
  let ids := if (suggestionsOpts.accountID opt =? "")%string
             then ids0 else [suggestionsOpts.accountID opt] in
  (suggestionsOpts.accountID opt = "" <-> suggestionsOpts.accountIDs opt <> "") ->
  splitIDs w (suggestionsOpts.accountIDs opt) = (ids0, None) ->
  ids <> [] ->
  initConfig cfg [] = (Val tt, t0) ->
  checkOutputFormatResult w t0 = None ->
  madonInitResult w t0 true = None ->
  suggestionsDeleteRunE w fl args t0 = (Val None, Init true :: deleteRequests ids) /\
  runProcess w fl cfg suggestionsDeleteSubcommand args
    = (Val tt, t0 ++ Init true :: deleteRequests ids).
Proof.
  intros opt ids Hone Hsplit Hids Hcfg Hfmt Hlogin.
  assert (Hrun : suggestionsDeleteRunE w fl args t0
                 = (Val None, Init true :: deleteRequests ids)).
  { unfold suggestionsDeleteRunE. fold opt.
    rewrite length_zero_empty, zero_lt_length, Hsplit. simpl fst. simpl snd.
    assert (Hlen : (length ids <? 1)%nat = false).
    { destruct ids; [contradiction | reflexivity]. }
    subst ids.
    destruct (String.eqb_spec (suggestionsOpts.accountID opt) "") as [Ha | Ha].
    - destruct (String.eqb_spec (suggestionsOpts.accountIDs opt) "") as [Hb | Hb].
      + apply Hone in Ha. contradiction.
      + simpl. rewrite Hlen.
        unfold bind, madonInit. rewrite Hlogin.
        rewrite deleteSuggestions_from_nil. simpl.
        rewrite app_nil_r. reflexivity.
    - destruct (String.eqb_spec (suggestionsOpts.accountIDs opt) "") as [Hb | Hb].
      + cbn [negb andb].
        change (Datatypes.length [suggestionsOpts.accountID opt] <? 1)%nat with false.
        cbn [snd fst isErr]. unfold bind, madonInit. rewrite Hlogin.
        rewrite deleteSuggestions_from_nil. reflexivity.
      + apply Hone in Hb. contradiction. }
  split; [exact Hrun |].
  apply (runProcess_nil w fl cfg suggestionsDeleteSubcommand args
           (fun _ a => suggestionsDeleteRunE w fl a)
           (fun _ _ => checkOutputFormat w) t0 [] _).
  - reflexivity.
  - reflexivity.
  - exact Hcfg.
  - unfold checkOutputFormat. rewrite Hfmt. reflexivity.
  - rewrite app_nil_r. exact Hrun.
Qed.

Lemma suggestions_delete_ignores_request_errors_witness :
  suggestionsDeleteRunE refusingWorld deleteTwoFlags [] []
    = (Val None, [Init true; Net (DeleteSuggestion "7"); Net (DeleteSuggestion "8")]) /\
  runProcess refusingWorld deleteTwoFlags noConfig suggestionsDeleteSubcommand []
    = (Val tt, [Init true; Net (DeleteSuggestion "7"); Net (DeleteSuggestion "8")]).
Proof.
  apply (suggestions_delete_ignores_request_errors
           refusingWorld deleteTwoFlags noConfig [] [] ["7"; "8"]).
  - simpl. split; intros H; [discriminate | reflexivity].
  - reflexivity.
  - simpl. discriminate.
  - reflexivity.
  - reflexivity.
  - reflexivity.
Defined.

(** ** Status commands without a result object *)

Lemma statusPersistentPreRunE_ok (w : World) (fl : Flags) (name : string)
  (args : list string) (h : trace) :
  1 <= statusOpts.statusID (fStatus fl) ->
  madonInitResult w h true = None ->
  statusPersistentPreRunE w fl name args h = (Val None, [Init true]).
Proof.
  intros Hid Hlogin. unfold statusPersistentPreRunE.
  destruct (Z.ltb_spec (statusOpts.statusID (fStatus fl)) 1); [lia |].
  simpl. unfold madonInit. rewrite Hlogin. reflexivity.
Qed.

(** With a request that succeeds, these subcommands return nil without
    asking for a printer. *)
Lemma statusSubcommandRunE_without_result (w : World) (fl : Flags)
  (opt : statusOpts.t) (c : command) (args : list string) (h : trace) :
  withoutResult c = true ->
  (forall h' call, apiErr w h' call = None) ->
  exists call,
    statusSubcommandRunE w fl opt (Name c) args h = (Val None, [Net call]).
Proof.
  intros Hc Hapi.
  destruct c; try discriminate Hc;
    unfold statusSubcommandRunE, statusSwitch; cbn -[bind];
    try destruct (statusOpts.unset opt); cbn -[bind];
    eexists; unfold bind, callErr; rewrite Hapi; reflexivity.
Qed.

(** C2: a status subcommand whose request has no result object (delete,
    boost, unboost, favourite, unfavourite, pin, unpin), run with a
    status ID, a login and a request that succeed, writes nothing, asks
    for no printer and returns nil; the process ends normally (status
    0) after the one request. *)
Theorem status_command_without_result_succeeds_silently
  (w : World) (fl : Flags) (cfg : Config) (c : command) (args : list string)
  (t0 : trace) :
  withoutResult c = true ->
  initConfig cfg [] = (Val tt, t0) ->
  1 <= statusOpts.statusID (fStatus fl) ->
  madonInitResult w t0 true = None ->
  (forall h call, apiErr w h call = None) ->
  exists call,
    statusSubcommandRunE w fl (fStatus fl) (Name c) args (t0 ++ [Init true])
      = (Val None, [Net call]) /\
    runProcess w fl cfg c args = (Val tt, t0 ++ [Init true; Net call]) /\
    exitStatus (fst (runProcess w fl cfg c args)) = 0.
Proof.
  intros Hc Hcfg Hid Hlogin Hapi.
  destruct (statusSubcommandRunE_without_result w fl (fStatus fl) c args
              (t0 ++ [Init true]) Hc Hapi) as [call Hrun].
  exists call. split; [exact Hrun |].
  assert (Hproc : runProcess w fl cfg c args = (Val tt, t0 ++ [Init true; Net call])).
  { apply (runProcess_nil w fl cfg c args
             (fun cmd a => statusSubcommandRunE w fl (fStatus fl) (Name cmd) a)
             (fun cmd a => statusPersistentPreRunE w fl (Name cmd) a)
             t0 [Init true] [Net call]).
    - destruct c; try discriminate Hc; reflexivity.
    - destruct c; try discriminate Hc; reflexivity.
    - exact Hcfg.
    - apply statusPersistentPreRunE_ok; assumption.
    - exact Hrun. }
  split; [exact Hproc | rewrite Hproc; reflexivity].
Qed.

Lemma status_command_without_result_succeeds_silently_witness :
  exists call,
    statusSubcommandRunE calmWorld (statusFlags 42) (fStatus (statusFlags 42))
        (Name statusFavouriteSubcommand) [] ([] ++ [Init true])
      = (Val None, [Net call]) /\
    runProcess calmWorld (statusFlags 42) noConfig statusFavouriteSubcommand []
      = (Val tt, [] ++ [Init true; Net call]) /\
    exitStatus (fst (runProcess calmWorld (statusFlags 42) noConfig
                       statusFavouriteSubcommand [])) = 0.
Proof.
  apply (status_command_without_result_succeeds_silently
           calmWorld (statusFlags 42) noConfig statusFavouriteSubcommand [] []).
  - reflexivity.
  - reflexivity.
  - simpl. lia.
  - reflexivity.
  - reflexivity.
Defined.

(** ** Errors of the rendering helpers *)

Lemma quiet_ret {A : Type} (a : A) : quiet (ret a).
Proof. intros h hlp msg []. Qed.

Lemma quiet_osExit {A : Type} (code : Z) : quiet (@osExit A code).
Proof. intros h hlp msg []. Qed.

Lemma quiet_panic {A : Type} (s : string) : quiet (@panic A s).
Proof. intros h hlp msg []. Qed.

Lemma quiet_nilDeref {A : Type} : quiet (@nilDeref A).
Proof. apply quiet_panic. Qed.

Lemma quiet_errPrint (line : string) : quiet (errPrint line).
Proof. intros h hlp msg [H | []]. discriminate H. Qed.

Lemma quiet_madonInit (w : World) (b : bool) : quiet (madonInit w b).
Proof. intros h hlp msg [H | []]. discriminate H. Qed.

Lemma quiet_callErr (w : World) (c : apiCall) : quiet (callErr w c).
Proof. intros h hlp msg [H | []]. discriminate H. Qed.

Lemma quiet_callStatus (w : World) (c : apiCall) : quiet (callStatus w c).
Proof. intros h hlp msg [H | []]. discriminate H. Qed.

Lemma quiet_callContext (w : World) (c : apiCall) : quiet (callContext w c).
Proof. intros h hlp msg [H | []]. discriminate H. Qed.

Lemma quiet_callCard (w : World) (c : apiCall) : quiet (callCard w c).
Proof. intros h hlp msg [H | []]. discriminate H. Qed.

Lemma quiet_callAccounts (w : World) (c : apiCall) : quiet (callAccounts w c).
Proof. intros h hlp msg [H | []]. discriminate H. Qed.

Lemma quiet_callAccount (w : World) (c : apiCall) : quiet (callAccount w c).
Proof. intros h hlp msg [H | []]. discriminate H. Qed.

Lemma quiet_callStatuses (w : World) (c : apiCall) : quiet (callStatuses w c).
Proof. intros h hlp msg [H | []]. discriminate H. Qed.

Lemma quiet_uploadFile (w : World) (path : string) : quiet (uploadFile w path).
Proof. intros h hlp msg [H | []]. discriminate H. Qed.

Lemma quiet_ioReadFile (w : World) (path : string) : quiet (ioReadFile w path).
Proof. intros h hlp msg [H | []]. discriminate H. Qed.

Lemma quiet_ioReadStdin (w : World) : quiet (ioReadStdin w).
Proof. intros h hlp msg [H | []]. discriminate H. Qed.

Lemma quiet_keepOrPanic {A : Type} (keep : Z) (l : list A) :
  quiet (keepOrPanic keep l).
Proof.
  unfold keepOrPanic. destruct (keepFirst keep l);
    [apply quiet_ret | apply quiet_panic].
Qed.

Lemma quiet_bind {A B : Type} (m : proc A) (f : A -> proc B) :
  quiet m -> (forall a, quiet (f a)) -> quiet (bind m f).
Proof.
  intros Hm Hf h hlp msg. unfold bind.
  specialize (Hm h hlp msg). destruct (m h) as [[a | code | s] t1]; simpl in *.
  - specialize (Hf a (h ++ t1) hlp msg).
    destruct (f a (h ++ t1)) as [r t2]. simpl in *.
    rewrite in_app_iff. tauto.
  - exact Hm.
  - exact Hm.
Qed.

Create HintDb quiet.
#[local] Hint Resolve quiet_ret quiet_osExit quiet_panic quiet_nilDeref quiet_errPrint
  quiet_madonInit quiet_callErr quiet_callStatus quiet_callContext
  quiet_callCard quiet_callAccounts quiet_callAccount quiet_callStatuses
  quiet_uploadFile quiet_ioReadFile quiet_ioReadStdin quiet_keepOrPanic : quiet.

(** Splits a goal [quiet m] along the binds and the branches of [m]. *)
Ltac quiet_step :=
  match goal with
  | |- quiet (bind _ _) => apply quiet_bind; [| intro]
  | |- quiet (match ?x with _ => _ end) => destruct x
  | |- quiet (let _ := _ in _) => cbv zeta
  | |- quiet _ => solve [auto with quiet]
  end.

Ltac quiet_auto := repeat quiet_step.

Lemma quiet_mentionsList (w : World) (s : option Status) : quiet (mentionsList w s).
Proof. unfold mentionsList. quiet_auto. Qed.

Lemma quiet_tootReply (w : World) (fl : Flags) (opt : statusOpts.t) (v t : string) :
  quiet (tootReply w fl opt v t).
Proof.
  unfold tootReply. pose proof (quiet_mentionsList w) as Hm. quiet_auto.
Qed.

Lemma quiet_toot (w : World) (fl : Flags) (opt : statusOpts.t) (t : string) :
  quiet (toot w fl opt t).
Proof.
  unfold toot. pose proof (quiet_tootReply w fl opt) as Hr. quiet_auto.
Qed.

Lemma quiet_statusSwitch (w : World) (fl : Flags) (opt : statusOpts.t)
  (subcmd : string) (args : list string) :
  quiet (statusSwitch w fl opt subcmd args).
Proof.
  unfold statusSwitch, statusPost. pose proof (quiet_toot w fl opt) as Ht.
  quiet_auto.
Qed.

Lemma reports_of_quiet (m : proc error) : quiet m -> reports m.
Proof.
  intros Hq h r t Hm hlp msg Hin. exfalso.
  apply (Hq h hlp msg). rewrite Hm. exact Hin.
Qed.

Lemma reports_bind {A : Type} (m : proc A) (f : A -> proc error) :
  quiet m -> (forall a, reports (f a)) -> reports (bind m f).
Proof.
  intros Hq Hf h r t Hb hlp msg Hin. unfold bind in Hb.
  specialize (Hq h hlp msg).
  destruct (m h) as [[a | code | s] t1]; simpl in Hq.
  - destruct (f a (h ++ t1)) as [r2 t2] eqn:Hfa.
    injection Hb as Hr Ht. subst r t.
    apply in_app_iff in Hin. destruct Hin as [Hin | Hin]; [contradiction |].
    destruct (Hf a _ _ _ Hfa hlp msg Hin) as [Hv | [He Hs]].
    + left. exact Hv.
    + right. split; [exact He |]. apply in_app_iff. right. exact Hs.
  - injection Hb as Hr Ht. subst. contradiction.
  - injection Hb as Hr Ht. subst. contradiction.
Qed.

(** The block that ends every listing and status command:
<<
    p, err := getPrinter()
    if err != nil {
        errPrint("Error: %s", err.Error())
        os.Exit(1)
    }
    return p.printObj(obj)
>> *)
Lemma reports_printing (w : World) (obj : object) :
  reports (pe <- getPrinter w ;;
           match snd pe with
           | Some msg => errPrint ("Error: " +++ msg) ;; osExit 1
           | None => printObj (fst pe) obj
           end).
Proof.
  intros h r t Hb hlp msg Hin. unfold bind, getPrinter in Hb.
  destruct (getPrinterResult w h) as [p [e |]]; simpl in Hb.
  - injection Hb as Hr Ht. subst r t. right. split; [reflexivity |].
    destruct Hin as [Hin | [Hin | []]]; [| discriminate Hin].
    injection Hin as _ Hmsg. subst e. right. left. reflexivity.
  - destruct p as [pr |]; simpl in Hb.
    + destruct (pr obj) as [text e]. simpl in Hb.
      injection Hb as Hr Ht. subst r t.
      destruct Hin as [Hin | Hin]; [discriminate Hin |].
      destruct e as [e |]; simpl in Hin; [| contradiction].
      destruct Hin as [Hin | []]. injection Hin as _ Hmsg. subst e.
      left. reflexivity.
    + injection Hb as Hr Ht. subst t. contradiction.
Qed.

Lemma reports_checkOutputFormat (w : World) : reports (checkOutputFormat w).
Proof.
  intros h r t Hb hlp msg Hin. unfold checkOutputFormat in Hb.
  injection Hb as Hr Ht. subst r t.
  destruct (checkOutputFormatResult w h) as [e |]; simpl in Hin; [| contradiction].
  destruct Hin as [Hin | []]. injection Hin as _ Hmsg. subst e.
  left. reflexivity.
Qed.

(** Splits a goal [reports m] along the binds and the branches of [m]. *)
Ltac reports_step :=
  match goal with
  | |- reports (bind (getPrinter _) _) => apply reports_printing
  | |- reports (bind _ _) => apply reports_bind; [quiet_auto | intro]
  | |- reports (match ?x with _ => _ end) => destruct x
  | |- reports (let _ := _ in _) => cbv zeta
  | |- reports _ => solve [apply reports_of_quiet; quiet_auto]
  end.

Ltac reports_auto := repeat reports_step.

Lemma reports_suggestionsGetRunE (w : World) (fl : Flags) (args : list string) :
  reports (suggestionsGetRunE w fl args).
Proof. unfold suggestionsGetRunE. reports_auto. Qed.

Lemma quiet_deleteSuggestions (w : World) (ids : list string) (err : error) :
  quiet (deleteSuggestions w ids err).
Proof.
  revert err. induction ids as [| id ids IH]; intros err; simpl; quiet_auto.
Qed.

Lemma reports_suggestionsDeleteRunE (w : World) (fl : Flags) (args : list string) :
  reports (suggestionsDeleteRunE w fl args).
Proof.
  apply reports_of_quiet. unfold suggestionsDeleteRunE.
  pose proof (quiet_deleteSuggestions w) as Hd. quiet_auto.
Qed.

Lemma reports_timelineRunE (w : World) (fl : Flags) (args : list string) :
  reports (timelineRunE w fl args).
Proof. unfold timelineRunE. reports_auto. Qed.

Lemma reports_statusSubcommandRunE (w : World) (fl : Flags) (opt : statusOpts.t)
  (subcmd : string) (args : list string) :
  reports (statusSubcommandRunE w fl opt subcmd args).
Proof.
  unfold statusSubcommandRunE.
  apply reports_bind; [apply quiet_statusSwitch | intro sw].
  reports_auto.
Qed.

Lemma reports_tootAliasRunE (w : World) (fl : Flags) (args : list string) :
  reports (tootAliasRunE w fl args).
Proof.
  unfold tootAliasRunE.
  apply reports_bind; [quiet_auto | intro e].
  destruct e; [apply reports_of_quiet; quiet_auto |].
  apply reports_statusSubcommandRunE.
Qed.

Lemma reports_statusPersistentPreRunE (w : World) (fl : Flags) (name : string)
  (args : list string) :
  reports (statusPersistentPreRunE w fl name args).
Proof. apply reports_of_quiet. unfold statusPersistentPreRunE. quiet_auto. Qed.

Lemma quiet_initConfig (cfg : Config) : quiet (initConfig cfg).
Proof. unfold initConfig. quiet_auto. Qed.

Lemma reports_RunE (w : World) (fl : Flags) (c : command) (run : runFn)
  (args : list string) :
  RunE w fl c = Some run -> reports (run c args).
Proof.
  intros H. destruct c; simpl in H; try discriminate H;
    injection H as H; subst run;
    first [ apply reports_suggestionsGetRunE
          | apply reports_suggestionsDeleteRunE
          | apply reports_tootAliasRunE
          | apply reports_timelineRunE
          | apply reports_statusSubcommandRunE ].
Qed.

Lemma reports_persistentHook (w : World) (fl : Flags) (c : command)
  (hook : runFn) (args : list string) :
  persistentHook w fl treeDepth c = Some hook -> reports (hook c args).
Proof.
  intros H. destruct c; simpl in H; injection H as H; subst hook;
    first [ apply reports_checkOutputFormat
          | apply reports_statusPersistentPreRunE ].
Qed.

Lemma reports_hook_or_none (w : World) (fl : Flags) (c : command)
  (args : list string) :
  reports (match persistentHook w fl treeDepth c with
           | Some hook => hook c args
           | None => ret None
           end).
Proof.
  destruct (persistentHook w fl treeDepth c) as [hook |] eqn:Hp.
  - apply (reports_persistentHook w fl c hook args Hp).
  - apply reports_of_quiet, quiet_ret.
Qed.

(** cobra's [execute] passes a raised error on, unless the command has
    already reported it and stopped. *)
Lemma execute_reports (w : World) (fl : Flags) (cfg : Config) (c : command)
  (args : list string) (h : trace) (r : result executed) (t : trace)
  (hlp : helper) (msg : string) :
  execute w fl cfg c args h = (r, t) ->
  In (Raised hlp msg) t ->
  r = Val (Ran (Some msg)) \/ (r = Exit 1 /\ In (Stderr ("Error: " +++ msg)) t).
Proof.
  unfold execute. intros He Hin.
  destruct (RunE w fl c) as [run |] eqn:HR.
  2:{ injection He as _ Ht. subst t. contradiction. }
  pose proof (reports_RunE w fl c run args HR) as Hrun.
  pose proof (reports_hook_or_none w fl c args) as Hhook.
  set (hookpart := match persistentHook w fl treeDepth c with
                   | Some hook => hook c args
                   | None => ret None
                   end) in *.
  unfold bind at 1 in He.
  pose proof (quiet_initConfig cfg h hlp msg) as Hq0.
  destruct (initConfig cfg h) as [[[] | code | s] t0]; simpl in Hq0.
  2,3: injection He as _ Ht; subst t; contradiction.
  unfold bind at 1 in He.
  destruct (hookpart (h ++ t0)) as [[e | code | s] t1] eqn:Hh.
  - destruct e as [e |].
    + (* the hook returned an error *)
      simpl in He. injection He as Hr Ht. subst r t.
      rewrite app_nil_r in Hin.
      apply in_app_iff in Hin. destruct Hin as [Hin | Hin]; [contradiction |].
      destruct (Hhook _ _ _ Hh hlp msg Hin) as [Hv | [Hx _]].
      * injection Hv as Hv. subst e. left. reflexivity.
      * discriminate Hx.
    + (* the hook passed; the run function decides *)
      unfold bind in He.
      destruct (run c args ((h ++ t0) ++ t1)) as [[e | code | s] t2] eqn:Hr2;
        simpl in He; injection He as Hr Ht; subst r t.
      all: apply in_app_iff in Hin; destruct Hin as [Hin | Hin]; [contradiction |].
      all: try rewrite app_nil_r in Hin.
      all: apply in_app_iff in Hin; destruct Hin as [Hin | Hin].
      all: try (destruct (Hhook _ _ _ Hh hlp msg Hin) as [Hv | [Hx _]];
                discriminate).
      * destruct (Hrun _ _ _ Hr2 hlp msg Hin) as [Hv | [Hx _]];
          [| discriminate Hx].
        injection Hv as Hv. subst e. left. reflexivity.
      * destruct (Hrun _ _ _ Hr2 hlp msg Hin) as [Hv | [Hx Hs]];
          [discriminate Hv |].
        injection Hx as Hx. subst code. right. split; [reflexivity |].
        apply in_app_iff. right. apply in_app_iff. right. exact Hs.
      * destruct (Hrun _ _ _ Hr2 hlp msg Hin) as [Hv | [Hx _]]; discriminate.
  - injection He as Hr Ht. subst r t.
    apply in_app_iff in Hin. destruct Hin as [Hin | Hin]; [contradiction |].
    destruct (Hhook _ _ _ Hh hlp msg Hin) as [Hv | [Hx Hs]]; [discriminate Hv |].
    injection Hx as Hx. subst code. right. split; [reflexivity |].
    apply in_app_iff. right. exact Hs.
  - injection He as Hr Ht. subst r t.
    apply in_app_iff in Hin. destruct Hin as [Hin | Hin]; [contradiction |].
    destruct (Hhook _ _ _ Hh hlp msg Hin) as [Hv | [Hx _]]; discriminate.
Qed.

(** Breaks membership in a trace built with [++] and [::] into its cases
    and drops those that equate different events. *)
Ltac in_cases H :=
  rewrite ?in_app_iff in H; simpl in H;
  repeat match type of H with
         | _ \/ _ => destruct H as [H | H]
         end;
  try contradiction; try discriminate H.

(** C4: whenever the format check, the printer construction or the
    printing returns an error in a run of any command, the run writes
    the line [Error: <message>] to the standard error stream and the
    process ends with a status other than 0. *)
Theorem rendering_errors_are_reported
  (w : World) (fl : Flags) (cfg : Config) (c : command) (args : list string)
  (r : result unit) (t : trace) (hlp : helper) (msg : string) :
  runProcess w fl cfg c args = (r, t) ->
  In (Raised hlp msg) t ->
  exitStatus r <> 0 /\ In (Stderr ("Error: " +++ msg)) t.
Proof.
  unfold runProcess, Execute, cobraExecute. intros Hp Hin.
  unfold bind at 1 2 in Hp.
  destruct (execute w fl cfg c args []) as [[x | code | s] t1] eqn:He.
  - destruct x as [| [e |]]; simpl in Hp; injection Hp as Hr Ht; subst r t.
    + (* help: execute raised nothing *)
      in_cases Hin.
      destruct (execute_reports _ _ _ _ _ _ _ _ _ _ He Hin) as [Hv | [Hx _]];
        discriminate.
    + (* an error came back: cobra and Execute print it *)
      split; [simpl; discriminate |].
      in_cases Hin.
      destruct (execute_reports _ _ _ _ _ _ _ _ _ _ He Hin) as [Hv | [Hx _]];
        [| discriminate Hx].
      injection Hv as Hv. subst e.
      rewrite !in_app_iff. simpl. tauto.
    + in_cases Hin.
      destruct (execute_reports _ _ _ _ _ _ _ _ _ _ He Hin) as [Hv | [Hx _]];
        discriminate.
  - injection Hp as Hr Ht. subst r t.
    destruct (execute_reports _ _ _ _ _ _ _ _ _ _ He Hin) as [Hv | [Hx Hs]];
      [discriminate Hv |].
    injection Hx as Hx. subst code. split; [simpl; discriminate | exact Hs].
  - injection Hp as Hr Ht. subst r t.
    destruct (execute_reports _ _ _ _ _ _ _ _ _ _ He Hin) as [Hv | [Hx _]];
      discriminate.
Qed.

Lemma rendering_errors_are_reported_witness :
  exitStatus (@Exit unit 1) <> 0 /\
  In (Stderr ("Error: " +++ bogusFormat))
     [Init true; Net (GetStatus (IntID 1)); Raised HgetPrinter bogusFormat;
      Stderr ("Error: " +++ bogusFormat)].
Proof.
  apply (rendering_errors_are_reported bogusWorld (statusFlags 1) noConfig
           statusShow [] (Exit 1)
           [Init true; Net (GetStatus (IntID 1)); Raised HgetPrinter bogusFormat;
            Stderr ("Error: " +++ bogusFormat)]
           HgetPrinter bogusFormat).
  - reflexivity.
  - simpl. right. right. left. reflexivity.
Defined.

(** ** Visibility of a reply *)

Lemma inheritedVisibility_not_public (v : string) :
  inheritedVisibility v <> "public".
Proof.
  unfold inheritedVisibility.
  destruct (String.eqb_spec v "public") as [H | H]; [discriminate | exact H].
Qed.

(** What the reply takes over: the visibility of the original, except
    that "public" becomes "unlisted". *)
Lemma inheritedVisibility_cases (v : string) :
  (v <> "public" -> inheritedVisibility v = v) /\
  (v = "public" -> inheritedVisibility v = "unlisted").
Proof.
  unfold inheritedVisibility.
  destruct (String.eqb_spec v "public") as [H | H]; split; intros H';
    try reflexivity; contradiction.
Qed.

Ltac stuck_scrutinee H :=
  match type of H with
  | context [match ?x with _ => _ end] =>
      lazymatch x with
      | context [match _ with _ => _ end] => fail
      | _ => destruct x eqn:?
      end
  end.

(** C9: in a reply ([--in-reply-to] set) with [--same-visibility] and no
    [--visibility] on the command line, every status [toot] posts has the
    visibility of the status it answers: that very visibility when the
    original is not public, and "unlisted" when the original is public;
    it is never "public". *)
Theorem reply_inherits_visibility
  (w : World) (fl : Flags) (opt : statusOpts.t) (tootText : string)
  (h : trace) (r : result (option Status * error)) (t : trace)
  (p : PostStatusParams) :
  statusOpts.inReplyToID opt <> "" ->
  statusOpts.sameVisibility opt = true ->
  tootVisibilityChanged fl = false ->
  statusPostVisibilityChanged fl = false ->
  toot w fl opt tootText h = (r, t) ->
  In (Net (PostStatus p)) t ->
  exists st,
    fst (apiStatus w h (GetStatus (StrID (statusOpts.inReplyToID opt)))) = Some st /\
    (Visibility st <> "public" -> postVisibility p = Visibility st) /\
    (Visibility st = "public" -> postVisibility p = "unlisted") /\
    postVisibility p <> "public".
Proof.
  intros Hreply Hsame Hc1 Hc2 Ht Hin.
  unfold toot, tootReply in Ht. rewrite Hsame, Hc1, Hc2 in Ht.
  apply String.eqb_neq in Hreply. rewrite Hreply in Ht.
  cbn [negb andb orb] in Ht.
  unfold mentionsList, bind, callStatus, callAccount, uploadFile, ret, nilDeref, panic in Ht.
  repeat (stuck_scrutinee Ht; cbn [fst snd] in Ht).
  all: injection Ht as Hr Htr; subst r t.
  all: in_cases Hin.
  all: injection Hin as Hp; subst p; cbn [postVisibility].
  all: eexists; split; [reflexivity |].
  all: match goal with
       | |- context [inheritedVisibility ?v] =>
           destruct (inheritedVisibility_cases v) as [Hkeep Hturn]
       end.
  all: split; [exact Hkeep |]; split; [exact Hturn |].
  all: apply inheritedVisibility_not_public.
Qed.

Lemma reply_inherits_visibility_witness :
  (exists st,
     fst (apiStatus privateOriginalWorld []
            (GetStatus (StrID (statusOpts.inReplyToID replyOpts)))) = Some st /\
     (Visibility st <> "public" -> postVisibility privateReplyPost = Visibility st) /\
     (Visibility st = "public" -> postVisibility privateReplyPost = "unlisted") /\
     postVisibility privateReplyPost <> "public") /\
  (exists st,
     fst (apiStatus calmWorld []
            (GetStatus (StrID (statusOpts.inReplyToID replyOpts)))) = Some st /\
     (Visibility st <> "public" -> postVisibility replyPost = Visibility st) /\
     (Visibility st = "public" -> postVisibility replyPost = "unlisted") /\
     postVisibility replyPost <> "public").
Proof.
  split.
  - apply (reply_inherits_visibility privateOriginalWorld noFlags replyOpts
             "hi" [] (Val (Some privateStatus, None))
             [Net (GetStatus (StrID "99")); Net (PostStatus privateReplyPost)]
             privateReplyPost).
    + simpl. discriminate.
    + reflexivity.
    + reflexivity.
    + reflexivity.
    + reflexivity.
    + simpl. right. left. reflexivity.
  - apply (reply_inherits_visibility calmWorld noFlags replyOpts "hi" []
             (Val (Some helloStatus, None))
             [Net (GetStatus (StrID "99")); Net (PostStatus replyPost)]
             replyPost).
    + simpl. discriminate.
    + reflexivity.
    + reflexivity.
    + reflexivity.
    + reflexivity.
    + simpl. right. left. reflexivity.
Defined.

(** Such a reply is posted: with a text, a valid visibility setting, no
    media and no mentions to add, [toot] fetches the original status and
    sends the post with the visibility of the original, "unlisted" in
    place of "public", and returns the server's answer to the post. *)
Lemma reply_is_posted
  (w : World) (fl : Flags) (opt : statusOpts.t) (tootText : string)
  (h : trace) (st : Status) :
  statusOpts.inReplyToID opt <> "" ->
  statusOpts.sameVisibility opt = true ->
  tootVisibilityChanged fl = false ->
  statusPostVisibilityChanged fl = false ->
  statusOpts.visibility opt = "" ->
  validVisibility (default_visibility w) = true ->
  splitIDs w (statusOpts.mediaIDs opt) = ([], None) ->
  tootText <> "" ->
  statusOpts.addMentions opt = false ->
  statusOpts.mediaFilePath opt = "" ->
  apiStatus w h (GetStatus (StrID (statusOpts.inReplyToID opt))) = (Some st, None) ->
  exists vis,
    (Visibility st <> "public" -> vis = Visibility st) /\
    (Visibility st = "public" -> vis = "unlisted") /\
    let original := GetStatus (StrID (statusOpts.inReplyToID opt)) in
    let post := PostStatus
                  (mkPostStatusParams tootText (statusOpts.inReplyToID opt) []
                     (statusOpts.sensitive opt) (statusOpts.spoiler opt) vis) in
    toot w fl opt tootText h
      = (Val (apiStatus w (h ++ [Net original]) post), [Net original; Net post]).
Proof.
  intros Hreply Hsame Hc1 Hc2 Hvis Hvalid Hsplit Htext Hment Hfile Horig.
  exists (inheritedVisibility (Visibility st)).
  destruct (inheritedVisibility_cases (Visibility st)) as [Hkeep Hturn].
  split; [exact Hkeep |]. split; [exact Hturn |].
  intros original post.
  unfold toot, tootReply.
  rewrite Hsame, Hc1, Hc2, Hvis, Hsplit, Hment, Hfile.
  apply String.eqb_neq in Hreply, Htext. rewrite Hreply, Htext.
  cbn [negb andb orb fst snd isErr String.eqb].
  assert (Hv : validVisibility
                 (if negb (default_visibility w =? "")%string
                  then default_visibility w else "") = true).
  { destruct (default_visibility w =? "")%string; [reflexivity | exact Hvalid]. }
  rewrite Hv, andb_false_r. cbn [negb].
  subst original post. unfold bind, callStatus, ret. rewrite Horig.
  cbn [fst snd]. rewrite !app_nil_r. reflexivity.
Qed.

Lemma reply_is_posted_witness :
  exists vis,
    (Visibility privateStatus <> "public" -> vis = Visibility privateStatus) /\
    (Visibility privateStatus = "public" -> vis = "unlisted") /\
    let original := GetStatus (StrID (statusOpts.inReplyToID replyOpts)) in
    let post := PostStatus
                  (mkPostStatusParams "hi" (statusOpts.inReplyToID replyOpts) []
                     (statusOpts.sensitive replyOpts) (statusOpts.spoiler replyOpts)
                     vis) in
    toot privateOriginalWorld noFlags replyOpts "hi" []
      = (Val (apiStatus privateOriginalWorld ([] ++ [Net original]) post),
         [Net original; Net post]).
Proof.
  apply (reply_is_posted privateOriginalWorld noFlags replyOpts "hi" []
           privateStatus);
    try reflexivity; simpl; discriminate.
Defined.

(** ** The format check and the status commands *)

(** Outside the status commands the hook of the root command is the one
    that runs: an output format the check refuses stops the process with
    status 255 before the command sends anything. *)
Lemma root_hook_stops_before_any_request
  (w : World) (fl : Flags) (cfg : Config) (c : command) (args : list string)
  (t0 : trace) (msg : string) :
  In c [suggestionsCmd; suggestionsGetSubcommand; suggestionsDeleteSubcommand;
        tootAliasCmd; timelineCmd] ->
  initConfig cfg [] = (Val tt, t0) ->
  checkOutputFormatResult w t0 = Some msg ->
  runProcess w fl cfg c args
    = (Exit (-1),
       t0 ++ [Raised HcheckOutputFormat msg; Stderr ("Error: " +++ msg);
              Stderr (usageString w (Name c)); Stderr ("Error: " +++ msg)]).
Proof.
  intros Hc Hcfg Hfmt.
  simpl in Hc.
  repeat (destruct Hc as [Hc | Hc]; [subst c |]); [.. | contradiction].
  all: unfold runProcess, Execute, cobraExecute, execute; cbn [RunE persistentHook
         treeDepth PersistentPreRunE Parent].
  all: unfold bind at 1 2 3; rewrite Hcfg; cbn [app].
  all: unfold bind at 1, checkOutputFormat; rewrite Hfmt.
  all: cbn; rewrite ?app_nil_r, <- ?app_assoc; reflexivity.
Qed.

Lemma root_hook_stops_before_any_request_witness :
  runProcess bogusWorld noFlags noConfig timelineCmd []
    = (Exit (-1),
       [] ++ [Raised HcheckOutputFormat bogusFormat;
              Stderr ("Error: " +++ bogusFormat);
              Stderr (usageString bogusWorld (Name timelineCmd));
              Stderr ("Error: " +++ bogusFormat)]).
Proof.
  apply (root_hook_stops_before_any_request bogusWorld noFlags noConfig
           timelineCmd [] [] bogusFormat).
  - simpl. tauto.
  - reflexivity.
  - reflexivity.
Defined.

(** Under the [status] command its own hook is the first one found, so
    the root's format check does not run: what it would answer changes
    nothing in the run of a status subcommand. *)
Lemma status_commands_skip_format_check
  (w : World) (fl : Flags) (cfg : Config) (c : command) (args : list string)
  (e : trace -> error) :
  Parent c = Some statusCmd ->
  runProcess (withFormatCheck e w) fl cfg c args = runProcess w fl cfg c args.
Proof.
  intros Hc. destruct c; try discriminate Hc; reflexivity.
Qed.

Lemma status_commands_skip_format_check_witness :
  runProcess (withFormatCheck (fun _ => Some bogusFormat) calmWorld)
    (statusFlags 1) noConfig statusDelete []
  = runProcess calmWorld (statusFlags 1) noConfig statusDelete [].
Proof.
  apply (status_commands_skip_format_check calmWorld (statusFlags 1) noConfig
           statusDelete [] (fun _ => Some bogusFormat)).
  reflexivity.
Defined.

(** C1 (as the code has it): [status --status-id 1 delete --output bogus],
    an invocation whose format the check refuses, logs in, sends the
    delete request and ends with status 0; [status show] with the same
    format fails only after its request, when the printer is built. *)
Theorem status_delete_runs_with_invalid_output_format :
  checkOutputFormatResult bogusWorld [] = Some bogusFormat /\
  runProcess bogusWorld (statusFlags 1) noConfig statusDelete []
    = (Val tt, [Init true; Net (DeleteStatus 1)]) /\
  runProcess bogusWorld (statusFlags 1) noConfig statusShow []
    = (Exit 1, [Init true; Net (GetStatus (IntID 1));
                Raised HgetPrinter bogusFormat;
                Stderr ("Error: " +++ bogusFormat)]).
Proof. repeat split; reflexivity. Qed.

(** ** Rendering a list of records *)

Module RenderFacts.
Import Render.

Lemma lines_line (a rest : string) :
  oneLine a = true ->
  lines (a +++ String newline rest) = a :: lines rest.
Proof.
  induction a as [| c a IH]; intros H; simpl.
  - reflexivity.
  - simpl in H. apply andb_prop in H. destruct H as [Hc Ha].
    apply negb_true_iff in Hc. rewrite Hc, (IH Ha). reflexivity.
Qed.

Lemma append_assoc (a b c : string) : (a +++ b) +++ c = a +++ (b +++ c).
Proof. induction a as [| x a IH]; simpl; [reflexivity | rewrite IH; reflexivity]. Qed.

Lemma append_empty_r (a : string) : a +++ "" = a.
Proof. induction a as [| x a IH]; simpl; [reflexivity | rewrite IH; reflexivity]. Qed.

Lemma lines_unlines (ls : list string) (rest : string) :
  forallb oneLine ls = true ->
  lines (unlines ls +++ rest) = ls ++ lines rest.
Proof.
  induction ls as [| l ls IH]; intros H; simpl.
  - reflexivity.
  - simpl in H. apply andb_prop in H. destruct H as [Hl Hls].
    rewrite append_assoc. simpl. rewrite (lines_line _ _ Hl), (IH Hls).
    reflexivity.
Qed.

Lemma groups_block (ls rest : list string) :
  forallb (fun l => negb (l =? "")%string) ls = true ->
  groups (ls ++ "" :: rest) = ls :: groups rest.
Proof.
  induction ls as [| l ls IH]; intros H; simpl.
  - reflexivity.
  - simpl in H. apply andb_prop in H. destruct H as [Hl Hls].
    apply negb_true_iff in Hl. rewrite Hl, (IH Hls). reflexivity.
Qed.

(** A text brought onto one line has no line break and keeps its
    length. *)
Lemma onOneLine_oneLine (s : string) : oneLine (onOneLine s) = true.
Proof.
  induction s as [| c s IH]; simpl; [reflexivity |].
  rewrite IH, andb_true_r.
  destruct (Ascii.eqb_spec c newline) as [E | N]; [reflexivity |].
  apply negb_true_iff. apply Ascii.eqb_neq. exact N.
Qed.

Lemma onOneLine_not_empty (c : ascii) (s : string) :
  negb (onOneLine (String c s) =? "")%string = true.
Proof. reflexivity. Qed.

Section Plain.

Variable display : value -> string.

Lemma fieldLine_oneLine (f : string * value) :
  oneLine (fieldLine display f) = true.
Proof. apply onOneLine_oneLine. Qed.

Lemma fieldLine_not_empty (f : string * value) :
  negb (fieldLine display f =? "")%string = true.
Proof. unfold fieldLine. destruct (fst f); apply onOneLine_not_empty. Qed.

Lemma plainLines_oneLine (r : record) :
  forallb oneLine (plainLines display r) = true.
Proof.
  unfold plainLines. induction (fieldList (fields r)) as [| f fs IH]; simpl.
  - reflexivity.
  - rewrite fieldLine_oneLine, IH. reflexivity.
Qed.

Lemma plainLines_not_empty (r : record) :
  forallb (fun l => negb (l =? "")%string) (plainLines display r) = true.
Proof.
  unfold plainLines. induction (fieldList (fields r)) as [| f fs IH]; simpl.
  - reflexivity.
  - rewrite fieldLine_not_empty, IH. reflexivity.
Qed.

Lemma lines_of_record (r : record) :
  negb (isEmpty (plainLines display r)) = hasField r.
Proof.
  unfold plainLines, hasField. destruct (fields r); reflexivity.
Qed.

(** The blocks of the text of one record: its lines, if it has any. *)
Lemma blocks_of_plain_record (r : record) :
  blocks (plainRecord display r)
    = if hasField r then [plainLines display r] else [].
Proof.
  unfold blocks, plainRecord.
  rewrite <- (append_empty_r (unlines (plainLines display r))).
  rewrite (lines_unlines _ "" (plainLines_oneLine r)). simpl lines.
  rewrite (groups_block _ [] (plainLines_not_empty r)). simpl.
  rewrite lines_of_record. destruct (hasField r); reflexivity.
Qed.

(** The blocks of the joined texts: one for each record that has a
    field, in the order of the records. *)
Lemma blocks_of_plain_list (rs : list record) :
  blocks (String.concat nl (map (plainRecord display) rs))
    = map (plainLines display) (filter hasField rs).
Proof.
  induction rs as [| r rs IH].
  - reflexivity.
  - change (map (plainRecord display) (r :: rs))
      with (plainRecord display r :: map (plainRecord display) rs).
    destruct rs as [| r' rs].
    + simpl String.concat. rewrite blocks_of_plain_record.
      simpl. destruct (hasField r); reflexivity.
    + change (String.concat nl (plainRecord display r :: map (plainRecord display) (r' :: rs)))
        with (plainRecord display r +++ nl
              +++ String.concat nl (map (plainRecord display) (r' :: rs))).
      unfold blocks in IH |- *.
      unfold plainRecord at 1. rewrite (lines_unlines _ _ (plainLines_oneLine r)).
      unfold nl at 1.
      set (X := String.concat nl (map (plainRecord display) (r' :: rs))) in *.
      change (String newline "" +++ X) with ("" +++ String newline X).
      rewrite (lines_line "" X eq_refl).
      rewrite (groups_block _ _ (plainLines_not_empty r)).
      simpl filter. rewrite lines_of_record, IH.
      destruct (hasField r); reflexivity.
Qed.

End Plain.

Lemma renderEach_each (one : record -> rendered) (rs : list record)
  (texts : list string) :
  renderEach one rs = inl texts <->
  Forall2 (fun r text => one r = inl text) rs texts.
Proof.
  split.
  - revert texts. induction rs as [| r rs IH]; intros texts H; simpl in H.
    + injection H as H. subst texts. constructor.
    + destruct (one r) as [text | e] eqn:Hr; [| discriminate H].
      destruct (renderEach one rs) as [ts | e]; [| discriminate H].
      injection H as H. subst texts. constructor; [exact Hr | apply IH; reflexivity].
  - intros H. induction H as [| r text rs texts Hr _ IH]; simpl.
    + reflexivity.
    + rewrite Hr, IH. reflexivity.
Qed.

(** A list fails with the error of one of its elements. *)
Lemma renderEach_error (one : record -> rendered) (rs : list record)
  (e : renderError) :
  renderEach one rs = inr e -> exists r, In r rs /\ one r = inr e.
Proof.
  induction rs as [| r rs IH]; intros H; simpl in H; [discriminate H |].
  destruct (one r) as [text | e'] eqn:Hr.
  - destruct (renderEach one rs) as [ts | e'']; [discriminate H |].
    destruct (IH H) as [r' [Hin Hr']]. exists r'. split; [right; exact Hin | exact Hr'].
  - injection H as H. subst e'. exists r. split; [left; reflexivity | exact Hr].
Qed.

Lemma renderEach_total (f : record -> string) (rs : list record) :
  renderEach (fun r => inl (f r)) rs = inl (map f rs).
Proof.
  induction rs as [| r rs IH]; simpl; [reflexivity | rewrite IH; reflexivity].
Qed.

Section Lists.

Variable display : value -> string.
Variable RenderTemplate : string -> record -> bool -> rendered.
Variable themes : list Theme.
Variable templateFile : string -> string.
Variable colorDecision : bool.

Let R := Render display RenderTemplate themes templateFile colorDecision.

Lemma plain_list (req : RenderRequest) (rs : list record) :
  format req = "plain" ->
  R req (List rs) = inl (String.concat nl (map (plainRecord display) rs)).
Proof.
  intros H. unfold R, Render, validate. rewrite H. simpl.
  rewrite renderEach_total. reflexivity.
Qed.

Lemma plain_single (req : RenderRequest) (r : record) :
  format req = "plain" -> R req (Single r) = inl (plainRecord display r).
Proof. intros H. unfold R, Render, validate. rewrite H. reflexivity. Qed.


End Lists.


End RenderFacts.

(** ** The serializers decode to what was encoded *)

Module CodecFacts.
Import Render.

(** *** Quoted strings *)

Lemma unquote_quoteChar (c : ascii) (tail x rest : string) :
  unquoteChars tail = Some (x, rest) ->
  unquoteChars (quoteChar c tail) = Some (String c x, rest).
Proof.
  intros H.
  destruct c as [b0 b1 b2 b3 b4 b5 b6 b7].
  destruct b0, b1, b2, b3, b4, b5, b6, b7;
    cbv in H |- *; rewrite H; reflexivity.
Qed.

Lemma unquote_quoteChars (s rest : string) :
  unquoteChars (quoteChars s rest) = Some (s, rest).
Proof.
  induction s as [| c s IH]; simpl.
  - reflexivity.
  - apply unquote_quoteChar. exact IH.
Qed.

(** *** Numbers *)

Lemma digits_uint (d : Decimal.uint) : allDigits (NilEmpty.string_of_uint d) = true.
Proof. induction d; simpl; try rewrite IHd; reflexivity. Qed.

Lemma digits_uint_zero (d : Decimal.uint) :
  allDigits (NilZero.string_of_uint d) = true.
Proof. destruct d; try reflexivity; apply (digits_uint (_ d)). Qed.

Lemma digit_is_plain (c : ascii) :
  ((48 <=? nat_of_ascii c)%nat && (nat_of_ascii c <=? 57)%nat) = true ->
  isNumChar c = true /\ (c =? ".")%char = false /\ (c =? "-")%char = false.
Proof.
  destruct c as [b0 b1 b2 b3 b4 b5 b6 b7].
  destruct b0, b1, b2, b3, b4, b5, b6, b7; intros H;
    try discriminate H; repeat split; reflexivity.
Qed.

Lemma digits_allNum (s : string) : allDigits s = true -> allNum s = true.
Proof.
  induction s as [| c s IH]; simpl; [reflexivity |].
  intros H. apply andb_prop in H. destruct H as [Hc Hs].
  destruct (digit_is_plain c Hc) as [Hn _]. rewrite Hn, (IH Hs). reflexivity.
Qed.

Lemma digits_noPoint (s : string) : allDigits s = true -> noPoint s = true.
Proof.
  induction s as [| c s IH]; simpl; [reflexivity |].
  intros H. apply andb_prop in H. destruct H as [Hc Hs].
  destruct (digit_is_plain c Hc) as (_ & Hp & _). rewrite Hp, (IH Hs). reflexivity.
Qed.

Lemma allNum_app (a b : string) :
  allNum a = true -> allNum b = true -> allNum (a +++ b) = true.
Proof.
  induction a as [| c a IH]; simpl; [auto |].
  intros H Hb. apply andb_prop in H. destruct H as [Hc Ha].
  rewrite Hc, (IH Ha Hb). reflexivity.
Qed.

Lemma noPoint_int (d : Decimal.int) : noPoint (NilZero.string_of_int d) = true.
Proof.
  destruct d as [d | d]; unfold NilZero.string_of_int.
  - apply digits_noPoint, digits_uint_zero.
  - simpl. apply digits_noPoint, digits_uint_zero.
Qed.

Lemma allNum_int (d : Decimal.int) : allNum (NilZero.string_of_int d) = true.
Proof.
  destruct d as [d | d]; unfold NilZero.string_of_int.
  - apply digits_allNum, digits_uint_zero.
  - simpl. apply digits_allNum, digits_uint_zero.
Qed.

Lemma spanNum_app (a rest : string) :
  allNum a = true -> numberEnds rest = true ->
  spanNum (a +++ rest) = (a, rest).
Proof.
  intros Ha Hr. induction a as [| c a IH]; cbn [String.append spanNum].
  - destruct rest as [| c r]; [reflexivity |].
    cbn [numberEnds] in Hr. apply negb_true_iff in Hr.
    cbn [spanNum]. rewrite Hr. reflexivity.
  - cbn [allNum] in Ha. apply andb_prop in Ha. destruct Ha as [Hc Ha].
    rewrite Hc, (IH Ha). reflexivity.
Qed.

Lemma splitPoint_none (a : string) :
  noPoint a = true -> splitPoint a = (a, None).
Proof.
  induction a as [| c a IH]; simpl; [reflexivity |].
  intros H. apply andb_prop in H. destruct H as [Hc Ha].
  apply negb_true_iff in Hc. rewrite Hc, (IH Ha). reflexivity.
Qed.

Lemma splitPoint_app (a b : string) :
  noPoint a = true -> splitPoint (a +++ String "." b) = (a, Some b).
Proof.
  induction a as [| c a IH]; simpl; [reflexivity |].
  intros H. apply andb_prop in H. destruct H as [Hc Ha].
  apply negb_true_iff in Hc. rewrite Hc, (IH Ha). reflexivity.
Qed.

Lemma to_int_proper (n : Z) :
  Z.to_int n <> Decimal.Pos Decimal.Nil /\ Z.to_int n <> Decimal.Neg Decimal.Nil.
Proof.
  destruct n; simpl; split; try discriminate;
    intros H; injection H as H;
    exact (DecimalPos.Unsigned.to_uint_nonnil _ H).
Qed.

Lemma to_uint_proper (w : N) : N.to_uint w <> Decimal.Nil.
Proof.
  destruct w as [| p]; simpl; [discriminate |].
  apply DecimalPos.Unsigned.to_uint_nonnil.
Qed.

Lemma printNumber_numeral (n : number) (rest : string) :
  printNumber n rest = numeral n +++ rest.
Proof.
  unfold numeral. destruct n as [z | negative whole fraction]; cbn [printNumber].
  - rewrite RenderFacts.append_empty_r. reflexivity.
  - rewrite !RenderFacts.append_assoc. reflexivity.
Qed.

Lemma numeral_fraction (negative : bool) (whole : N) (fraction : positive) :
  numeral (NFrac negative whole fraction)
    = ((if negative then "-" else "")
       +++ NilZero.string_of_uint (N.to_uint whole))
      +++ String "." (NilEmpty.string_of_uint (Pos.to_little_uint fraction)).
Proof.
  unfold numeral. cbn [printNumber].
  rewrite RenderFacts.append_empty_r, <- RenderFacts.append_assoc. reflexivity.
Qed.

Lemma allNum_numeral (n : number) : allNum (numeral n) = true.
Proof.
  destruct n as [z | negative whole fraction].
  - unfold numeral. cbn [printNumber]. rewrite RenderFacts.append_empty_r.
    apply allNum_int.
  - rewrite numeral_fraction. apply allNum_app.
    + apply allNum_app; [destruct negative; reflexivity |].
      apply digits_allNum, digits_uint_zero.
    + simpl. apply digits_allNum, digits_uint.
Qed.

(** The numeral of a number stands for that number. *)
Lemma numberOf_numeral (n : number) : numberOf (numeral n) = Some n.
Proof.
  destruct n as [z | negative whole fraction].
  - unfold numeral. cbn [printNumber]. rewrite RenderFacts.append_empty_r.
    unfold numberOf. rewrite (splitPoint_none _ (noPoint_int _)).
    destruct (to_int_proper z) as [Hp Hn].
    rewrite (NilZero.isi _ Hp Hn), DecimalZ.of_to. reflexivity.
  - rewrite numeral_fraction. unfold numberOf.
    assert (Hw : allDigits (NilZero.string_of_uint (N.to_uint whole)) = true)
      by apply digits_uint_zero.
    assert (Hread : NilZero.uint_of_string (NilZero.string_of_uint (N.to_uint whole))
                    = Some (N.to_uint whole))
      by (apply NilZero.usu, to_uint_proper).
    rewrite splitPoint_app.
    2:{ destruct negative; [simpl |]; apply digits_noPoint; exact Hw. }
    assert (Hfrac : Pos.of_uint (Decimal.rev (Pos.to_little_uint fraction))
                    = Npos fraction)
      by apply (DecimalPos.Unsigned.of_to fraction).
    destruct negative.
    + change ("-" +++ NilZero.string_of_uint (N.to_uint whole))
        with (String "-" (NilZero.string_of_uint (N.to_uint whole))).
      cbv beta iota. change ("-" =? "-")%char with true. cbv iota.
      rewrite Hread, NilEmpty.usu, Hfrac, DecimalN.Unsigned.of_to. reflexivity.
    + change ("" +++ NilZero.string_of_uint (N.to_uint whole))
        with (NilZero.string_of_uint (N.to_uint whole)).
      destruct (NilZero.string_of_uint (N.to_uint whole)) as [| c W] eqn:HW.
      * rewrite <- HW in Hread. rewrite HW in Hread. discriminate Hread.
      * cbn [allDigits] in Hw. apply andb_prop in Hw. destruct Hw as [Hc _].
        destruct (digit_is_plain c Hc) as (_ & _ & Hminus).
        cbv beta iota. rewrite Hminus.
        rewrite Hread, NilEmpty.usu, Hfrac, DecimalN.Unsigned.of_to. reflexivity.
Qed.

Lemma parseNumber_printNumber (n : number) (rest : string) :
  numberEnds rest = true ->
  parseNumber (printNumber n rest) = Some (n, rest).
Proof.
  intros Hr. unfold parseNumber. rewrite printNumber_numeral.
  rewrite (spanNum_app _ _ (allNum_numeral n) Hr). cbn [fst snd].
  rewrite numberOf_numeral. reflexivity.
Qed.

Lemma printNumber_head (n : number) (rest : string) :
  exists c r, printNumber n rest = String c r /\ isNumChar c = true.
Proof.
  rewrite printNumber_numeral.
  pose proof (allNum_numeral n) as Hall.
  pose proof (numberOf_numeral n) as Hof.
  destruct (numeral n) as [| c s].
  - discriminate Hof.
  - simpl in Hall. apply andb_prop in Hall. destruct Hall as [Hc _].
    exists c, (s +++ rest). split; [reflexivity | exact Hc].
Qed.

(** What the parsers find when a value starts with a digit or a minus
    sign. *)
Lemma numChar_is_plain (c : ascii) :
  isNumChar c = true ->
  (c =? dquote)%char = false /\ (c =? "{")%char = false /\
  (c =? "[")%char = false /\ isWs c = false /\
  (c =? " ")%char = false /\ (c =? newline)%char = false.
Proof.
  destruct c as [b0 b1 b2 b3 b4 b5 b6 b7].
  destruct b0, b1, b2, b3, b4, b5, b6, b7; intros H;
    try discriminate H; repeat split; reflexivity.
Qed.

Lemma parseBool_printBool (b : bool) (rest : string) :
  parseBool (printBool b rest) = Some (b, rest).
Proof. destruct b; reflexivity. Qed.

(** *** White space *)

Lemma skipWs_head (c : ascii) (r : string) :
  isWs c = false -> skipWs (String c r) = String c r.
Proof. intros H. simpl. rewrite H. reflexivity. Qed.

Lemma skipWs_spaces (n : nat) (s : string) : skipWs (spaces n s) = skipWs s.
Proof. induction n as [| n IH]; simpl; [reflexivity | exact IH]. Qed.

Lemma skipWs_idem (s : string) : skipWs (skipWs s) = skipWs s.
Proof.
  induction s as [| c s IH]; simpl; [reflexivity |].
  destruct (isWs c) eqn:Hc; [exact IH | simpl; rewrite Hc; reflexivity].
Qed.

Lemma parseJsonValue_skipWs (fuel : nat) (s : string) :
  parseJsonValue fuel (skipWs s) = parseJsonValue fuel s.
Proof. destruct fuel; simpl; [reflexivity | rewrite skipWs_idem; reflexivity]. Qed.

(** *** JSON *)

Lemma size_positive (v : value) : (1 <= size v)%nat.
Proof. destruct v; simpl; lia. Qed.

Lemma numChar_not_closing (c : ascii) :
  isNumChar c = true -> (c =? "]")%char = false /\ (c =? "}")%char = false.
Proof.
  destruct c as [b0 b1 b2 b3 b4 b5 b6 b7].
  destruct b0, b1, b2, b3, b4, b5, b6, b7; intros H;
    try discriminate H; split; reflexivity.
Qed.

(** A value starts with a character that is neither white space nor a
    closing bracket. *)
Lemma jsonValue_head (ind : nat) (v : value) (rest : string) :
  exists c r, jsonValue ind v rest = String c r /\ isWs c = false /\
              (c =? "]")%char = false /\ (c =? "}")%char = false.
Proof.
  destruct v as [s | n | b | m | l].
  - eexists _, _. repeat split; reflexivity.
  - destruct (printNumber_head n rest) as (c & r & Hhead & Hc).
    exists c, r. split; [exact Hhead |].
    split; [apply (numChar_is_plain c Hc) | apply (numChar_not_closing c Hc)].
  - destruct b; eexists _, _; repeat split; reflexivity.
  - destruct m; eexists _, _; repeat split; reflexivity.
  - destruct l; eexists _, _; repeat split; reflexivity.
Qed.

Lemma skipWs_jsonValue (ind : nat) (v : value) (rest : string) :
  skipWs (jsonValue ind v rest) = jsonValue ind v rest.
Proof.
  destruct (jsonValue_head ind v rest) as (c & r & Hhead & Hc & _).
  rewrite Hhead. apply skipWs_head. exact Hc.
Qed.

Lemma skipWs_break (n : nat) (s : string) :
  skipWs (nl +++ spaces n s) = skipWs s.
Proof. simpl. apply skipWs_spaces. Qed.

(** The steps of the parsers on what the encoder writes. *)
Lemma parse_member (f : nat) (k X : string) :
  parseJsonMembers (S f) (quote k (": " +++ X))
  = match parseJsonValue f X with
    | Some (v, r3) =>
        match skipWs r3 with
        | String e r4 =>
            if (e =? ",")%char then
              match parseJsonMembers f (skipWs r4) with
              | Some (more, rest) => Some (MCons k v more, rest)
              | None => None
              end
            else if (e =? "}")%char then Some (MCons k v MNil, r4)
            else None
        | EmptyString => None
        end
    | None => None
    end.
Proof.
  cbn [parseJsonMembers quote]. change (dquote =? dquote)%char with true.
  cbn iota. rewrite unquote_quoteChars.
  change (skipWs (": " +++ X)) with (String ":" (String " " X)). cbn iota.
  change (":" =? ":")%char with true. cbn iota.
  rewrite <- (parseJsonValue_skipWs f (String " " X)).
  change (skipWs (String " " X)) with (skipWs X).
  rewrite parseJsonValue_skipWs. reflexivity.
Qed.

Lemma parse_object (f ind : nat) (k : string) (v : value) (more : members)
  (rest : string) :
  parseJsonValue (S f) (jsonValue ind (VRecord (MCons k v more)) rest)
  = match parseJsonMembers f
            (jsonMembers (S ind) (MCons k v more)
               (nl +++ spaces (2 * ind) ("}" +++ rest))) with
    | Some (m, r) => Some (VRecord m, r)
    | None => None
    end.
Proof.
  set (tail := nl +++ spaces (2 * ind) ("}" +++ rest)).
  change (jsonValue ind (VRecord (MCons k v more)) rest)
    with (String "{" (nl +++ spaces (2 * S ind)
                        (jsonMembers (S ind) (MCons k v more) tail))).
  set (body := jsonMembers (S ind) (MCons k v more) tail).
  assert (Hbody : skipWs (nl +++ spaces (2 * S ind) body) = body).
  { rewrite skipWs_break. reflexivity. }
  cbn [parseJsonValue].
  change (skipWs (String "{" (nl +++ spaces (2 * S ind) body)))
    with (String "{" (nl +++ spaces (2 * S ind) body)).
  cbn iota. change ("{" =? dquote)%char with false.
  change ("{" =? "{")%char with true. cbn iota.
  rewrite Hbody. reflexivity.
Qed.

Lemma parse_array (f ind : nat) (v : value) (more : values) (rest : string) :
  parseJsonValue (S f) (jsonValue ind (VList (VCons v more)) rest)
  = match parseJsonValues f
            (jsonValues (S ind) (VCons v more)
               (nl +++ spaces (2 * ind) ("]" +++ rest))) with
    | Some (l, r) => Some (VList l, r)
    | None => None
    end.
Proof.
  set (tail := nl +++ spaces (2 * ind) ("]" +++ rest)).
  change (jsonValue ind (VList (VCons v more)) rest)
    with (String "[" (nl +++ spaces (2 * S ind)
                        (jsonValues (S ind) (VCons v more) tail))).
  set (body := jsonValues (S ind) (VCons v more) tail).
  assert (Hbody : exists c r, skipWs (nl +++ spaces (2 * S ind) body) = String c r
                              /\ String c r = body /\ (c =? "]")%char = false).
  { rewrite skipWs_break. subst body. cbn [jsonValues].
    rewrite skipWs_jsonValue.
    destruct (jsonValue_head (S ind) v
                match more with
                | VNil => tail
                | VCons _ _ =>
                    "," +++ nl +++ spaces (2 * S ind) (jsonValues (S ind) more tail)
                end) as (c & r & Hhead & _ & Hc & _).
    exists c, r. rewrite Hhead. repeat split. exact Hc. }
  destruct Hbody as (c & r & Hskip & Hcr & Hc).
  cbn [parseJsonValue].
  change (skipWs (String "[" (nl +++ spaces (2 * S ind) body)))
    with (String "[" (nl +++ spaces (2 * S ind) body)).
  cbn iota. change ("[" =? dquote)%char with false.
  change ("[" =? "{")%char with false. change ("[" =? "[")%char with true.
  cbn iota. rewrite Hskip, Hc, Hcr. reflexivity.
Qed.

Lemma parse_element (f : nat) (s : string) :
  parseJsonValues (S f) s
  = match parseJsonValue f s with
    | Some (v, r3) =>
        match skipWs r3 with
        | String e r4 =>
            if (e =? ",")%char then
              match parseJsonValues f (skipWs r4) with
              | Some (more, rest) => Some (VCons v more, rest)
              | None => None
              end
            else if (e =? "]")%char then Some (VCons v VNil, r4)
            else None
        | EmptyString => None
        end
    | None => None
    end.
Proof. reflexivity. Qed.

Lemma parse_scalar_string (f ind : nat) (s rest : string) :
  parseJsonValue (S f) (jsonValue ind (VString s) rest) = Some (VString s, rest).
Proof.
  cbn [jsonValue]. unfold quote.
  set (body := quoteChars s rest).
  assert (Hbody : unquoteChars body = Some (s, rest)) by apply unquote_quoteChars.
  cbn [parseJsonValue].
  change (skipWs (String dquote body)) with (String dquote body).
  cbn iota. change (dquote =? dquote)%char with true. cbn iota.
  rewrite Hbody. reflexivity.
Qed.

Lemma parse_scalar_number (f ind : nat) (n : number) (rest : string) :
  numberEnds rest = true ->
  parseJsonValue (S f) (jsonValue ind (VNumber n) rest) = Some (VNumber n, rest).
Proof.
  intros Hrest. cbn [jsonValue].
  destruct (printNumber_head n rest) as (c & r & Hhead & Hc).
  destruct (numChar_is_plain c Hc) as (H1 & H2 & H3 & H4 & _).
  cbn [parseJsonValue]. rewrite Hhead, (skipWs_head _ _ H4).
  rewrite H1, H2, H3, Hc, <- Hhead, (parseNumber_printNumber _ _ Hrest).
  reflexivity.
Qed.

(** With fuel for its size, every encoded value, member list and element
    list is read back, up to what follows it. *)
Lemma json_read_back (f : nat) :
  (forall v ind rest,
     (size v <= f)%nat -> numberEnds rest = true ->
     parseJsonValue f (jsonValue ind v rest) = Some (v, rest)) /\
  (forall k v more ind tail rest,
     (sizeMembers (MCons k v more) <= f)%nat -> numberEnds tail = true ->
     skipWs tail = String "}" rest ->
     parseJsonMembers f (jsonMembers ind (MCons k v more) tail)
       = Some (MCons k v more, rest)) /\
  (forall v more ind tail rest,
     (sizeValues (VCons v more) <= f)%nat -> numberEnds tail = true ->
     skipWs tail = String "]" rest ->
     parseJsonValues f (jsonValues ind (VCons v more) tail)
       = Some (VCons v more, rest)).
Proof.
  induction f as [| f [IHv [IHm IHl]]].
  - split; [| split]; intros.
    + pose proof (size_positive v). lia.
    + simpl in H. lia.
    + simpl in H. lia.
  - split; [| split].
    + intros v ind rest Hsize Hrest.
      destruct v as [s | n | b | m | l].
      * apply parse_scalar_string.
      * apply parse_scalar_number. exact Hrest.
      * destruct b; reflexivity.
      * destruct m as [| k v more]; [reflexivity |].
        rewrite parse_object.
        rewrite (IHm k v more (S ind) _ rest).
        -- reflexivity.
        -- simpl in Hsize. simpl. lia.
        -- reflexivity.
        -- rewrite skipWs_break. reflexivity.
      * destruct l as [| v more]; [reflexivity |].
        rewrite parse_array.
        rewrite (IHl v more (S ind) _ rest).
        -- reflexivity.
        -- simpl in Hsize. simpl. lia.
        -- reflexivity.
        -- rewrite skipWs_break. reflexivity.
    + intros k v more ind tail rest Hsize Htail Hclose.
      cbn [jsonMembers]. rewrite parse_member.
      destruct more as [| k' v' more']; cbn [sizeMembers] in Hsize.
      * rewrite (IHv v ind tail) by (lia || exact Htail).
        rewrite Hclose. reflexivity.
      * rewrite (IHv v ind _) by (lia || reflexivity).
        change (skipWs ("," +++ nl +++ spaces (2 * ind)
                          (jsonMembers ind (MCons k' v' more') tail)))
          with (String "," (nl +++ spaces (2 * ind)
                              (jsonMembers ind (MCons k' v' more') tail))).
        cbn iota. change ("," =? ",")%char with true. cbn iota.
        rewrite skipWs_break.
        change (skipWs (jsonMembers ind (MCons k' v' more') tail))
          with (jsonMembers ind (MCons k' v' more') tail).
        rewrite (IHm k' v' more' ind tail rest); [reflexivity | | exact Htail | exact Hclose].
        cbn [sizeMembers]. lia.
    + intros v more ind tail rest Hsize Htail Hclose.
      cbn [jsonValues]. rewrite parse_element.
      destruct more as [| v' more']; cbn [sizeValues] in Hsize.
      * rewrite (IHv v ind tail) by (lia || exact Htail).
        rewrite Hclose. reflexivity.
      * rewrite (IHv v ind _) by (lia || reflexivity).
        change (skipWs ("," +++ nl +++ spaces (2 * ind)
                          (jsonValues ind (VCons v' more') tail)))
          with (String "," (nl +++ spaces (2 * ind)
                              (jsonValues ind (VCons v' more') tail))).
        cbn iota. change ("," =? ",")%char with true. cbn iota.
        rewrite skipWs_break.
        replace (skipWs (jsonValues ind (VCons v' more') tail))
          with (jsonValues ind (VCons v' more') tail)
          by (cbn [jsonValues]; rewrite skipWs_jsonValue; reflexivity).
        rewrite (IHl v' more' ind tail rest); [reflexivity | | exact Htail | exact Hclose].
        cbn [sizeValues]. lia.
Qed.

(** *** The text is long enough to be its own fuel *)

Lemma length_append (a b : string) :
  String.length (a +++ b) = (String.length a + String.length b)%nat.
Proof. induction a as [| c a IH]; simpl; [reflexivity | rewrite IH; reflexivity]. Qed.

Lemma length_spaces (n : nat) (r : string) :
  String.length (spaces n r) = (n + String.length r)%nat.
Proof. induction n as [| n IH]; simpl; [reflexivity | rewrite IH; reflexivity]. Qed.

Lemma length_quoteChar (c : ascii) (tail : string) :
  (1 + String.length tail <= String.length (quoteChar c tail))%nat.
Proof.
  unfold quoteChar.
  destruct ((c =? dquote) || (c =? backslash))%char; [simpl; lia |].
  destruct (nat_of_ascii c <? 32)%nat; simpl; lia.
Qed.

Lemma length_quote (s rest : string) :
  (2 + String.length rest <= String.length (quote s rest))%nat.
Proof.
  unfold quote. simpl. apply le_n_S.
  induction s as [| c s IH]; simpl; [lia |].
  pose proof (length_quoteChar c (quoteChars s rest)). lia.
Qed.

Lemma length_printNumber (n : number) (rest : string) :
  (1 + String.length rest <= String.length (printNumber n rest))%nat.
Proof.
  rewrite printNumber_numeral, length_append.
  destruct (printNumber_head n "") as (c & r & Hhead & _).
  rewrite printNumber_numeral, RenderFacts.append_empty_r in Hhead.
  rewrite Hhead. simpl. lia.
Qed.

Lemma length_printBool (b : bool) (rest : string) :
  (1 + String.length rest <= String.length (printBool b rest))%nat.
Proof. destruct b; simpl; lia. Qed.

Lemma json_length (n : nat) :
  (forall v ind rest, (size v <= n)%nat ->
     (size v + String.length rest <= String.length (jsonValue ind v rest))%nat) /\
  (forall m ind tail, (sizeMembers m <= n)%nat ->
     (sizeMembers m + String.length tail
      <= String.length (jsonMembers ind m tail))%nat) /\
  (forall l ind tail, (sizeValues l <= n)%nat ->
     (sizeValues l + String.length tail
      <= S (String.length (jsonValues ind l tail)))%nat).
Proof.
  induction n as [| n [IHv [IHm IHl]]].
  - split; [| split].
    + intros v ind rest H. pose proof (size_positive v). lia.
    + intros m ind tail H. destruct m; simpl in *; lia.
    + intros l ind tail H. destruct l; simpl in *; lia.
  - split; [| split].
    + intros v ind rest H. destruct v as [s | z | b | m | l].
      * cbn [jsonValue size]. pose proof (length_quote s rest). lia.
      * cbn [jsonValue size]. pose proof (length_printNumber z rest). lia.
      * cbn [jsonValue size]. pose proof (length_printBool b rest). lia.
      * destruct m as [| k v more]; [simpl; lia |].
        cbn [size] in *. cbn [jsonValue].
        set (tail := nl +++ spaces (2 * ind) ("}" +++ rest)).
        pose proof (IHm (MCons k v more) (S ind) tail) as Hm.
        assert (Ht : String.length tail = (2 + 2 * ind + String.length rest)%nat).
        { subst tail. rewrite length_append, length_spaces. simpl. lia. }
        change ("{" +++ nl +++ ?x) with (String "{" (String newline x)).
        cbn [String.length]. rewrite length_spaces. lia.
      * destruct l as [| v more]; [simpl; lia |].
        cbn [size] in *. cbn [jsonValue].
        set (tail := nl +++ spaces (2 * ind) ("]" +++ rest)).
        pose proof (IHl (VCons v more) (S ind) tail) as Hl.
        assert (Ht : String.length tail = (2 + 2 * ind + String.length rest)%nat).
        { subst tail. rewrite length_append, length_spaces. simpl. lia. }
        change ("[" +++ nl +++ ?x) with (String "[" (String newline x)).
        cbn [String.length]. rewrite length_spaces. lia.
    + intros m ind tail H. destruct m as [| k v more]; [simpl; lia |].
      cbn [sizeMembers] in *. cbn [jsonMembers].
      set (X := match more with
                | MNil => tail
                | MCons _ _ _ =>
                    "," +++ nl +++ spaces (2 * ind) (jsonMembers ind more tail)
                end).
      pose proof (length_quote k (": " +++ jsonValue ind v X)) as Hq.
      rewrite length_append in Hq. simpl (String.length ": ") in Hq.
      pose proof (IHv v ind X) as Hv.
      pose proof (IHm more ind tail) as Hmore.
      assert (HX : (sizeMembers more + String.length tail <= String.length X)%nat).
      { subst X. destruct more as [| k' v' more']; [simpl; lia |].
        change ("," +++ nl +++ ?x) with (String "," (String newline x)).
        cbn [String.length]. rewrite length_spaces.
        cbn [sizeMembers] in *. lia. }
      clearbody X. specialize (Hv ltac:(lia)). lia.
    + intros l ind tail H. destruct l as [| v more]; [simpl; lia |].
      cbn [sizeValues] in *. cbn [jsonValues].
      set (X := match more with
                | VNil => tail
                | VCons _ _ =>
                    "," +++ nl +++ spaces (2 * ind) (jsonValues ind more tail)
                end).
      pose proof (IHv v ind X) as Hv.
      pose proof (IHl more ind tail) as Hmore.
      assert (HX : (sizeValues more + String.length tail <= String.length X)%nat).
      { subst X. destruct more as [| v' more']; [simpl; lia |].
        change ("," +++ nl +++ ?x) with (String "," (String newline x)).
        cbn [String.length]. rewrite length_spaces.
        cbn [sizeValues] in *. lia. }
      clearbody X. specialize (Hv ltac:(lia)). lia.
Qed.

(** Decoding the JSON text of a record gives its fields back. *)
Lemma decode_encode_json (r : record) :
  decode_json (encode_json r) = Some (fields r).
Proof.
  unfold decode_json, encode_json.
  destruct (json_read_back (String.length (jsonValue 0 (VRecord (fields r)) nl)))
    as [Hv _].
  rewrite Hv.
  - reflexivity.
  - destruct (json_length (size (VRecord (fields r)))) as [Hlen _].
    specialize (Hlen (VRecord (fields r)) 0%nat nl (le_n _)). lia.
  - reflexivity.
Qed.

(** *** YAML *)

Lemma stripSpaces_spaces (n : nat) (s : string) :
  stripSpaces n (spaces n s) = Some s.
Proof. induction n as [| n IH]; simpl; [reflexivity | exact IH]. Qed.

Lemma outdented_deeper (ind : nat) (s : string) :
  outdented ind s = true -> outdented (S ind) s = true.
Proof.
  revert s. induction ind as [| i IH]; intros s H.
  - destruct s; [reflexivity | discriminate H].
  - destruct s as [| c r]; [reflexivity |].
    simpl in H |- *. destruct (c =? " ")%char; [apply IH; exact H | reflexivity].
Qed.

Lemma outdented_line (k ind : nat) (c : ascii) (r : string) :
  (c =? " ")%char = false ->
  outdented (S (k + ind)) (spaces ind (String c r)) = true.
Proof.
  intros Hc. induction ind as [| i IH].
  - simpl. rewrite Hc. reflexivity.
  - rewrite Nat.add_succ_r. simpl. exact IH.
Qed.

Lemma outdented_stops (ind : nat) (s : string) :
  outdented ind s = true ->
  match stripSpaces ind s with
  | Some (String _ _) => False
  | _ => True
  end.
Proof.
  revert s. induction ind as [| i IH]; intros s H.
  - destruct s; [exact I | discriminate H].
  - destruct s as [| c r]; [exact I |].
    simpl in H |- *. destruct (c =? " ")%char; [apply IH; exact H | exact I].
Qed.

Lemma parseYamlMembers_end (f ind : nat) (s : string) :
  outdented ind s = true -> parseYamlMembers (S f) ind s = Some (MNil, s).
Proof.
  intros H. apply outdented_stops in H. cbn [parseYamlMembers].
  destruct (stripSpaces ind s) as [[| c r] |]; [reflexivity | contradiction | reflexivity].
Qed.

Lemma parseYamlValues_end (f ind : nat) (s : string) :
  outdented ind s = true -> parseYamlValues (S f) ind s = Some (VNil, s).
Proof.
  intros H. apply outdented_stops in H. cbn [parseYamlValues].
  destruct (stripSpaces ind s) as [[| c r] |]; [reflexivity | contradiction | reflexivity].
Qed.

(** The steps of the block parsers on what the encoder writes. *)
Lemma parse_yaml_member (f ind : nat) (k X : string) :
  parseYamlMembers (S f) ind (spaces ind (quote k (":" +++ X)))
  = match parseYamlAfter f ind X with
    | Some (v, r2) =>
        match parseYamlMembers f ind r2 with
        | Some (more, rest) => Some (MCons k v more, rest)
        | None => None
        end
    | None => None
    end.
Proof.
  cbn [parseYamlMembers]. rewrite stripSpaces_spaces. unfold quote.
  cbn iota. change (dquote =? dquote)%char with true. cbn iota.
  rewrite unquote_quoteChars. reflexivity.
Qed.

Lemma parse_yaml_element (f ind : nat) (X : string) :
  parseYamlValues (S f) ind (spaces ind ("-" +++ X))
  = match parseYamlAfter f ind X with
    | Some (v, r2) =>
        match parseYamlValues f ind r2 with
        | Some (more, rest) => Some (VCons v more, rest)
        | None => None
        end
    | None => None
    end.
Proof.
  cbn [parseYamlValues]. rewrite stripSpaces_spaces. reflexivity.
Qed.

Lemma parse_yaml_record_block (f ind : nat) (k : string) (v : value)
  (more : members) (rest : string) :
  parseYamlAfter (S f) ind (yamlAfter ind (VRecord (MCons k v more)) rest)
  = match parseYamlMembers f (2 + ind)
            (yamlMembers (2 + ind) (MCons k v more) rest) with
    | Some (m, r) => Some (VRecord m, r)
    | None => None
    end.
Proof.
  change (yamlAfter ind (VRecord (MCons k v more)) rest)
    with (String newline (yamlMembers (2 + ind) (MCons k v more) rest)).
  set (body := yamlMembers (2 + ind) (MCons k v more) rest).
  assert (Hbody : stripSpaces (2 + ind) body
                  = Some (String dquote
                            (quoteChars k
                               (":" +++ yamlAfter (2 + ind) v
                                          (yamlMembers (2 + ind) more rest))))).
  { subst body. cbn [yamlMembers]. rewrite stripSpaces_spaces. reflexivity. }
  cbn [parseYamlAfter]. change (newline =? " ")%char with false.
  change (newline =? newline)%char with true. cbn iota.
  rewrite Hbody. change (dquote =? dquote)%char with true. reflexivity.
Qed.

Lemma parse_yaml_list_block (f ind : nat) (v : value) (more : values)
  (rest : string) :
  parseYamlAfter (S f) ind (yamlAfter ind (VList (VCons v more)) rest)
  = match parseYamlValues f (2 + ind)
            (yamlValues (2 + ind) (VCons v more) rest) with
    | Some (l, r) => Some (VList l, r)
    | None => None
    end.
Proof.
  change (yamlAfter ind (VList (VCons v more)) rest)
    with (String newline (yamlValues (2 + ind) (VCons v more) rest)).
  set (body := yamlValues (2 + ind) (VCons v more) rest).
  assert (Hbody : stripSpaces (2 + ind) body
                  = Some (String "-"
                            (yamlAfter (2 + ind) v
                               (yamlValues (2 + ind) more rest)))).
  { subst body. cbn [yamlValues]. rewrite stripSpaces_spaces. reflexivity. }
  cbn [parseYamlAfter]. change (newline =? " ")%char with false.
  change (newline =? newline)%char with true. cbn iota.
  rewrite Hbody. change ("-" =? dquote)%char with false.
  change ("-" =? "-")%char with true. reflexivity.
Qed.

Lemma parse_yaml_number (f ind : nat) (n : number) (rest : string) :
  parseYamlAfter (S f) ind (yamlAfter ind (VNumber n) rest) = Some (VNumber n, rest).
Proof.
  change (yamlAfter ind (VNumber n) rest) with (String " " (printNumber n (nl +++ rest))).
  cbn [parseYamlAfter]. change (" " =? " ")%char with true. cbn iota.
  destruct (printNumber_head n (nl +++ rest)) as (c & r & Hhead & Hc).
  destruct (numChar_is_plain c Hc) as (H1 & H2 & H3 & _).
  unfold parseYamlInline. rewrite Hhead, H1, H2, H3, Hc, <- Hhead.
  rewrite parseNumber_printNumber by reflexivity. reflexivity.
Qed.

Lemma parse_yaml_string (f ind : nat) (s rest : string) :
  parseYamlAfter (S f) ind (yamlAfter ind (VString s) rest) = Some (VString s, rest).
Proof.
  change (yamlAfter ind (VString s) rest)
    with (String " " (String dquote (quoteChars s (nl +++ rest)))).
  cbn [parseYamlAfter]. change (" " =? " ")%char with true. cbn iota.
  unfold parseYamlInline. change (dquote =? dquote)%char with true. cbn iota.
  rewrite unquote_quoteChars. reflexivity.
Qed.

Lemma outdented_members (ind : nat) (m : members) (rest : string) :
  outdented ind rest = true ->
  outdented (2 + ind) (yamlMembers ind m rest) = true.
Proof.
  intros H. destruct m as [| k v more].
  - simpl yamlMembers. apply outdented_deeper, outdented_deeper. exact H.
  - cbn [yamlMembers]. unfold quote. apply (outdented_line 1 ind). reflexivity.
Qed.

Lemma outdented_values (ind : nat) (l : values) (rest : string) :
  outdented ind rest = true ->
  outdented (2 + ind) (yamlValues ind l rest) = true.
Proof.
  intros H. destruct l as [| v more].
  - simpl yamlValues. apply outdented_deeper, outdented_deeper. exact H.
  - cbn [yamlValues]. apply (outdented_line 1 ind). reflexivity.
Qed.

(** With fuel beyond its size, every encoded value, member block and
    element block is read back, up to what follows it. *)
Lemma yaml_read_back (f : nat) :
  (forall v ind rest,
     (size v < f)%nat -> outdented (2 + ind) rest = true ->
     parseYamlAfter f ind (yamlAfter ind v rest) = Some (v, rest)) /\
  (forall m ind rest,
     (sizeMembers m < f)%nat -> outdented ind rest = true ->
     parseYamlMembers f ind (yamlMembers ind m rest) = Some (m, rest)) /\
  (forall l ind rest,
     (sizeValues l < f)%nat -> outdented ind rest = true ->
     parseYamlValues f ind (yamlValues ind l rest) = Some (l, rest)).
Proof.
  induction f as [| f [IHv [IHm IHl]]].
  - split; [| split]; intros; lia.
  - split; [| split].
    + intros v ind rest Hsize Hrest.
      destruct v as [s | n | b | m | l].
      * apply parse_yaml_string.
      * apply parse_yaml_number.
      * destruct b; reflexivity.
      * destruct m as [| k v more]; [reflexivity |].
        rewrite parse_yaml_record_block.
        rewrite (IHm (MCons k v more) (2 + ind)%nat rest); [reflexivity | | exact Hrest].
        cbn [size] in Hsize. lia.
      * destruct l as [| v more]; [reflexivity |].
        rewrite parse_yaml_list_block.
        rewrite (IHl (VCons v more) (2 + ind)%nat rest); [reflexivity | | exact Hrest].
        cbn [size] in Hsize. lia.
    + intros m ind rest Hsize Hrest.
      destruct m as [| k v more].
      * apply parseYamlMembers_end. exact Hrest.
      * cbn [yamlMembers]. rewrite parse_yaml_member.
        cbn [sizeMembers] in Hsize.
        rewrite (IHv v ind (yamlMembers ind more rest));
          [| lia | apply outdented_members; exact Hrest].
        rewrite (IHm more ind rest); [reflexivity | lia | exact Hrest].
    + intros l ind rest Hsize Hrest.
      destruct l as [| v more].
      * apply parseYamlValues_end. exact Hrest.
      * cbn [yamlValues]. rewrite parse_yaml_element.
        cbn [sizeValues] in Hsize.
        rewrite (IHv v ind (yamlValues ind more rest));
          [| lia | apply outdented_values; exact Hrest].
        rewrite (IHl more ind rest); [reflexivity | lia | exact Hrest].
Qed.

Lemma yaml_length (n : nat) :
  (forall v ind rest, (size v <= n)%nat ->
     (size v + String.length rest <= String.length (yamlAfter ind v rest))%nat) /\
  (forall m ind rest, (sizeMembers m <= n)%nat ->
     (sizeMembers m + String.length rest
      <= String.length (yamlMembers ind m rest))%nat) /\
  (forall l ind rest, (sizeValues l <= n)%nat ->
     (sizeValues l + String.length rest
      <= String.length (yamlValues ind l rest))%nat).
Proof.
  induction n as [| n [IHv [IHm IHl]]].
  - split; [| split].
    + intros v ind rest H. pose proof (size_positive v). lia.
    + intros m ind rest H. destruct m; simpl in *; lia.
    + intros l ind rest H. destruct l; simpl in *; lia.
  - split; [| split].
    + intros v ind rest H. destruct v as [s | z | b | m | l].
      * change (yamlAfter ind (VString s) rest)
          with (String " " (quote s (nl +++ rest))).
        cbn [size String.length].
        pose proof (length_quote s (nl +++ rest)) as Hq.
        rewrite length_append in Hq. lia.
      * change (yamlAfter ind (VNumber z) rest)
          with (String " " (printNumber z (nl +++ rest))).
        cbn [size String.length].
        pose proof (length_printNumber z (nl +++ rest)) as Hq.
        rewrite length_append in Hq. lia.
      * change (yamlAfter ind (VBool b) rest)
          with (String " " (printBool b (nl +++ rest))).
        cbn [size String.length].
        pose proof (length_printBool b (nl +++ rest)) as Hq.
        rewrite length_append in Hq. lia.
      * destruct m as [| k v more]; [simpl; lia |].
        change (yamlAfter ind (VRecord (MCons k v more)) rest)
          with (String newline (yamlMembers (2 + ind) (MCons k v more) rest)).
        cbn [size String.length] in *.
        pose proof (IHm (MCons k v more) (2 + ind)%nat rest). lia.
      * destruct l as [| v more]; [simpl; lia |].
        change (yamlAfter ind (VList (VCons v more)) rest)
          with (String newline (yamlValues (2 + ind) (VCons v more) rest)).
        cbn [size String.length] in *.
        pose proof (IHl (VCons v more) (2 + ind)%nat rest). lia.
    + intros m ind rest H. destruct m as [| k v more]; [simpl; lia |].
      cbn [sizeMembers] in *. cbn [yamlMembers]. rewrite length_spaces.
      set (X := yamlAfter ind v (yamlMembers ind more rest)).
      pose proof (length_quote k (":" +++ X)) as Hq.
      rewrite length_append in Hq. simpl (String.length ":") in Hq.
      pose proof (IHv v ind (yamlMembers ind more rest)) as Hv. fold X in Hv.
      pose proof (IHm more ind rest) as Hmore.
      clearbody X. specialize (Hv ltac:(lia)). specialize (Hmore ltac:(lia)). lia.
    + intros l ind rest H. destruct l as [| v more]; [simpl; lia |].
      cbn [sizeValues] in *. cbn [yamlValues]. rewrite length_spaces.
      set (X := yamlAfter ind v (yamlValues ind more rest)).
      change ("-" +++ X) with (String "-" X). cbn [String.length].
      pose proof (IHv v ind (yamlValues ind more rest)) as Hv. fold X in Hv.
      pose proof (IHl more ind rest) as Hmore.
      clearbody X. specialize (Hv ltac:(lia)). specialize (Hmore ltac:(lia)). lia.
Qed.

(** Decoding the YAML text of a record gives its fields back. *)
Lemma decode_encode_yaml (r : record) :
  decode_yaml (encode_yaml r) = Some (fields r).
Proof.
  destruct r as [kd m]. unfold decode_yaml, encode_yaml. cbn [fields kind].
  destruct m as [| k v more]; [reflexivity |].
  set (text := yamlMembers 0 (MCons k v more) "").
  assert (Hhead : (text =? "{}" +++ nl)%string = false) by reflexivity.
  rewrite Hhead.
  destruct (yaml_read_back (S (String.length text))) as [_ [Hm _]].
  assert (E : parseYamlMembers (S (String.length text)) 0 text
              = Some (MCons k v more, EmptyString)).
  { apply (Hm (MCons k v more) 0%nat "").
    - destruct (yaml_length (sizeMembers (MCons k v more))) as [_ [Hlen _]].
      specialize (Hlen (MCons k v more) 0%nat "" (le_n _)).
      fold text in Hlen. lia.
    - reflexivity. }
  rewrite E. reflexivity.
Qed.




End CodecFacts.

(** * Further properties of the commands *)

(** ** The configuration file *)

(** A configuration file that is named on the command line and cannot
    be read stops every command that can run: the process writes the
    reason and ends with status 255 before any hook, login or request. *)
Theorem unreadable_config_stops_first
  (w : World) (fl : Flags) (cfg : Config) (c : command) (args : list string)
  (msg : string) :
  RunE w fl c <> None ->
  cfgFile cfg <> "" ->
  cfgFile cfg <> "/dev/null" ->
  readInConfig cfg = Some msg ->
  runProcess w fl cfg c args
    = (Exit (-1),
       [Stderr ("Error: cannot read configuration file '" +++ cfgFile cfg
                +++ "': " +++ msg)]) /\
  exitStatus (fst (runProcess w fl cfg c args)) = 255.
Proof.
  intros Hrun Hset Hnull Hread.
  assert (Hp : runProcess w fl cfg c args
               = (Exit (-1),
                  [Stderr ("Error: cannot read configuration file '" +++ cfgFile cfg
                           +++ "': " +++ msg)])).
  { unfold runProcess, Execute, cobraExecute, execute.
    destruct (RunE w fl c) as [run |]; [| contradiction].
    unfold bind at 1 2 3. unfold initConfig.
    apply String.eqb_neq in Hset, Hnull. rewrite Hnull, Hread, Hset.
    reflexivity. }
  split; [exact Hp | rewrite Hp; reflexivity].
Qed.

Lemma unreadable_config_stops_first_witness :
  runProcess calmWorld noFlags brokenConfig timelineCmd []
    = (Exit (-1),
       [Stderr ("Error: cannot read configuration file '" +++ cfgFile brokenConfig
                +++ "': " +++ "no such file")]) /\
  exitStatus (fst (runProcess calmWorld noFlags brokenConfig timelineCmd [])) = 255.
Proof.
  apply (unreadable_config_stops_first calmWorld noFlags brokenConfig
           timelineCmd [] "no such file").
  - simpl. discriminate.
  - simpl. discriminate.
  - simpl. discriminate.
  - reflexivity.
Defined.

(** Without [--config], or with [--config /dev/null], a configuration
    that cannot be read is no error: the initializer passes in silence. *)
Theorem missing_default_config_is_ignored (cfg : Config) (h : trace) :
  cfgFile cfg = "" \/ cfgFile cfg = "/dev/null" ->
  readInConfig cfg <> None ->
  initConfig cfg h = (Val tt, []).
Proof.
  intros Hfile Hread. unfold initConfig.
  destruct Hfile as [Hfile | Hfile]; rewrite Hfile; [| reflexivity].
  simpl. destruct (readInConfig cfg); [reflexivity | contradiction].
Qed.

Lemma missing_default_config_is_ignored_witness :
  initConfig noConfig [] = (Val tt, []).
Proof.
  apply (missing_default_config_is_ignored noConfig []).
  - left. reflexivity.
  - simpl. discriminate.
Defined.

(** ** The status ID *)

Lemma statusSubcommands_children (c : command) :
  In c statusSubcommands <-> Parent c = Some statusCmd.
Proof.
  split.
  - intros H. simpl in H.
    repeat (destruct H as [H | H]; [subst c; reflexivity |]). contradiction.
  - intros H. destruct c; try discriminate H; simpl; tauto.
Qed.

(** Every subcommand of [status] but [post] refuses to run without a
    status ID: the process reports "missing status ID" and ends with
    status 255, before any login or request. *)
Theorem status_commands_need_a_status_id
  (w : World) (fl : Flags) (cfg : Config) (c : command) (args : list string)
  (t0 : trace) :
  In c statusSubcommands ->
  c <> statusPostSubcommand ->
  statusOpts.statusID (fStatus fl) < 1 ->
  initConfig cfg [] = (Val tt, t0) ->
  runProcess w fl cfg c args
    = (Exit (-1),
       t0 ++ [Stderr "Error: missing status ID";
              Stderr (usageString w (Name c));
              Stderr "Error: missing status ID"]).
Proof.
  intros Hc Hpost Hid Hcfg.
  apply Z.ltb_lt in Hid.
  simpl in Hc.
  repeat (destruct Hc as [Hc | Hc]; [subst c |]); [.. | contradiction];
    try contradiction.
  all: unfold runProcess, Execute, cobraExecute, execute;
    cbn [RunE persistentHook treeDepth PersistentPreRunE Parent].
  all: unfold bind at 1 2 3; rewrite Hcfg; cbn [app].
  all: unfold bind at 1, statusPersistentPreRunE; rewrite Hid.
  all: cbn; rewrite ?app_nil_r, <- ?app_assoc; reflexivity.
Qed.

Lemma status_commands_need_a_status_id_witness :
  runProcess calmWorld (statusFlags 0) noConfig statusShow []
    = (Exit (-1),
       [] ++ [Stderr "Error: missing status ID";
              Stderr (usageString calmWorld (Name statusShow));
              Stderr "Error: missing status ID"]).
Proof.
  apply (status_commands_need_a_status_id calmWorld (statusFlags 0) noConfig
           statusShow [] []).
  - simpl. tauto.
  - discriminate.
  - simpl. lia.
  - reflexivity.
Defined.

(** ** Arguments of [suggestions delete] *)

(** When neither or both of [--account-id] and [--account-ids] are
    given, or the list does not parse, [suggestions delete] returns an
    error at once: it does not log in and sends nothing. *)
Theorem suggestions_delete_rejects_bad_arguments
  (w : World) (fl : Flags) (args : list string) (h : trace) :
  let opt := fSuggestions fl in
  (suggestionsOpts.accountID opt = "" /\ suggestionsOpts.accountIDs opt = "")
  \/ (suggestionsOpts.accountID opt <> "" /\ suggestionsOpts.accountIDs opt <> "")
  \/ snd (splitIDs w (suggestionsOpts.accountIDs opt)) <> None ->
  exists msg,
    In msg ["missing account IDs"; "incompatible options"; "cannot parse account IDs"] /\
    suggestionsDeleteRunE w fl args h = (Val (Some msg), []).
Proof.
  intros opt H. unfold suggestionsDeleteRunE. fold opt.
  rewrite length_zero_empty, zero_lt_length.
  destruct (String.eqb_spec (suggestionsOpts.accountID opt) "") as [Ha | Ha];
    destruct (String.eqb_spec (suggestionsOpts.accountIDs opt) "") as [Hb | Hb];
    cbn [negb andb].
  - exists "missing account IDs". split; [simpl; tauto | reflexivity].
  - destruct H as [[_ H] | [[H _] | H]]; try contradiction.
    destruct (snd (splitIDs w (suggestionsOpts.accountIDs opt))); [| contradiction].
    exists "cannot parse account IDs". split; [simpl; tauto | reflexivity].
  - destruct H as [[H _] | [[_ H] | H]]; try contradiction.
    destruct (snd (splitIDs w (suggestionsOpts.accountIDs opt))); [| contradiction].
    exists "cannot parse account IDs". split; [simpl; tauto | reflexivity].
  - exists "incompatible options". split; [simpl; tauto | reflexivity].
Qed.

Lemma suggestions_delete_rejects_bad_arguments_witness :
  exists msg,
    In msg ["missing account IDs"; "incompatible options"; "cannot parse account IDs"] /\
    suggestionsDeleteRunE calmWorld deleteBothFlags [] [] = (Val (Some msg), []).
Proof.
  apply (suggestions_delete_rejects_bad_arguments calmWorld deleteBothFlags [] []).
  right. left. split; simpl; discriminate.
Defined.

(** ** A request that fails *)

(** A run in which the initializers and the hook pass and the run
    function stops the process ends with that status. *)
Lemma runProcess_exit (w : World) (fl : Flags) (cfg : Config) (c : command)
  (args : list string) (run hook : runFn) (t0 t1 t2 : trace) (code : Z) :
  RunE w fl c = Some run ->
  persistentHook w fl treeDepth c = Some hook ->
  initConfig cfg [] = (Val tt, t0) ->
  hook c args t0 = (Val None, t1) ->
  run c args (t0 ++ t1) = (Exit code, t2) ->
  runProcess w fl cfg c args = (Exit code, t0 ++ t1 ++ t2).
Proof.
  intros HR HP H0 H1 H2.
  unfold runProcess, Execute, cobraExecute, execute.
  rewrite HR, HP. unfold bind. rewrite H0. simpl app.
  rewrite H1, H2. reflexivity.
Qed.

Lemma statusSubcommandRunE_request_fails (w : World) (fl : Flags)
  (opt : statusOpts.t) (c : command) (args : list string) (h : trace)
  (msg : string) :
  withoutResult c = true ->
  (forall h' call, apiErr w h' call = Some msg) ->
  exists call,
    statusSubcommandRunE w fl opt (Name c) args h
      = (Exit 1, [Net call; Stderr ("Error: " +++ msg)]).
Proof.
  intros Hc Hapi.
  destruct c; try discriminate Hc;
    unfold statusSubcommandRunE, statusSwitch; cbn -[bind];
    try destruct (statusOpts.unset opt); cbn -[bind];
    eexists; unfold bind, callErr; rewrite Hapi; reflexivity.
Qed.

(** When the request of [status delete], [boost], [unboost],
    [favourite], [unfavourite], [pin] or [unpin] fails, the process
    writes [Error: <message>] and ends with status 1; unlike
    [suggestions delete], it does not go on in silence. *)
Theorem status_request_failure_exits_1
  (w : World) (fl : Flags) (cfg : Config) (c : command) (args : list string)
  (t0 : trace) (msg : string) :
  withoutResult c = true ->
  initConfig cfg [] = (Val tt, t0) ->
  1 <= statusOpts.statusID (fStatus fl) ->
  madonInitResult w t0 true = None ->
  (forall h call, apiErr w h call = Some msg) ->
  exists call,
    runProcess w fl cfg c args
      = (Exit 1, t0 ++ [Init true; Net call; Stderr ("Error: " +++ msg)]).
Proof.
  intros Hc Hcfg Hid Hlogin Hapi.
  destruct (statusSubcommandRunE_request_fails w fl (fStatus fl) c args
              (t0 ++ [Init true]) msg Hc Hapi) as [call Hrun].
  exists call.
  apply (runProcess_exit w fl cfg c args
           (fun cmd a => statusSubcommandRunE w fl (fStatus fl) (Name cmd) a)
           (fun cmd a => statusPersistentPreRunE w fl (Name cmd) a)
           t0 [Init true] [Net call; Stderr ("Error: " +++ msg)] 1).
  - destruct c; try discriminate Hc; reflexivity.
  - destruct c; try discriminate Hc; reflexivity.
  - exact Hcfg.
  - apply statusPersistentPreRunE_ok; assumption.
  - exact Hrun.
Qed.

Lemma status_request_failure_exits_1_witness :
  exists call,
    runProcess refusingWorld (statusFlags 42) noConfig statusDelete []
      = (Exit 1, [] ++ [Init true; Net call; Stderr ("Error: " +++ "Record not found")]).
Proof.
  apply (status_request_failure_exits_1 refusingWorld (statusFlags 42) noConfig
           statusDelete [] [] "Record not found").
  - reflexivity.
  - reflexivity.
  - simpl. lia.
  - reflexivity.
  - reflexivity.
Defined.

(** ** Completion of visibilities *)

(** The words the completion function of [--visibility] offers are
    exactly the values [toot] accepts for a visibility that is set. *)
Theorem visibility_completion_matches_toot :
  exists candidates,
    staticCandidates "__madonctl_visibility" = Some candidates /\
    forall v, In v candidates <-> (validVisibility v = true /\ v <> "").
Proof.
  exists ["direct"; "private"; "unlisted"; "public"].
  split; [vm_compute; reflexivity |].
  intros v. split.
  - intros H. simpl in H.
    repeat (destruct H as [H | H]; [subst v; split; [reflexivity | discriminate] |]).
    contradiction.
  - intros [H Hne]. unfold validVisibility in H.
    repeat (apply orb_prop in H; destruct H as [H | H]);
      apply String.eqb_eq in H; subst v; simpl; tauto.
Qed.

(** ** Mentions *)

Lemma filter_none {A : Type} (f : A -> bool) (l : list A) :
  (forall x, In x l -> f x = false) -> filter f l = [].
Proof.
  induction l as [| a l IH]; intros H; simpl; [reflexivity |].
  rewrite (H a (or_introl eq_refl)). apply IH.
  intros x Hx. apply H. right. exact Hx.
Qed.

(** Answering a status of one's own that mentions nobody else adds no
    mention: [mentionsList] asks for the current account and returns the
    empty text. *)
Theorem mentionsList_of_own_status
  (w : World) (h : trace) (st : Status) (sender me : Account) :
  apiAccount w h GetCurrentAccount = (Some me, None) ->
  statusAccount st = Some sender ->
  Acct sender = Acct me ->
  (forall m, In m (Mentions st) -> mentionAcct m = Acct me) ->
  mentionsList w (Some st) h = (Val ("", None), [Net GetCurrentAccount]).
Proof.
  intros Hme Hsender Hsame Hall.
  unfold mentionsList, bind, callAccount. rewrite Hme. cbn [fst snd].
  rewrite Hsender, Hsame, String.eqb_refl. cbn [negb app].
  rewrite filter_none.
  - reflexivity.
  - intros m Hm. rewrite (Hall m Hm), String.eqb_refl. reflexivity.
Qed.

Lemma mentionsList_of_own_status_witness :
  mentionsList calmWorld (Some selfStatus) [] = (Val ("", None), [Net GetCurrentAccount]).
Proof.
  apply (mentionsList_of_own_status calmWorld [] selfStatus alice alice).
  - reflexivity.
  - reflexivity.
  - reflexivity.
  - intros m Hm. simpl in Hm. destruct Hm as [Hm | [Hm | []]]; subst m; reflexivity.
Defined.

(** ** Nothing is sent before the login *)

(** Runs a computation that starts with [madonInit] up to its answer,
    which [Hlogin] says is an error. *)
Ltac stop_at_login Hlogin :=
  unfold bind at 1, madonInit;
  match goal with
  | |- context [madonInitResult ?w ?h ?b] =>
      let E := fresh "E" in
      destruct (madonInitResult w h b) eqn:E; [| exfalso; exact (Hlogin _ _ E)]
  end.

(** With a login that fails, the run function of a command outside the
    status commands returns an error and sends nothing. *)
Lemma run_stops_at_login (w : World) (fl : Flags) (c : command) (run : runFn)
  (args : list string) (h : trace) :
  (forall h' b', madonInitResult w h' b' <> None) ->
  RunE w fl c = Some run ->
  Parent c <> Some statusCmd ->
  forall call, ~ In (Net call) (snd (run c args h)).
Proof.
  intros Hlogin HR Hp call.
  destruct c; simpl in HR; try discriminate HR; injection HR as HR; subst run;
    try (exfalso; apply Hp; reflexivity).
  - unfold suggestionsGetRunE. stop_at_login Hlogin.
    simpl. intros [H | []]. discriminate H.
  - unfold suggestionsGetRunE. stop_at_login Hlogin.
    simpl. intros [H | []]. discriminate H.
  - unfold suggestionsDeleteRunE.
    repeat match goal with
           | |- context [if ?b then ret _ else _] => destruct b; [intros [] |]
           end.
    stop_at_login Hlogin. simpl. intros [H | []]. discriminate H.
  - unfold tootAliasRunE. stop_at_login Hlogin.
    simpl. intros [H | []]. discriminate H.
  - unfold timelineRunE. cbv zeta. stop_at_login Hlogin.
    simpl. intros [H | []]. discriminate H.
Qed.

(** With a login that fails, the hook of the status commands returns an
    error and sends nothing. *)
Lemma status_hook_stops_at_login (w : World) (fl : Flags) (name : string)
  (args : list string) (h : trace) :
  (forall h' b', madonInitResult w h' b' <> None) ->
  exists e t,
    statusPersistentPreRunE w fl name args h = (Val (Some e), t) /\
    forall call, ~ In (Net call) t.
Proof.
  intros Hlogin. unfold statusPersistentPreRunE.
  destruct ((statusOpts.statusID (fStatus fl) <? 1) && negb (name =? "post")%string).
  - eexists _, _. split; [reflexivity | intros call []].
  - unfold madonInit.
    destruct (madonInitResult w h true) as [e |] eqn:E;
      [| exfalso; exact (Hlogin _ _ E)].
    exists e, [Init true]. split; [reflexivity |].
    intros call [H | []]. discriminate H.
Qed.

Lemma Parent_status_or_not (c : command) :
  Parent c = Some statusCmd \/ Parent c <> Some statusCmd.
Proof. destruct c; (left; reflexivity) || (right; discriminate). Qed.

Lemma initConfig_sends_nothing (cfg : Config) (h : trace) (call : apiCall) :
  ~ In (Net call) (snd (initConfig cfg h)).
Proof.
  unfold initConfig.
  destruct (cfgFile cfg =? "/dev/null")%string; [intros [] |].
  destruct (readInConfig cfg).
  - destruct (negb (cfgFile cfg =? "")%string); simpl; [| tauto].
    intros [H | []]. discriminate H.
  - destruct (verbose cfg); simpl; [| tauto]. intros [H | []]. discriminate H.
Qed.

(** When no login succeeds, no command sends a request: every run
    function logs in before its first request, and the status commands
    log in in their hook. *)
Theorem nothing_is_sent_without_login
  (w : World) (fl : Flags) (cfg : Config) (c : command) (args : list string)
  (call : apiCall) :
  (forall h b, madonInitResult w h b <> None) ->
  ~ In (Net call) (snd (runProcess w fl cfg c args)).
Proof.
  intros Hlogin.
  unfold runProcess, Execute, cobraExecute, execute.
  destruct (RunE w fl c) as [run |] eqn:HR.
  2:{ simpl. intros [H | []]. discriminate H. }
  unfold bind at 1 2 3.
  pose proof (initConfig_sends_nothing cfg [] call) as H0.
  destruct (initConfig cfg []) as [[[] | code | s] t0]; simpl in H0;
    [| exact H0 | exact H0].
  cbn [app].
  destruct (Parent_status_or_not c) as [Hst | Hst].
  - (* a status command: the hook stops the run *)
    assert (Hhook : persistentHook w fl treeDepth c
                    = Some (fun cmd a => statusPersistentPreRunE w fl (Name cmd) a)).
    { destruct c; try discriminate Hst; reflexivity. }
    rewrite Hhook. unfold bind at 1.
    destruct (status_hook_stops_at_login w fl (Name c) args t0 Hlogin)
      as (e & t1 & Ht1 & Hno).
    rewrite Ht1. simpl.
    intros Hin. in_cases Hin. exact (Hno call Hin).
  - (* another command: the format check, then the run function *)
    assert (Hhook : persistentHook w fl treeDepth c
                    = Some (fun _ _ => checkOutputFormat w)).
    { destruct c; simpl in HR; try discriminate HR;
        try reflexivity; exfalso; apply Hst; reflexivity. }
    rewrite Hhook. unfold bind at 1, checkOutputFormat.
    pose proof (run_stops_at_login w fl c run args
                  (t0 ++ raised HcheckOutputFormat None) Hlogin HR Hst call) as Hrun.
    destruct (checkOutputFormatResult w t0) as [e |].
    + simpl. intros Hin. in_cases Hin.
    + unfold bind at 1.
      destruct (run c args (t0 ++ raised HcheckOutputFormat None))
        as [[[e |] | code | s] t2]; simpl in Hrun |- *;
        intros Hin; in_cases Hin.
Qed.

Lemma nothing_is_sent_without_login_witness :
  ~ In (Net GetSuggestions)
       (snd (runProcess lockedWorld noFlags noConfig suggestionsCmd [])).
Proof.
  apply (nothing_is_sent_without_login lockedWorld noFlags noConfig
           suggestionsCmd [] GetSuggestions).
  intros h b. simpl. discriminate.
Defined.

(** ** The ways a run ends *)

Lemma exits_bind {A B : Type} (code : Z) (m : proc A) (f : A -> proc B) :
  exitsOnlyWith code m -> (forall a, exitsOnlyWith code (f a)) ->
  exitsOnlyWith code (bind m f).
Proof.
  intros Hm Hf h c t Hb. unfold bind in Hb.
  destruct (m h) as [[a | c1 | s] t1] eqn:Hmh.
  - destruct (f a (h ++ t1)) as [r2 t2] eqn:Hfa.
    injection Hb as Hr Ht. subst r2. exact (Hf a _ _ _ Hfa).
  - injection Hb as Hc Ht. subst c1. exact (Hm _ _ _ Hmh).
  - discriminate Hb.
Qed.

Lemma exits_osExit {A : Type} (code : Z) : exitsOnlyWith code (@osExit A code).
Proof. intros h c t H. injection H as H _. symmetry. exact H. Qed.

(** Splits a goal [exitsOnlyWith code m] along the binds and the branches
    of [m]; what is left are computations that never stop the process. *)
Ltac exits_step :=
  match goal with
  | |- exitsOnlyWith _ (bind _ _) => apply exits_bind; [| intro]
  | |- exitsOnlyWith _ (osExit _) => apply exits_osExit
  | |- exitsOnlyWith _ (match ?x with _ => _ end) => destruct x
  | |- exitsOnlyWith _ (let _ := _ in _) => cbv zeta
  | H : exitsOnlyWith _ _ |- exitsOnlyWith _ _ => exact H
  | H : forall _, exitsOnlyWith _ _ |- exitsOnlyWith _ _ => solve [apply H]
  | H : forall _ _, exitsOnlyWith _ _ |- exitsOnlyWith _ _ => solve [apply H]
  | H : forall _ _ _, exitsOnlyWith _ _ |- exitsOnlyWith _ _ => solve [apply H]
  | |- exitsOnlyWith _ _ =>
      solve [ let H := fresh in
              intros ? ? ? H;
              unfold ret, panic, nilDeref, errPrint, emit, madonInit, callErr,
                callStatus, callContext, callCard, callAccounts, callAccount,
                callStatuses, uploadFile, ioReadFile, ioReadStdin, getPrinter,
                checkOutputFormat in H;
              discriminate H ]
  end.

Ltac exits_auto := repeat exits_step.

Lemma exits_keepOrPanic {A : Type} (code keep : Z) (l : list A) :
  exitsOnlyWith code (keepOrPanic keep l).
Proof. unfold keepOrPanic. exits_auto. Qed.

Lemma exits_printObj (code : Z) (p : option Printer) (obj : object) :
  exitsOnlyWith code (printObj p obj).
Proof.
  unfold printObj. destruct p; [| exits_auto].
  intros h c t H. discriminate H.
Qed.

Lemma exits_mentionsList (code : Z) (w : World) (s : option Status) :
  exitsOnlyWith code (mentionsList w s).
Proof. unfold mentionsList. exits_auto. Qed.

Lemma exits_tootReply (code : Z) (w : World) (fl : Flags) (opt : statusOpts.t)
  (v t : string) :
  exitsOnlyWith code (tootReply w fl opt v t).
Proof.
  unfold tootReply. pose proof (exits_mentionsList code w) as Hm. exits_auto.
Qed.

Lemma exits_toot (code : Z) (w : World) (fl : Flags) (opt : statusOpts.t)
  (t : string) :
  exitsOnlyWith code (toot w fl opt t).
Proof.
  unfold toot. pose proof (exits_tootReply code w fl opt) as Hr. exits_auto.
Qed.

Lemma exits_statusSwitch (code : Z) (w : World) (fl : Flags)
  (opt : statusOpts.t) (subcmd : string) (args : list string) :
  exitsOnlyWith code (statusSwitch w fl opt subcmd args).
Proof.
  unfold statusSwitch, statusPost.
  pose proof (exits_toot code w fl opt) as Ht.
  pose proof (@exits_keepOrPanic Account code) as Hk.
  exits_auto.
Qed.

Lemma exits_statusSubcommandRunE (w : World) (fl : Flags) (opt : statusOpts.t)
  (subcmd : string) (args : list string) :
  exitsOnlyWith 1 (statusSubcommandRunE w fl opt subcmd args).
Proof.
  unfold statusSubcommandRunE.
  pose proof (exits_statusSwitch 1 w fl opt) as Hs.
  pose proof (exits_printObj 1) as Hp.
  exits_auto.
Qed.

Lemma exits_deleteSuggestions (code : Z) (w : World) (ids : list string)
  (err : error) :
  exitsOnlyWith code (deleteSuggestions w ids err).
Proof.
  revert err. induction ids as [| id ids IH]; intros err; simpl; exits_auto.
Qed.

Lemma exits_RunE (w : World) (fl : Flags) (c : command) (run : runFn)
  (args : list string) :
  RunE w fl c = Some run -> exitsOnlyWith 1 (run c args).
Proof.
  intros H.
  pose proof (exits_printObj 1) as Hp.
  pose proof (@exits_keepOrPanic Account 1) as Hka.
  pose proof (@exits_keepOrPanic Status 1) as Hks.
  pose proof (exits_deleteSuggestions 1 w) as Hd.
  pose proof (exits_statusSubcommandRunE w fl) as Hs.
  destruct c; simpl in H; try discriminate H; injection H as H; subst run;
    try apply Hs.
  - unfold suggestionsGetRunE. exits_auto.
  - unfold suggestionsGetRunE. exits_auto.
  - unfold suggestionsDeleteRunE. exits_auto.
  - unfold tootAliasRunE. exits_auto.
  - unfold timelineRunE. exits_auto.
Qed.

Lemma exits_hook (w : World) (fl : Flags) (c : command) (args : list string) :
  exitsOnlyWith 1 (match persistentHook w fl treeDepth c with
                   | Some hook => hook c args
                   | None => ret None
                   end).
Proof.
  destruct c; simpl; unfold statusPersistentPreRunE; exits_auto.
Qed.

Lemma exits_initConfig (cfg : Config) : exitsOnlyWith (-1) (initConfig cfg).
Proof. unfold initConfig. exits_auto. Qed.

Lemma execute_exits (w : World) (fl : Flags) (cfg : Config) (c : command)
  (args : list string) (h : trace) (code : Z) (t : trace) :
  execute w fl cfg c args h = (Exit code, t) -> code = 1 \/ code = -1.
Proof.
  unfold execute. intros He.
  destruct (RunE w fl c) as [run |] eqn:HR; [| discriminate He].
  unfold bind at 1 in He.
  destruct (initConfig cfg h) as [[[] | c0 | s] t0] eqn:H0.
  - left.
    match type of He with
    | (let (_, _) := ?m ?h' in _) = _ =>
        assert (Hm : exitsOnlyWith 1 m);
        [| destruct (m h') as [r2 t2] eqn:Hrest;
           injection He as Hr Ht; subst r2; exact (Hm _ _ _ Hrest)]
    end.
    apply exits_bind.
    + apply exits_hook.
    + intros e. pose proof (exits_RunE w fl c run args HR) as Hrun.
      exits_auto.
  - right. injection He as Hc Ht. subst c0.
    exact (exits_initConfig cfg _ _ _ H0).
  - discriminate He.
Qed.

(** Every run ends in one of four ways: normally (status 0), by
    [os.Exit(1)] after a failed request or printer, by [os.Exit(-1)]
    (status 255) after an error a command returned or a configuration
    file that cannot be read, or with a panic (status 2). *)
Theorem a_run_ends_with_status_0_1_2_or_255
  (w : World) (fl : Flags) (cfg : Config) (c : command) (args : list string) :
  let r := fst (runProcess w fl cfg c args) in
  (r = Val tt \/ r = Exit 1 \/ r = Exit (-1) \/ exists s, r = Panic s) /\
  In (exitStatus r) [0; 1; 2; 255].
Proof.
  cbv zeta.
  destruct (runProcess w fl cfg c args) as [r t] eqn:E. cbn [fst].
  assert (H : r = Val tt \/ r = Exit 1 \/ r = Exit (-1) \/
              exists s, r = Panic s).
  { unfold runProcess, Execute, cobraExecute, bind in E.
    destruct (execute w fl cfg c args []) as [[x | code | s] t1] eqn:He.
    - destruct x as [| [e |]]; cbv [emit ret errPrint osExit] in E;
        inversion E; auto.
    - inversion E; subst r.
      destruct (execute_exits _ _ _ _ _ _ _ _ He) as [Hc | Hc];
        subst code; auto.
    - inversion E. right. right. right. exists s. reflexivity. }
  split; [exact H |].
  destruct H as [H | [H | [H | [s H]]]]; rewrite H; simpl; auto.
Qed.

(** ** What [toot] sends *)

(** Runs [toot] symbolically: one goal for each path through the function. *)
Ltac toot_runs Ht :=
  unfold toot, tootReply in Ht;
  unfold mentionsList, bind, callStatus, callAccount, uploadFile, ret,
    nilDeref, panic in Ht;
  repeat (stuck_scrutinee Ht; cbn [fst snd] in Ht).

(** Breaks the tests a path has passed into their atoms. *)
Ltac split_tests :=
  repeat match goal with
         | H : _ && _ = true |- _ => apply andb_true_iff in H; destruct H
         | H : _ || _ = false |- _ => apply orb_false_iff in H; destruct H
         | H : negb _ = true |- _ => apply negb_true_iff in H
         | H : negb _ = false |- _ => apply negb_false_iff in H
         end.

Ltac use_tests_in Hp :=
  repeat match goal with
         | H : _ = true |- _ => rewrite H in Hp
         | H : _ = false |- _ =>
             tryif constr_eq H Hp then fail else rewrite H in Hp
         end.

(** The first assignment of [toot] leaves the requested visibility in
    [opt.visibility]. *)
Lemma toot_starts_from_requestedVisibility (w : World) (opt : statusOpts.t) :
  (if (statusOpts.visibility opt =? "")%string
   then (if negb (default_visibility w =? "")%string
         then default_visibility w
         else statusOpts.visibility opt)
   else statusOpts.visibility opt) = requestedVisibility w opt.
Proof.
  unfold requestedVisibility.
  destruct (String.eqb_spec (statusOpts.visibility opt) "") as [E | E];
    [| reflexivity].
  destruct (String.eqb_spec (default_visibility w) "") as [E' | E'];
    simpl; congruence.
Qed.

(** [toot] posts at most once, and as the last thing it does: every
    request before the post is another one, and what [toot] returns is
    the server's answer to the post. *)
Theorem toot_posts_last_and_once
  (w : World) (fl : Flags) (opt : statusOpts.t) (text : string)
  (h : trace) (r : result (option Status * error)) (t : trace)
  (p : PostStatusParams) :
  toot w fl opt text h = (r, t) ->
  In (Net (PostStatus p)) t ->
  exists t0,
    t = t0 ++ [Net (PostStatus p)] /\
    (forall q, ~ In (Net (PostStatus q)) t0) /\
    r = Val (apiStatus w (h ++ t0) (PostStatus p)).
Proof.
  intros Ht Hin. toot_runs Ht.
  all: injection Ht as Hr Htr; subst r t.
  all: in_cases Hin.
  all: injection Hin as Hp; subst p.
  all: match goal with
       | |- exists t0, ?t = _ /\ _ => exists (removelast t)
       end.
  all: split; [reflexivity |].
  all: split; [intros q Hq; in_cases Hq |].
  all: simpl; rewrite <- ?app_assoc; simpl; reflexivity.
Qed.

Lemma toot_posts_last_and_once_witness :
  exists t0,
    [Net (UploadFile "cat.png"); Net (PostStatus mediaPost)]
      = t0 ++ [Net (PostStatus mediaPost)] /\
    (forall q, ~ In (Net (PostStatus q)) t0) /\
    Val (Some helloStatus, None)
      = Val (apiStatus calmWorld ([] ++ t0) (PostStatus mediaPost)).
Proof.
  apply (toot_posts_last_and_once calmWorld noFlags mediaOpts "look" []
           (Val (Some helloStatus, None))
           [Net (UploadFile "cat.png"); Net (PostStatus mediaPost)] mediaPost).
  - reflexivity.
  - simpl. right. left. reflexivity.
Defined.

(** Unless the visibility is taken over from the status answered, a post
    goes out with the visibility of the [--visibility] flag, or, when the
    flag is empty, with the configuration's [default_visibility]; and
    that value is one of the five [toot] accepts. *)
Theorem toot_posts_the_requested_visibility
  (w : World) (fl : Flags) (opt : statusOpts.t) (text : string)
  (h : trace) (r : result (option Status * error)) (t : trace)
  (p : PostStatusParams) :
  preservesVisibility fl opt = false ->
  toot w fl opt text h = (r, t) ->
  In (Net (PostStatus p)) t ->
  postVisibility p = requestedVisibility w opt /\
  validVisibility (postVisibility p) = true.
Proof.
  intros Hpres Ht Hin. unfold toot in Ht.
  rewrite toot_starts_from_requestedVisibility in Ht.
  set (v := requestedVisibility w opt) in *. clearbody v.
  unfold preservesVisibility in Hpres.
  toot_runs Ht.
  all: injection Ht as Hr Htr; subst r t.
  all: in_cases Hin.
  all: injection Hin as Hp; subst p; cbn [postVisibility].
  all: split_tests.
  all: try (split; [reflexivity | assumption]).
  all: use_tests_in Hpres; discriminate Hpres.
Qed.

Lemma toot_posts_the_requested_visibility_witness :
  postVisibility privatePost = requestedVisibility calmWorld privateOpts /\
  validVisibility (postVisibility privatePost) = true.
Proof.
  apply (toot_posts_the_requested_visibility calmWorld noFlags privateOpts
           "hello" [] (Val (Some helloStatus, None))
           [Net (PostStatus privatePost)] privatePost).
  - reflexivity.
  - reflexivity.
  - simpl. left. reflexivity.
Defined.

(** Nothing is posted with the visibility "public" unless "public" was
    asked for, by the flag or by the configuration, and the visibility
    is not taken over from the status answered. *)
Theorem toot_posts_in_public_only_on_request
  (w : World) (fl : Flags) (opt : statusOpts.t) (text : string)
  (h : trace) (r : result (option Status * error)) (t : trace)
  (p : PostStatusParams) :
  toot w fl opt text h = (r, t) ->
  In (Net (PostStatus p)) t ->
  postVisibility p = "public" ->
  requestedVisibility w opt = "public" /\ preservesVisibility fl opt = false.
Proof.
  intros Ht Hin Hpub.
  destruct (preservesVisibility fl opt) eqn:Hpres.
  - exfalso. unfold preservesVisibility in Hpres.
    split_tests.
    match goal with
    | H1 : statusOpts.sameVisibility opt = true,
      H2 : tootVisibilityChanged fl = false,
      H3 : statusPostVisibilityChanged fl = false,
      H4 : (statusOpts.inReplyToID opt =? "")%string = false |- _ =>
        unfold toot, tootReply in Ht; rewrite H1, H2, H3, H4 in Ht
    end.
    cbn [negb andb orb] in Ht.
    toot_runs Ht.
    all: injection Ht as Hr Htr; subst r t.
    all: in_cases Hin.
    all: injection Hin as Hp; subst p; cbn [postVisibility] in Hpub.
    all: exact (inheritedVisibility_not_public _ Hpub).
  - split; [| reflexivity].
    unfold toot in Ht. rewrite toot_starts_from_requestedVisibility in Ht.
    set (v := requestedVisibility w opt) in *. clearbody v.
    unfold preservesVisibility in Hpres.
    toot_runs Ht.
    all: injection Ht as Hr Htr; subst r t.
    all: in_cases Hin.
    all: injection Hin as Hp; subst p; cbn [postVisibility] in Hpub.
    all: try (symmetry; exact Hpub); try exact Hpub.
    all: split_tests.
    all: use_tests_in Hpres; discriminate Hpres.
Qed.

Lemma toot_posts_in_public_only_on_request_witness :
  requestedVisibility calmWorld publicOpts = "public" /\
  preservesVisibility noFlags publicOpts = false.
Proof.
  apply (toot_posts_in_public_only_on_request calmWorld noFlags publicOpts
           "hello" [] (Val (Some helloStatus, None))
           [Net (PostStatus publicPost)] publicPost).
  - reflexivity.
  - simpl. left. reflexivity.
  - reflexivity.
Defined.

Lemma append_empty_inv (a b : string) : a +++ b = "" -> b = "".
Proof. destruct a; simpl; [auto | discriminate]. Qed.

Lemma not_all_empty (text spoiler : string) (ids : list string) :
  (text =? "")%string && (length ids =? 0)%nat && (spoiler =? "")%string
    && true = false ->
  forall m, m +++ text <> "" \/ ids <> [] \/ spoiler <> "".
Proof.
  intros H m.
  destruct (String.eqb_spec text "") as [Et | Et].
  - destruct ids as [| i ids]; [| right; left; discriminate].
    destruct (String.eqb_spec spoiler "") as [Es | Es]; [discriminate H |].
    right. right. exact Es.
  - left. intros E. apply append_empty_inv in E. contradiction.
Qed.

(** Without a file to attach, [toot] never posts a status that has
    neither a text, nor media, nor a spoiler. *)
Theorem toot_never_posts_nothing
  (w : World) (fl : Flags) (opt : statusOpts.t) (text : string)
  (h : trace) (r : result (option Status * error)) (t : trace)
  (p : PostStatusParams) :
  statusOpts.mediaFilePath opt = "" ->
  toot w fl opt text h = (r, t) ->
  In (Net (PostStatus p)) t ->
  Text p <> "" \/ MediaIDs p <> [] \/ SpoilerText p <> "".
Proof.
  intros Hfile Ht Hin. unfold toot in Ht. rewrite Hfile in Ht.
  cbn [String.eqb negb] in Ht.
  toot_runs Ht.
  all: injection Ht as Hr Htr; subst r t.
  all: in_cases Hin.
  all: injection Hin as Hp; subst p; cbn [Text MediaIDs SpoilerText].
  all: match goal with
       | H : _ && _ && _ && true = false |- _ =>
           first [ exact (not_all_empty _ _ _ H "")
                 | exact (not_all_empty _ _ _ H _) ]
       end.
Qed.

Lemma toot_never_posts_nothing_witness :
  Text privatePost <> "" \/ MediaIDs privatePost <> []
  \/ SpoilerText privatePost <> "".
Proof.
  apply (toot_never_posts_nothing calmWorld noFlags privateOpts
           "hello" [] (Val (Some helloStatus, None))
           [Net (PostStatus privatePost)] privatePost).
  - reflexivity.
  - reflexivity.
  - simpl. left. reflexivity.
Defined.

(** With a file to attach, a post carries the identifiers of
    [--media-ids] first and at most four attachments in all. *)
Theorem toot_attaches_at_most_four
  (w : World) (fl : Flags) (opt : statusOpts.t) (text : string)
  (h : trace) (r : result (option Status * error)) (t : trace)
  (p : PostStatusParams) :
  statusOpts.mediaFilePath opt <> "" ->
  toot w fl opt text h = (r, t) ->
  In (Net (PostStatus p)) t ->
  (length (MediaIDs p) <= 4)%nat /\
  exists extra,
    MediaIDs p = fst (splitIDs w (statusOpts.mediaIDs opt)) ++ extra.
Proof.
  intros Hfile Ht Hin. apply String.eqb_neq in Hfile.
  unfold toot in Ht. rewrite Hfile in Ht. cbn [negb] in Ht.
  toot_runs Ht.
  all: injection Ht as Hr Htr; subst r t.
  all: in_cases Hin.
  all: injection Hin as Hp; subst p; cbn [MediaIDs].
  all: match goal with
       | H : (3 <? _)%nat = false |- _ => apply Nat.ltb_ge in H
       end.
  all: split;
       [ rewrite ?length_app; simpl; lia
       | first [ exists []; rewrite app_nil_r; reflexivity
               | eexists; reflexivity ] ].
Qed.

Lemma toot_attaches_at_most_four_witness :
  (length (MediaIDs mediaPost) <= 4)%nat /\
  exists extra,
    MediaIDs mediaPost
      = fst (splitIDs calmWorld (statusOpts.mediaIDs mediaOpts)) ++ extra.
Proof.
  apply (toot_attaches_at_most_four calmWorld noFlags mediaOpts "look" []
           (Val (Some helloStatus, None))
           [Net (UploadFile "cat.png"); Net (PostStatus mediaPost)] mediaPost).
  - simpl. discriminate.
  - reflexivity.
  - simpl. right. left. reflexivity.
Defined.

(** A post answers the status of [--in-reply-to], carries the
    [--sensitive] mark and the [--spoiler] text as given, and its text
    ends with the text [toot] was given; except in a reply with
    [--add-mentions], it is that text. *)
Theorem toot_posts_what_it_was_given
  (w : World) (fl : Flags) (opt : statusOpts.t) (text : string)
  (h : trace) (r : result (option Status * error)) (t : trace)
  (p : PostStatusParams) :
  toot w fl opt text h = (r, t) ->
  In (Net (PostStatus p)) t ->
  InReplyTo p = statusOpts.inReplyToID opt /\
  Sensitive p = statusOpts.sensitive opt /\
  SpoilerText p = statusOpts.spoiler opt /\
  exists mentions,
    Text p = mentions +++ text /\
    (statusOpts.addMentions opt = false \/ statusOpts.inReplyToID opt = "" ->
     mentions = "").
Proof.
  intros Ht Hin. toot_runs Ht.
  all: injection Ht as Hr Htr; subst r t.
  all: in_cases Hin.
  all: injection Hin as Hp; subst p;
       cbn [InReplyTo Sensitive SpoilerText Text].
  all: repeat (split; [reflexivity |]).
  all: split_tests.
  all: first
         [ exists ""; split; [reflexivity | intros _; reflexivity]
         | eexists; split;
           [ reflexivity
           | intros [Hm | Hr];
             [ congruence
             | rewrite Hr in *; discriminate ] ] ].
Qed.

Lemma toot_posts_what_it_was_given_witness :
  InReplyTo replyPost = statusOpts.inReplyToID replyOpts /\
  Sensitive replyPost = statusOpts.sensitive replyOpts /\
  SpoilerText replyPost = statusOpts.spoiler replyOpts /\
  exists mentions,
    Text replyPost = mentions +++ "hi" /\
    (statusOpts.addMentions replyOpts = false
     \/ statusOpts.inReplyToID replyOpts = "" ->
     mentions = "").
Proof.
  apply (toot_posts_what_it_was_given calmWorld noFlags replyOpts "hi" []
           (Val (Some helloStatus, None))
           [Net (GetStatus (StrID "99")); Net (PostStatus replyPost)]
           replyPost).
  - reflexivity.
  - simpl. right. left. reflexivity.
Defined.

(** ** The status subcommands and their switch *)

Ltac case_of name c s :=
  destruct (String.eqb_spec name s) as [? | ?];
  [ exists c; split; [simpl; tauto | subst name; reflexivity] | ].

Ltac no_case H :=
  repeat match goal with
         | N : _ <> _ |- _ =>
             apply String.eqb_neq in N; rewrite N in H; clear N
         end.

(** The [switch] of [statusSubcommandRunE] has a case for a name exactly
    when it is the name of one of the fifteen subcommands of [status]:
    for those it never reaches its default case, and for every other
    name it does. *)
Theorem the_switch_covers_the_status_subcommands
  (w : World) (fl : Flags) (opt : statusOpts.t) (name : string)
  (args : list string) :
  neverReturns (statusSwitch w fl opt name args) <->
  exists c, In c statusSubcommands /\ Name c = name.
Proof.
  split.
  - intros H.
    case_of name statusShow "show".
    case_of name statusContext "context".
    case_of name statusCard "card".
    case_of name statusRebloggedBy "reblogged-by".
    case_of name statusFavouritedBy "favourited-by".
    case_of name statusDelete "delete".
    case_of name statusReblogSubcommand "boost".
    case_of name statusUnreblogSubcommand "unboost".
    case_of name statusFavouriteSubcommand "favourite".
    case_of name statusUnfavouriteSubcommand "unfavourite".
    case_of name statusPinSubcommand "pin".
    case_of name statusUnpinSubcommand "unpin".
    case_of name statusMuteConversation "mute-conversation".
    case_of name statusUnmuteConversation "unmute-conversation".
    case_of name statusPostSubcommand "post".
    exfalso. unfold neverReturns, statusSwitch in H.
    no_case H. cbn [orb] in H.
    exact (H [] _ _ eq_refl).
  - intros [c [Hin Hname]] h e t. subst name.
    unfold statusSubcommands in Hin. simpl in Hin.
    repeat match type of Hin with
           | _ \/ _ => destruct Hin as [Hin | Hin]
           end; try contradiction; subst c.
    all: unfold statusSwitch, statusPost, bind, callStatus, callContext,
           callCard, callAccounts, callErr, keepOrPanic, ioReadFile,
           ioReadStdin, ret, panic, pastStatus.
    all: cbv [Name Use upToSpace].
    all: cbn [String.eqb Ascii.eqb Bool.eqb orb andb negb].
    all: repeat (match goal with
                 | |- context [match ?x with _ => _ end] =>
                     lazymatch x with
                     | context [match _ with _ => _ end] => fail
                     | _ => destruct x
                     end
                 end; cbn [fst snd]).
    all: discriminate.
Qed.

(** With the deprecated [--unset] flag set, [statusSubcommandRunE] does
    for [boost], [favourite] and [pin] what it does for [unboost],
    [unfavourite] and [unpin]: it sends the undoing request and treats
    the answer alike.  (The notice the flag parser writes for a
    deprecated flag comes before this function and is no part of it.) *)
Theorem unset_sends_the_opposite_request
  (w : World) (fl : Flags) (opt : statusOpts.t) (args : list string)
  (h : trace) :
  statusOpts.unset opt = true ->
  let id := statusOpts.statusID opt in
  (statusSubcommandRunE w fl opt "boost" args h
     = statusSubcommandRunE w fl opt "unboost" args h /\
   hd_error (snd (statusSubcommandRunE w fl opt "boost" args h))
     = Some (Net (UnreblogStatus id))) /\
  (statusSubcommandRunE w fl opt "favourite" args h
     = statusSubcommandRunE w fl opt "unfavourite" args h /\
   hd_error (snd (statusSubcommandRunE w fl opt "favourite" args h))
     = Some (Net (UnfavouriteStatus id))) /\
  (statusSubcommandRunE w fl opt "pin" args h
     = statusSubcommandRunE w fl opt "unpin" args h /\
   hd_error (snd (statusSubcommandRunE w fl opt "pin" args h))
     = Some (Net (UnpinStatus id))).
Proof.
  intros Hunset id.
  unfold statusSubcommandRunE, statusSwitch.
  cbn [String.eqb Ascii.eqb Bool.eqb orb andb negb].
  rewrite Hunset. cbn [orb].
  unfold bind, callErr, ret. cbn [fst snd app].
  repeat split;
    destruct (apiErr w h _); reflexivity.
Qed.

Lemma unset_sends_the_opposite_request_witness :
  let id := statusOpts.statusID (fStatus unsetFlags) in
  (statusSubcommandRunE calmWorld unsetFlags (fStatus unsetFlags) "boost" [] []
     = statusSubcommandRunE calmWorld unsetFlags (fStatus unsetFlags) "unboost" [] [] /\
   hd_error (snd (statusSubcommandRunE calmWorld unsetFlags (fStatus unsetFlags)
                    "boost" [] []))
     = Some (Net (UnreblogStatus id))) /\
  (statusSubcommandRunE calmWorld unsetFlags (fStatus unsetFlags) "favourite" [] []
     = statusSubcommandRunE calmWorld unsetFlags (fStatus unsetFlags) "unfavourite" [] [] /\
   hd_error (snd (statusSubcommandRunE calmWorld unsetFlags (fStatus unsetFlags)
                    "favourite" [] []))
     = Some (Net (UnfavouriteStatus id))) /\
  (statusSubcommandRunE calmWorld unsetFlags (fStatus unsetFlags) "pin" [] []
     = statusSubcommandRunE calmWorld unsetFlags (fStatus unsetFlags) "unpin" [] [] /\
   hd_error (snd (statusSubcommandRunE calmWorld unsetFlags (fStatus unsetFlags)
                    "pin" [] []))
     = Some (Net (UnpinStatus id))).
Proof.
  apply (unset_sends_the_opposite_request calmWorld unsetFlags
           (fStatus unsetFlags) [] []).
  reflexivity.
Defined.

Lemma set_hasReplyTo_same (o : statusOpts.t) :
  statusOpts.set_hasReplyTo (statusOpts._hasReplyTo o) o = o.
Proof. destruct o; reflexivity. Qed.

(** [toot] is [status post]: when the output format passes the check of
    the root command and the [Changed] state of [--in-reply-to] is what
    [statusOpts] already holds, the two commands run alike, login
    included. *)
Theorem toot_runs_status_post
  (w : World) (fl : Flags) (cfg : Config) (args : list string) :
  checkOutputFormatResult w (snd (initConfig cfg [])) = None ->
  tootInReplyToChanged fl = statusOpts._hasReplyTo (fStatus fl) ->
  execute w fl cfg tootAliasCmd args []
    = execute w fl cfg statusPostSubcommand args [].
Proof.
  intros Hfmt Hreply.
  unfold execute. cbn [RunE persistentHook treeDepth PersistentPreRunE Parent].
  unfold tootAliasRunE. rewrite Hreply, set_hasReplyTo_same.
  unfold statusPersistentPreRunE.
  change (Name statusPostSubcommand) with "post".
  cbn [String.eqb Ascii.eqb Bool.eqb negb]. rewrite andb_false_r.
  unfold bind at 1 2 4 5.
  destruct (initConfig cfg []) as [[[] | code | s] t0]; try reflexivity.
  cbn [snd] in Hfmt. cbn [app].
  unfold checkOutputFormat. rewrite Hfmt. cbn [raised].
  rewrite app_nil_r. unfold bind, madonInit, ret.
  destruct (madonInitResult w t0 true) as [msg |]; [reflexivity |].
  destruct (statusSubcommandRunE w fl (fStatus fl) "post" args (t0 ++ [Init true]))
    as [[e | c | s] t]; cbn [app]; rewrite ?app_nil_r; reflexivity.
Qed.

Lemma toot_runs_status_post_witness :
  execute calmWorld noFlags noConfig tootAliasCmd ["hi"] []
    = execute calmWorld noFlags noConfig statusPostSubcommand ["hi"] [].
Proof.
  apply (toot_runs_status_post calmWorld noFlags noConfig ["hi"]).
  - reflexivity.
  - reflexivity.
Defined.

(** ** What the listings print *)

Lemma keepFirst_some {A : Type} (keep : Z) (l l' : list A) :
  0 < keep <= maxInt ->
  keepFirst keep l = Some l' ->
  l' = firstn (Z.to_nat keep) l.
Proof.
  intros H. unfold keepFirst, sliceTo.
  rewrite (int_of_uint_small keep) by lia.
  destruct (Z.ltb_spec 0 keep); [| lia]. cbn [andb].
  destruct (Z.ltb_spec keep (len l)) as [Hl | Hl].
  - destruct (Z.leb_spec keep (len l)); [| discriminate].
    intros E; injection E as <-. reflexivity.
  - intros E; injection E as <-. symmetry. apply firstn_all2.
    unfold len in Hl. lia.
Qed.

Ltac printed_cases Hin :=
  in_cases Hin;
  try (unfold raised in Hin;
       match type of Hin with
       | context [match ?e with _ => _ end] => destruct e
       end; in_cases Hin).

(** With [--keep N], for an [N] from 1 to [maxInt], whatever [timeline]
    prints is the printer's text for the first [N] statuses of the
    server's answer, never for more than [N]. *)
Theorem timeline_prints_the_first_statuses
  (w : World) (fl : Flags) (args : list string) (h : trace)
  (r : result error) (t : trace) (out : string) :
  let opt := fTimeline fl in
  let tl := timelineOf args in
  let login := Init (timelineSignsIn tl) in
  let request := GetTimelines tl (timelineOpts.local opt)
                   (timelineOpts.onlyMedia opt) (timelineLimOpts opt) in
  0 < timelineOpts.keep opt <= maxInt ->
  timelineRunE w fl args h = (r, t) ->
  In (Stdout out) t ->
  exists (pr : Printer) (sl : list Status),
    fst (getPrinterResult w (h ++ [login; Net request])) = Some pr /\
    (length sl <= Z.to_nat (timelineOpts.keep opt))%nat /\
    sl = firstn (Z.to_nat (timelineOpts.keep opt))
           (fst (apiStatuses w (h ++ [login]) request)) /\
    out = fst (pr (ObjStatuses sl)).
Proof.
  intros opt tl login request Hkeep Ht Hin.
  unfold timelineRunE in Ht. fold opt in Ht.
  change (match args with a :: _ => a | [] => "home" end) with tl in Ht.
  change ((tl =? "home")%string || (tl =? "direct")%string || prefix "!" tl)
    with (timelineSignsIn tl) in Ht.
  unfold bind, madonInit, callStatuses, keepOrPanic, getPrinter, printObj,
    errPrint, emit, osExit, ret, panic in Ht.
  repeat (stuck_scrutinee Ht; cbn [fst snd] in Ht).
  all: injection Ht as Hr Htr; subst r t.
  all: printed_cases Hin.
  all: injection Hin as <-.
  all: match goal with
       | Hp : fst (getPrinterResult _ _) = Some ?p,
         Hk : keepFirst _ _ = Some ?l |- _ =>
           exists p, l;
           rewrite ?app_nil_r, <- ?app_assoc in Hp;
           apply (keepFirst_some _ _ _ Hkeep) in Hk;
           split; [exact Hp |];
           split; [rewrite Hk; apply firstn_le_length |];
           split; [exact Hk | reflexivity]
       end.
Qed.

Lemma timeline_prints_the_first_statuses_witness :
  exists (pr : Printer) (sl : list Status),
    fst (getPrinterResult listingWorld
           ([] ++ [Init true; Net (GetTimelines "home" false false None)]))
      = Some pr /\
    (length sl <= Z.to_nat 1)%nat /\
    sl = firstn (Z.to_nat 1)
           (fst (apiStatuses listingWorld ([] ++ [Init true])
                   (GetTimelines "home" false false None))) /\
    "one" = fst (pr (ObjStatuses sl)).
Proof.
  apply (timeline_prints_the_first_statuses listingWorld keepOneFlags [] []
           (Val None)
           [Init true; Net (GetTimelines "home" false false None);
            Stdout "one"]
           "one").
  - simpl. unfold maxInt, uintSize. lia.
  - reflexivity.
  - simpl. right. right. left. reflexivity.
Defined.

(** The same for [suggestions list]: with [--keep N], for an [N] from 1
    to [maxInt], what it prints is the printer's text for the first [N]
    accounts the server suggested. *)
Theorem suggestions_list_prints_the_first_accounts
  (w : World) (fl : Flags) (args : list string) (h : trace)
  (r : result error) (t : trace) (out : string) :
  let keep := suggestionsOpts.keep (fSuggestions fl) in
  0 < keep <= maxInt ->
  suggestionsGetRunE w fl args h = (r, t) ->
  In (Stdout out) t ->
  exists (pr : Printer) (accountList : list Account),
    fst (getPrinterResult w (h ++ [Init true; Net GetSuggestions])) = Some pr /\
    (length accountList <= Z.to_nat keep)%nat /\
    accountList = firstn (Z.to_nat keep)
                    (fst (apiAccounts w (h ++ [Init true]) GetSuggestions)) /\
    out = fst (pr (ObjAccounts accountList)).
Proof.
  intros keep Hkeep Ht Hin.
  unfold suggestionsGetRunE in Ht. fold keep in Ht.
  unfold bind, madonInit, callAccounts, keepOrPanic, getPrinter, printObj,
    errPrint, emit, osExit, ret, panic in Ht.
  repeat (stuck_scrutinee Ht; cbn [fst snd] in Ht).
  all: injection Ht as Hr Htr; subst r t.
  all: printed_cases Hin.
  all: injection Hin as <-.
  all: match goal with
       | Hp : fst (getPrinterResult _ _) = Some ?p,
         Hk : keepFirst _ _ = Some ?l |- _ =>
           exists p, l;
           rewrite ?app_nil_r, <- ?app_assoc in Hp;
           apply (keepFirst_some _ _ _ Hkeep) in Hk;
           split; [exact Hp |];
           split; [rewrite Hk; apply firstn_le_length |];
           split; [exact Hk | reflexivity]
       end.
Qed.

Lemma suggestions_list_prints_the_first_accounts_witness :
  exists (pr : Printer) (accountList : list Account),
    fst (getPrinterResult listingWorld ([] ++ [Init true; Net GetSuggestions]))
      = Some pr /\
    (length accountList <= Z.to_nat 1)%nat /\
    accountList = firstn (Z.to_nat 1)
                    (fst (apiAccounts listingWorld ([] ++ [Init true])
                            GetSuggestions)) /\
    "alice" = fst (pr (ObjAccounts accountList)).
Proof.
  apply (suggestions_list_prints_the_first_accounts listingWorld keepOneFlags
           [] [] (Val None)
           [Init true; Net GetSuggestions; Stdout "alice"] "alice").
  - simpl. unfold maxInt, uintSize. lia.
  - reflexivity.
  - simpl. right. right. left. reflexivity.
Defined.

(** ** The limit of a timeline request *)

Lemma timelineLimOpts_with_limit (opt : timelineOpts.t) :
  0 < timelineOpts.limit opt ->
  timelineLimOpts opt
    = Some (mkLimitParams (int_of_uint (timelineOpts.limit opt)) false
              (timelineOpts.sinceID opt) (timelineOpts.maxID opt)).
Proof.
  intros H. unfold timelineLimOpts.
  destruct (Z.ltb_spec 0 (timelineOpts.limit opt)); [| lia].
  cbn [orb newLimitParams Limit All SinceID MaxID].
  destruct (String.eqb_spec (timelineOpts.maxID opt) "") as [Em | Em];
    destruct (String.eqb_spec (timelineOpts.sinceID opt) "") as [Es | Es];
    cbn [negb Limit All SinceID MaxID]; rewrite ?Em, ?Es; reflexivity.
Qed.

(** With [--limit N], [N] at least 1, every request [timeline] sends
    carries the limit [int(N)] and the [--since-id] and [--max-id] given:
    that limit is [N] up to [maxInt] and negative above. *)
Theorem timeline_sends_the_converted_limit
  (w : World) (fl : Flags) (args : list string) (h : trace)
  (tl : string) (local onlyMedia : bool) (lim : option LimitParams) :
  let opt := fTimeline fl in
  0 < timelineOpts.limit opt <= maxUint ->
  In (Net (GetTimelines tl local onlyMedia lim))
     (snd (timelineRunE w fl args h)) ->
  exists l,
    lim = Some l /\
    SinceID l = timelineOpts.sinceID opt /\
    MaxID l = timelineOpts.maxID opt /\
    (timelineOpts.limit opt <= maxInt -> Limit l = timelineOpts.limit opt) /\
    (maxInt < timelineOpts.limit opt -> Limit l < 0).
Proof.
  intros opt Hlimit Hin.
  destruct (timelineRunE w fl args h) as [r t] eqn:Ht. cbn [snd] in Hin.
  unfold timelineRunE in Ht. fold opt in Ht.
  rewrite (timelineLimOpts_with_limit opt) in Ht by lia.
  unfold bind, madonInit, callStatuses, keepOrPanic, getPrinter, printObj,
    errPrint, emit, osExit, ret, panic in Ht.
  repeat (stuck_scrutinee Ht; cbn [fst snd] in Ht).
  all: injection Ht as Hr Htr; subst r t.
  all: printed_cases Hin.
  all: injection Hin as _ _ _ <-.
  all: eexists; split; [reflexivity |]; cbn [Limit SinceID MaxID].
  all: split; [reflexivity |]; split; [reflexivity |].
  all: split; intros Hl;
       [ apply int_of_uint_small; lia | apply int_of_uint_large; lia ].
Qed.

Lemma timeline_sends_the_converted_limit_witness :
  exists l,
    Some (mkLimitParams (- 2 ^ 63) false "" "500") = Some l /\
    SinceID l = timelineOpts.sinceID (fTimeline hugeLimitFlags) /\
    MaxID l = timelineOpts.maxID (fTimeline hugeLimitFlags) /\
    (timelineOpts.limit (fTimeline hugeLimitFlags) <= maxInt ->
     Limit l = timelineOpts.limit (fTimeline hugeLimitFlags)) /\
    (maxInt < timelineOpts.limit (fTimeline hugeLimitFlags) -> Limit l < 0).
Proof.
  apply (timeline_sends_the_converted_limit calmWorld hugeLimitFlags
           ["public"] [] "public" false false
           (Some (mkLimitParams (- 2 ^ 63) false "" "500"))).
  - simpl. unfold maxUint, uintSize. lia.
  - vm_compute. right. left. reflexivity.
Defined.
